(** * Linear dispersion of an optical pulse: a model of [dispersion_calc.py]

  The class [DispersionCalculator] keeps a Gaussian pulse as two pairs of
  arrays (reference field and output field, each in the time and in the
  frequency domain), filters the output field through materials and reads
  pulse characteristics off it.

  The arithmetic of the program is that of [numpy]: IEEE binary64 numbers
  and pairs of them as complex numbers.  The model is written once, over
  an interface of the operations the source uses ([Float64] for the basic
  operations, [NumPy] for the elementary functions and the transforms it
  calls, [PolyFit] for [np.polyfit]); the code of the class itself, the
  array plumbing, the guards and the loops, is translated as it stands.
  Two instances are given: [IEEE], the machine numbers of the kernel, on
  which the array code runs, and [Ideal], real numbers with one undefined
  value, in which rounding does not exist.

  The catalogue of materials is a map from names to interpolators of the
  refractive index.  [add_material] is modelled, with [interp1d] of
  [scipy] as one more operation of the interface ([Interp1d]); the
  built-in materials and the reading of the materials directory
  ([generate_materials_dict], [read_material]) are not, nor is the
  logging.  The source is read as Python 3 runs it: [/] is the true
  division, so [shape[0] / 2] is a float; numbers passed in are Python
  floats, on which a zero divisor and an overflowing power raise. *)

From Stdlib Require Import ZArith QArith Reals Floats Lra Lia Bool.
From stdpp Require Import base gmap strings list.

(** ** Exceptions *)

(** The exceptions a call can end with.  A call that raises leaves the model
    with the exception only: the partially updated object is not observed. *)
Inductive exn : Set :=
  | ZeroDivisionError
  | ValueError
  | TypeError
  | IndexError
  | OverflowError.

Inductive result (A : Type) : Type :=
  | Ok (a : A)
  | Raise (e : exn).
Arguments Ok {A} a.
Arguments Raise {A} e.

#[global] Instance result_ret : MRet result := fun _ a => Ok a.
#[global] Instance result_bind : MBind result := fun _ _ k m =>
  match m with
  | Ok a => k a
  | Raise e => Raise e
  end.

(** ** The numbers *)

(** The binary64 operations of the source: the arithmetic of Python floats
    and of [numpy] arrays of them.  [flit q] is the float a decimal literal
    or an integer denotes, [fpi] is [np.pi]. *)
Class Float64 (F : Type) : Type := {
  fadd : F → F → F;
  fsub : F → F → F;
  fmul : F → F → F;
  fdiv : F → F → F;
  fneg : F → F;
  fabs : F → F;
  fsqrt : F → F;
  fltb : F → F → bool;
  feqb : F → F → bool;
  flit : Q → F;
  fpi : F;
  fnan : F;
  fisnan : F → bool;
  fisfinite : F → bool
}.

Declare Scope float64_scope.
Delimit Scope float64_scope with f64.
Infix "+." := fadd (at level 50, left associativity) : float64_scope.
Infix "-." := fsub (at level 50, left associativity) : float64_scope.
Infix "*." := fmul (at level 40, left associativity) : float64_scope.
Infix "/." := fdiv (at level 40, left associativity) : float64_scope.
Infix "<.?" := fltb (at level 70, no associativity) : float64_scope.
Infix "=.?" := feqb (at level 70, no associativity) : float64_scope.
Local Open Scope float64_scope.

(** A complex number: its real and its imaginary part. *)
Definition complex (F : Type) : Type := (F * F)%type.

Section Scalars.
Context {F : Type} `{Float64 F}.

Definition f0 : F := flit 0.
Definition f1 : F := flit 1.
Definition f2 : F := flit 2.
Definition of_int (z : Z) : F := flit (inject_Z z).

(** [x ** 2], the product [x * x]. *)
Definition fsqr (x : F) : F := x *. x.

(** [x <= y] and [x > y] of IEEE numbers, from [<] and [==]. *)
Definition fleb (x y : F) : bool := (x <.? y) || (x =.? y).
Definition fgtb (x y : F) : bool := y <.? x.

(** Division of Python floats: a zero divisor raises. *)
Definition py_div (x y : F) : result F :=
  if y =.? f0 then Raise ZeroDivisionError else Ok (x /. y).

(** [x ** 2] of a Python float: the square, and an [OverflowError] where
    a finite number has none in range.  (On an array, and on a [numpy]
    float, [** 2] is [fsqr]: it overflows to infinity.) *)
Definition py_sqr (x : F) : result F :=
  if fisfinite x && negb (fisfinite (x *. x)) then Raise OverflowError
  else Ok (x *. x).

(** The truth value of a number: everything but zero, NaN included. *)
Definition truthy (x : F) : bool := negb (x =.? f0).

(** [np.sign]: -1, 0 or 1, and NaN for NaN. *)
Definition np_sign (x : F) : F :=
  if f0 <.? x then f1
  else if x <.? f0 then fneg f1
  else if x =.? f0 then f0
  else x.

(** [np.maximum], which hands NaN on. *)
Definition np_maximum (a b : F) : F :=
  if fleb b a || fisnan a then a else b.

Definition czero : complex F := (f0, f0).
Definition of_real (x : F) : complex F := (x, f0).
(** The literal [-1j]: the negation of [0 + 1j]. *)
Definition minus_j : complex F := (fneg f0, fneg f1).

Definition cmul (a b : complex F) : complex F :=
  (a.1 *. b.1 -. a.2 *. b.2, a.1 *. b.2 +. a.2 *. b.1).
Definition cadd (a b : complex F) : complex F := (a.1 +. b.1, a.2 +. b.2).
Definition cdiv_real (a : complex F) (x : F) : complex F := (a.1 /. x, a.2 /. x).

Definition cisnan (z : complex F) : bool := fisnan z.1 || fisnan z.2.
Definition cisfinite (z : complex F) : bool := fisfinite z.1 && fisfinite z.2.
(** [z == 0] *)
Definition ceq0 (z : complex F) : bool := (z.1 =.? f0) && (z.2 =.? f0).
End Scalars.

(** The elementary functions and the transforms the source takes from
    [numpy]: [np.exp] and [np.log] on reals, [np.exp], [np.abs] and
    [np.angle] on complex numbers, [np.fft.fft] and [np.fft.ifft] on arrays
    that are not empty. *)
Class NumPy (F : Type) `{Float64 F} : Type := {
  np_exp : F → F;
  np_log : F → F;
  np_cexp : complex F → complex F;
  np_abs : complex F → F;
  np_angle : complex F → F;
  np_fft : list (complex F) → list (complex F);
  np_ifft : list (complex F) → list (complex F)
}.

(** The transforms return an array of the length of their argument. *)
Class Shapes (F : Type) `{NumPy F} : Prop := {
  np_fft_length : ∀ a : list (complex F), length (np_fft a) = length a;
  np_ifft_length : ∀ a : list (complex F), length (np_ifft a) = length a
}.

(** What the source relies on where a number is NaN or zero: NaN goes
    through a product, a quotient and a difference; zero times a finite
    number is a zero, sums and differences of zeros are zeros, and a zero
    is not NaN.  And on signs: a number beyond 5 in magnitude that is not
    negative is positive, and two signs differ where their difference is
    not zero. *)
Class Arithmetic (F : Type) `{Float64 F} : Prop := {
  fmul_nan_l : ∀ x y : F, fisnan x = true → fisnan (x *. y) = true;
  fmul_nan_r : ∀ x y : F, fisnan y = true → fisnan (x *. y) = true;
  fdiv_nan_l : ∀ x y : F, fisnan x = true → fisnan (x /. y) = true;
  fsub_nan_l : ∀ x y : F, fisnan x = true → fisnan (x -. y) = true;
  fmul_0_finite : ∀ x : F, fisfinite x = true → (f0 *. x =.? f0) = true;
  fsub_zeros : ∀ x y : F,
    (x =.? f0) = true → (y =.? f0) = true → (x -. y =.? f0) = true;
  fadd_zeros : ∀ x y : F,
    (x =.? f0) = true → (y =.? f0) = true → (x +. y =.? f0) = true;
  zero_not_nan : ∀ x : F, (x =.? f0) = true → fisnan x = false;
  zero_is_zero : ((f0 : F) =.? f0) = true;
  positive_jump : ∀ d : F,
    fgtb (fabs d) (flit 5) = true → (d <.? f0) = false → (f0 <.? d) = true;
  sign_change : ∀ a b : F,
    truthy (np_sign b -. np_sign a) = negb (np_sign b =.? np_sign a)
}.

(** With the arithmetic: [np.exp] of a complex number whose real part is
    NaN has a NaN in it.  (A NaN imaginary part alone does not do:
    [np.exp(complex(-inf, nan))] is zero.) *)
Class Undefined (F : Type) `{NumPy F} : Prop := {
  undefined_arithmetic :: Arithmetic F;
  np_cexp_nan : ∀ z : complex F, fisnan z.1 = true → cisnan (np_cexp z) = true
}.

(** [np.polyfit x y deg]: the coefficients, highest order first; it raises
    where it cannot fit. *)
Class PolyFit (F : Type) : Type := {
  np_polyfit : list F → list F → nat → result (list F)
}.

(** ** Arrays *)

Section Arrays.
Context {A : Type}.

(** [np.roll a shift]: element [i] moves to [(i + shift) mod n]. *)
Definition np_roll (a : list A) (shift : Z) : list A :=
  let n := length a in
  let k := Z.to_nat (shift `mod` Z.of_nat n) in
  drop (n - k) a ++ take (n - k) a.

(** [np.roll a shift] for a float shift of so many halves: [np.roll]
    reduces the shift modulo the length; where that leaves [0.0] nothing
    moves, and any other float is used as the bound of a slice, which
    raises [TypeError]. *)
Definition np_roll_halves (a : list A) (halves : Z) : result (list A) :=
  let n := Z.max (Z.of_nat (length a)) 1 in
  if (halves `mod` (2 * n) =? 0)%Z then Ok a else Raise TypeError.

(** [np.fft.fftshift]: a roll by [n // 2]. *)
Definition fftshift (a : list A) : list A :=
  np_roll a (Z.of_nat (length a) `div` 2).

(** [a[mask] = v] for a boolean mask of the length of [a]. *)
Definition mask_set (mask : list bool) (v : A) (a : list A) : list A :=
  zip_with (fun (m : bool) x => if m then v else x) mask a.

(** [a[mask]]: the elements the mask selects. *)
Fixpoint mask_get (mask : list bool) (a : list A) : list A :=
  match mask, a with
  | m :: mask', x :: a' =>
      if m then x :: mask_get mask' a' else mask_get mask' a'
  | _, _ => []
  end.

(** [a[i]] for an index in range; Python raises past the end. *)
Definition getitem (a : list A) (i : nat) : result A :=
  match a !! i with
  | Some x => Ok x
  | None => Raise IndexError
  end.

(** Two arrays under an elementwise operation: numpy stretches an array
    of one element and refuses other arrays of unequal lengths. *)
Definition broadcast (f : A → A → A) (a b : list A) : result (list A) :=
  match a, b with
  | [x], _ => Ok (map (f x) b)
  | _, [y] => Ok (map (fun x => f x y) a)
  | _, _ =>
      if decide (length a = length b) then Ok (zip_with f a b)
      else Raise ValueError
  end.
End Arrays.

(** [np.where(a)[0]]: the indices of the true entries, ascending. *)
Fixpoint where_from (i : nat) (a : list bool) : list nat :=
  match a with
  | [] => []
  | b :: a' => if b then i :: where_from (S i) a' else where_from (S i) a'
  end.
Definition np_where (a : list bool) : list nat := where_from 0 a.

Section FloatArrays.
Context {F : Type} `{Float64 F}.

(** [np.diff a]: [a[i+1] - a[i]]. *)
Definition np_diff (a : list F) : list F :=
  zip_with (fun lo hi => hi -. lo) a (tail a).

(** [a.max()] *)
Definition np_max (a : list F) : result F :=
  match a with
  | [] => Raise ValueError
  | x :: a' => Ok (foldl np_maximum x a')
  end.

(** [np.argmax a]: the first index of the maximum; a NaN counts as the
    maximum and ends the search. *)
Fixpoint argmax_from (best : F) (ibest i : nat) (a : list F) : nat :=
  match a with
  | [] => ibest
  | x :: a' =>
      if fleb x best then argmax_from best ibest (S i) a'
      else if fisnan x then i
      else argmax_from x i (S i) a'
  end.
Definition np_argmax (a : list F) : result nat :=
  match a with
  | [] => Raise ValueError
  | x :: a' => Ok (if fisnan x then 0%nat else argmax_from x 0 1 a')
  end.

(** [np.linspace start stop num], end point included. *)
Definition np_linspace (start stop : F) (num : Z) : result (list F) :=
  if (num <? 0)%Z then Raise ValueError
  else
    let n := Z.to_nat num in
    let div := of_int (num - 1) in
    let delta := stop -. start in
    let y := map (fun i : nat => of_int (Z.of_nat i)) (seq 0 n) in
    let y :=
      if (1 <? num)%Z then
        let step := delta /. div in
        if step =.? f0 then map (fun i => i /. div *. delta) y
        else map (fun i => i *. step) y
      else map (fun i => i *. delta) y in
    let y := map (fun v => v +. start) y in
    Ok (if (1 <? num)%Z then <[(n - 1)%nat := stop]> y else y).

(** [np.fft.fftfreq n d]: the integers [0 .. (n-1)//2, -(n//2) .. -1]
    times [1.0 / (n * d)]. *)
Definition fftfreq_ints (n : Z) : list Z :=
  seqZ 0 ((n - 1) `div` 2 + 1) ++ seqZ (- (n `div` 2)) (n `div` 2).
Definition np_fftfreq (n : Z) (d : F) : result (list F) :=
  val ← py_div f1 (of_int n *. d);
  Ok (map (fun k => of_int k *. val) (fftfreq_ints n)).

(** [np.polyval p x], Horner's rule from the highest coefficient. *)
Definition np_polyval (p : list F) (x : F) : F :=
  foldl (fun y pv => y *. x +. pv) f0 p.
End FloatArrays.

(** ** The calculator *)

(** The attributes of a [DispersionCalculator].  An array of real numbers
    that later holds complex ones ([E_t], [E_t_out]) is kept as the complex
    array with zero imaginary parts.  [materials] maps a name to the
    interpolator of the refractive index over the angular frequency, which
    is NaN outside the band the material was sampled on. *)
Record calc (F : Type) : Type := Calc {
  self_materials_path : string;
  self_c : F;
  self_phase_thr : F;
  self_t_span : F;
  self_l_0 : F;
  self_w_0 : F;
  self_N : Z;
  self_dt : F;
  self_t : list F;
  self_w : list F;
  self_E_t : list (complex F);
  self_E_w : list (complex F);
  self_E_t_out : list (complex F);
  self_E_w_out : list (complex F);
  self_materials : gmap string (F → F)
}.
Arguments Calc {F}.
Arguments self_materials_path {F}.
Arguments self_c {F}.
Arguments self_phase_thr {F}.
Arguments self_t_span {F}.
Arguments self_l_0 {F}.
Arguments self_w_0 {F}.
Arguments self_N {F}.
Arguments self_dt {F}.
Arguments self_t {F}.
Arguments self_w {F}.
Arguments self_E_t {F}.
Arguments self_E_w {F}.
Arguments self_E_t_out {F}.
Arguments self_E_w_out {F}.
Arguments self_materials {F}.

(** A call of [propagate_material]: the material and the thickness. *)
Definition call (F : Type) : Type := (string * F)%type.

Section Calculator.
Context {F : Type} `{NumPy F}.

(** [np.fft.fft] and [np.fft.ifft] refuse an empty array. *)
Definition fft (a : list (complex F)) : result (list (complex F)) :=
  match a with [] => Raise ValueError | _ => Ok (np_fft a) end.
Definition ifft (a : list (complex F)) : result (list (complex F)) :=
  match a with [] => Raise ValueError | _ => Ok (np_ifft a) end.

(** The attributes [__init__] sets before it generates the first pulse:
    the grids of the default 8192 samples and four empty field arrays.
    The catalogue is the one [generate_materials_dict] builds. *)
Definition init_fields (l_0 t_span : F) (catalogue : gmap string (F → F))
  : result (calc F) :=
  let c := flit 299792458 in
  w_0 ← py_div (f2 *. fpi *. c) l_0;
  dt ← py_div t_span (of_int 8192);
  t ← np_linspace (fneg t_span /. f2) (t_span /. f2) 8192;
  freq ← np_fftfreq 8192 dt;
  Ok (Calc "./materials" c (flit (1 # 100)) t_span l_0 w_0 8192 dt t
        (fftshift (map (fun x => f2 *. fpi *. x) freq))
        [] [] [] [] catalogue).

(** The Gaussian time constant for a width given in time or in
    wavelength: a [numpy] float in the first case, a Python float in the
    second. *)
Definition pulse_tau (self : calc F) (fwhm l_0 : F) (duration_domain : string)
  : result F :=
  if String.eqb duration_domain "temporal" then
    Ok (fwhm /. fsqrt (f2 *. np_log f2))
  else
    l_0_2 ← py_sqr l_0;
    py_div (flit (441 # 1000) *. l_0_2) (fwhm *. self_c self).

(** [tau ** 2], of the [numpy] float or of the Python float. *)
Definition tau_sqr (duration_domain : string) (tau : F) : result F :=
  if String.eqb duration_domain "temporal" then Ok (fsqr tau)
  else py_sqr tau.

Definition generate_pulse (fwhm l_0 t_span : F) (n : option Z)
    (duration_domain : string) (self : calc F) : result (calc F) :=
  w_0 ← py_div (f2 *. fpi *. self_c self) l_0;
  let n := default (self_N self) n in
  dt ← py_div t_span (of_int n);
  t ← np_linspace (fneg t_span /. f2) (t_span /. f2) n;
  freq ← np_fftfreq n dt;
  let w := fftshift (map (fun x => f2 *. fpi *. x) freq) in
  let ph := f0 in
  tau ← pulse_tau self fwhm l_0 duration_domain;
  tau_2 ← tau_sqr duration_domain tau;
  let E_t :=
    map (fun x => of_real (np_exp (fneg (fsqr x) /. tau_2 +. ph))) t in
  spectrum ← fft E_t;
  let E_w := fftshift spectrum in
  Ok (Calc (self_materials_path self) (self_c self) (self_phase_thr self)
        t_span l_0 w_0 n dt t w E_t E_w E_t E_w (self_materials self)).

(** [__init__] without the reading of the materials directory. *)
Definition init (t_fwhm l_0 t_span : F) (catalogue : gmap string (F → F))
  : result (calc F) :=
  self ← init_fields l_0 t_span catalogue;
  generate_pulse t_fwhm l_0 t_span None "temporal" self.

(** The assignment of the two output arrays, [self.E_t_out = ...] and
    [self.E_w_out = ...]; the other attributes stay. *)
Definition set_output (E_t_out E_w_out : list (complex F)) (self : calc F)
  : calc F :=
  Calc (self_materials_path self) (self_c self) (self_phase_thr self)
    (self_t_span self) (self_l_0 self) (self_w_0 self) (self_N self)
    (self_dt self) (self_t self) (self_w self)
    (self_E_t self) (self_E_w self) E_t_out E_w_out (self_materials self).

(** The transfer function of a thickness of a material, one value per
    frequency sample, NaN replaced by 0. *)
Definition transfer (n_ip : F → F) (thickness : F) (self : calc F)
  : list (complex F) :=
  let w_abs := map (fun x => x +. self_w_0 self) (self_w self) in
  let k_w := map (fun v => v *. n_ip v /. self_c self) w_abs in
  let H_w :=
    map (fun k => np_cexp (cmul (cmul minus_j (of_real k)) (of_real thickness)))
        k_w in
  mask_set (map cisnan H_w) czero H_w.

Definition propagate_material (name : string) (thickness : F) (self : calc F)
  : result (calc F) :=
  match self_materials self !! name with
  | None => Ok self
  | Some n_ip =>
      let H_w := transfer n_ip thickness self in
      E_w_out ← broadcast cmul H_w (self_E_w_out self);
      E_t_out ← ifft (fftshift E_w_out);
      Ok (set_output E_t_out E_w_out self)
  end.

Definition reset_propagation (self : calc F) : calc F :=
  set_output (self_E_t self) (self_E_w self) self.

(** The state of the arrays after a pulse was generated: as many
    frequency samples as entries of the output spectrum, and at least
    one. *)
Definition generated (self : calc F) : Prop :=
  length (self_w self) = length (self_E_w_out self)
  ∧ self_E_w_out self ≠ [].

(** A sequence of [propagate_material] calls, in order. *)
Fixpoint propagate_all (calls : list (call F)) (self : calc F)
  : result (calc F) :=
  match calls with
  | [] => Ok self
  | (name, thickness) :: calls' =>
      self' ← propagate_material name thickness self;
      propagate_all calls' self'
  end.

Definition get_t (self : calc F) : list F := self_t self.
Definition get_w (self : calc F) : list F :=
  map (fun x => x +. self_w_0 self) (self_w self).

(** *** Intensities *)

(** The body shared by [get_temporal_intensity] and
    [get_spectral_intensity]: the field rolled towards the middle,
    squared magnitudes, divided by their maximum on request.  The shift
    is [(shape[0] / 2 - ind).astype(np.int)]: the float [n / 2 - ind],
    half of [n - 2 * ind], cut off towards zero.  [None] is Python's
    [None]. *)
Definition intensity (norm : bool) (E : list (complex F))
  : result (option (list F)) :=
  if negb (length E =? 0)%nat then
    ind ← np_argmax (map np_abs E);
    let shift := ((Z.of_nat (length E) - 2 * Z.of_nat ind) `quot` 2)%Z in
    let I := map (fun z => fsqr (np_abs z)) (np_roll E shift) in
    if norm then
      m ← np_max I;
      Ok (Some (map (fun x => x /. m) I))
    else Ok (Some I)
  else Ok None.

Definition get_temporal_intensity (norm : bool) (self : calc F) :=
  intensity norm (self_E_t_out self).
Definition get_spectral_intensity (norm : bool) (self : calc F) :=
  intensity norm (self_E_w_out self).

(** What the two intensity getters and the two output arrays show. *)
Definition observe (norm : bool) (self : calc F) :=
  (self_E_t_out self, self_E_w_out self,
   get_temporal_intensity norm self, get_spectral_intensity norm self).

(** *** Pulse duration *)

(** The width at half maximum of a trace [I] over the axis [x]. *)
Definition trace_fwhm (x I : list F) : result F :=
  let x_ind :=
    np_where (map truthy
      (np_diff (map (fun v => np_sign (v -. flit (1 # 2))) I))) in
  if (1 <? length x_ind)%nat then
    hi ← getitem x (List.last x_ind 0%nat);
    lo ← getitem x (List.hd 0%nat x_ind);
    Ok (hi -. lo)
  else Ok fnan.

Definition get_pulse_duration (domain : string) (self : calc F) : result F :=
  trace ← (if String.eqb domain "temporal"
           then get_temporal_intensity true self
           else get_spectral_intensity true self);
  let x := if String.eqb domain "temporal" then get_t self else get_w self in
  match trace with
  | None => Raise TypeError
  | Some trace => trace_fwhm x trace
  end.
End Calculator.

(** *** Phases *)

Section Unwrap.
Context {F : Type} `{Float64 F}.

(** [ph[from:] += v] and [ph[from:] -= v] *)
Definition slice_add (from : nat) (v : F) (ph : list F) : list F :=
  take from ph ++ map (fun x => x +. v) (drop from ph).
Definition slice_sub (from : nat) (v : F) (ph : list F) : list F :=
  take from ph ++ map (fun x => x -. v) (drop from ph).

(** The indices of the jumps: [np.where(np.abs(ph_diff) > 5.0)[0]]. *)
Definition jumps (ph_diff : list F) : list nat :=
  np_where (map (fun d => fgtb (fabs d) (flit 5)) ph_diff).

(** One round of the loop over the jumps.  [ph_diff[ind]] is in range:
    [ind] is an index of [ph_diff]. *)
Definition unwrap_step (ph_diff : list F) (ph : list F) (ind : nat) : list F :=
  if default f0 (ph_diff !! ind) <.? f0 then slice_add (ind + 1) (f2 *. fpi) ph
  else slice_sub (ind + 1) (f2 *. fpi) ph.

(** "Unravelling 2*pi phase jumps": the differences are taken once, from
    the angles as they come, and the loop then shifts the array in
    place. *)
Definition unwrap (ph : list F) : list F :=
  let ph_diff := np_diff ph in
  let ph_ind := jumps ph_diff in
  foldl (unwrap_step ph_diff) ph ph_ind.

(** [a[mask]] with the check numpy makes on the length of the mask. *)
Definition mask_index {A} (mask : list bool) (a : list A) : result (list A) :=
  if decide (length mask = length a) then Ok (mask_get mask a)
  else Raise IndexError.

(** [np.arange(n)], as the floats the fit sees. *)
Definition arange (n : nat) : list F :=
  map (fun i : nat => of_int (Z.of_nat i)) (seq 0 n).

(** Division of a complex number by a complex number, as numpy's loop
    computes it (Smith's method). *)
Definition cdiv (a b : complex F) : complex F :=
  let '(in1r, in1i) := a in
  let '(in2r, in2i) := b in
  let in2r_abs := fabs in2r in
  let in2i_abs := fabs in2i in
  if fleb in2i_abs in2r_abs then
    if (in2r_abs =.? f0) && (in2i_abs =.? f0) then
      (in1r /. in2r_abs, in1i /. in2r_abs)
    else
      let rat := in2i /. in2r in
      let scl := f1 /. (in2r +. in2i *. rat) in
      ((in1r +. in1i *. rat) *. scl, (in1i -. in1r *. rat) *. scl)
  else
    let rat := in2r /. in2i in
    let scl := f1 /. (in2i +. in2r *. rat) in
    ((in1r *. rat +. in1i) *. scl, (in1i *. rat -. in1r) *. scl).
End Unwrap.

(** The test [x is not None] on an attribute that holds an array: an array,
    empty or not, is not [None]. *)
Definition is_not_None {A} (a : list A) : bool := true.

Section Phase.
Context {F : Type} `{NumPy F} `{!PolyFit F}.

(** Samples whose magnitude is below the threshold lose their phase. *)
Definition mask_low (eps : F) (E : list (complex F)) (ph : list F) : list F :=
  mask_set (map (fun z => np_abs z <.? eps) E) fnan ph.

(** Removal of the linear part of the phase over the sample index. *)
Definition linear_compensation (ph : list F) : result (list F) :=
  let idx := map fisfinite ph in
  let x := arange (length ph) in
  x_good ← mask_index idx x;
  ph_good ← mask_index idx ph;
  ph_poly ← np_polyfit x_good ph_good 1;
  Ok (zip_with (fun p xv => p -. np_polyval ph_poly xv) ph x).

(** In [get_temporal_phase] the shift [shape[0] / 2 - ind] goes to
    [np.roll] as the float it is, [n - 2 * ind] halves. *)
Definition get_temporal_phase (linear_comp : bool) (self : calc F)
  : result (option (list F)) :=
  let eps := self_phase_thr self in
  let E_t_out := self_E_t_out self in
  if negb (length E_t_out =? 0)%nat then
    ind ← np_argmax (map np_abs E_t_out);
    let halves := (Z.of_nat (length E_t_out) - 2 * Z.of_nat ind)%Z in
    E_t ← np_roll_halves E_t_out halves;
    let ph0_ind := (length E_t `div` 2)%nat in
    let ph := unwrap (map np_angle E_t) in
    ph0 ← getitem ph ph0_ind;
    let ph := mask_low eps E_t ph in
    if linear_comp then
      ph_out ← linear_compensation ph;
      Ok (Some ph_out)
    else Ok (Some (map (fun p => p -. ph0) ph))
  else Ok None.

Definition get_spectral_phase (linear_comp : bool) (self : calc F)
  : result (option (list F)) :=
  let eps := self_phase_thr self in
  let E_t_out := self_E_t_out self in
  if is_not_None E_t_out then
    ind ← np_argmax (map np_abs E_t_out);
    let shift := (- Z.of_nat ind)%Z in
    let E_t := np_roll E_t_out shift in
    spectrum ← fft E_t;
    let Ew := fftshift spectrum in
    m ← np_max (map np_abs Ew);
    let Ew := map (fun z => cdiv z (of_real m)) Ew in
    ph0_ind ← np_argmax (map np_abs Ew);
    let ph := unwrap (map np_angle Ew) in
    let ph := mask_low eps Ew ph in
    ph_out ← (if linear_comp then linear_compensation ph else Ok ph);
    p0 ← getitem ph_out ph0_ind;
    Ok (Some (map (fun p => p -. p0) ph_out))
  else Ok None.

Definition get_spectral_phase_expansion (orders : nat) (prefix : F)
    (self : calc F) : result (option (list F)) :=
  if is_not_None (self_E_t_out self) then
    let w := get_w self in
    ph ← get_spectral_phase true self;
    match ph with
    | None => Raise TypeError
    | Some ph =>
        let ph_ind := map fisfinite ph in
        ph_good ← mask_index ph_ind ph;
        w_sel ← mask_index ph_ind w;
        let w_good := map (fun v => v /. prefix) w_sel in
        ph_poly ← np_polyfit w_good ph_good orders;
        Ok (Some ph_poly)
    end
  else Ok None.
End Phase.

(** ** The machine numbers *)

(** The binary64 numbers of the kernel.  A literal is the quotient of its
    numerator and denominator, which IEEE division rounds as a decimal
    parser does while both are integers below [2^53]. *)
Module IEEE.
Definition of_Z (z : Z) : float :=
  match z with
  | Z0 => PrimFloat.zero
  | Zpos _ => PrimFloat.of_uint63 (Uint63.of_Z z)
  | Zneg p => PrimFloat.opp (PrimFloat.of_uint63 (Uint63.of_Z (Zpos p)))
  end.

Definition of_Q (q : Q) : float :=
  PrimFloat.div (of_Z (Qnum q)) (of_Z (Zpos (Qden q))).

#[export] Instance float64 : Float64 float := {|
  fadd := PrimFloat.add;
  fsub := PrimFloat.sub;
  fmul := PrimFloat.mul;
  fdiv := PrimFloat.div;
  fneg := PrimFloat.opp;
  fabs := PrimFloat.abs;
  fsqrt := PrimFloat.sqrt;
  fltb := PrimFloat.ltb;
  feqb := PrimFloat.eqb;
  flit := of_Q;
  fpi := 0x1.921fb54442d18p+1%float;
  fnan := PrimFloat.nan;
  fisnan := PrimFloat.is_nan;
  fisfinite := PrimFloat.is_finite
|}.
End IEEE.


(** ** Ideal numbers *)

(** Real numbers with one undefined value, which every operation hands on:
    the arithmetic the formulas of the source are written for.  Nothing is
    rounded and nothing overflows; a division by zero, the root of a
    negative number and the logarithm of a number that is not positive are
    undefined.  The transforms are the discrete Fourier sums. *)
Module Ideal.
Local Open Scope R_scope.

Abbreviation num := (option R).

Definition lift1 (f : R → R) (a : num) : num :=
  match a with
  | Some x => Some (f x)
  | None => None
  end.

Definition lift2 (f : R → R → R) (a b : num) : num :=
  match a, b with
  | Some x, Some y => Some (f x y)
  | _, _ => None
  end.

Definition div (a b : num) : num :=
  match a, b with
  | Some x, Some y => if Req_dec_T y 0 then None else Some (x / y)
  | _, _ => None
  end.

Definition root (a : num) : num :=
  match a with
  | Some x => if Rlt_dec x 0 then None else Some (R_sqrt.sqrt x)
  | None => None
  end.

Definition ltb (a b : num) : bool :=
  match a, b with
  | Some x, Some y => if Rlt_dec x y then true else false
  | _, _ => false
  end.

Definition eqb (a b : num) : bool :=
  match a, b with
  | Some x, Some y => if Req_dec_T x y then true else false
  | _, _ => false
  end.

Definition of_Q (q : Q) : num := Some (IZR (Qnum q) / IZR (Zpos (Qden q))).

#[export] Instance float64 : Float64 num := {|
  fadd := lift2 Rplus;
  fsub := lift2 Rminus;
  fmul := lift2 Rmult;
  fdiv := div;
  fneg := lift1 Ropp;
  fabs := lift1 Rabs;
  fsqrt := root;
  fltb := ltb;
  feqb := eqb;
  flit := of_Q;
  fpi := Some PI;
  fnan := None;
  fisnan := fun a => match a with Some _ => false | None => true end;
  fisfinite := fun a => match a with Some _ => true | None => false end
|}.

Definition log (a : num) : num :=
  match a with
  | Some x => if Rlt_dec 0 x then Some (ln x) else None
  | None => None
  end.

Definition cexp (z : complex num) : complex num :=
  match z with
  | (Some x, Some y) => (Some (exp x * cos y), Some (exp x * sin y))
  | _ => (None, None)
  end.

Definition magnitude (z : complex num) : num :=
  lift2 (fun x y => R_sqrt.sqrt (x * x + y * y)) z.1 z.2.

(** The angle of the point [(x, y)], in [(-PI, PI]]. *)
Definition atan2 (y x : R) : R :=
  if Rlt_dec 0 x then atan (y / x)
  else if Rlt_dec x 0 then
    if Rlt_dec y 0 then atan (y / x) - PI else atan (y / x) + PI
  else if Rlt_dec 0 y then PI / 2
  else if Rlt_dec y 0 then - PI / 2
  else 0.

Definition angle (z : complex num) : num := lift2 atan2 z.2 z.1.

(** [cos θ + sgn * i * sin θ] for [θ = 2 * PI * m / n] *)
Definition twiddle (sgn : R) (m n : nat) : complex num :=
  (Some (cos (2 * PI * INR m / INR n)),
   Some (sgn * sin (2 * PI * INR m / INR n))).

Definition csum (l : list (complex num)) : complex num := foldr cadd czero l.

(** The discrete Fourier sum: entry [k] is the sum over [j] of
    [a[j] * exp (sgn * 2 * PI * i * j * k / n)]. *)
Definition dft (sgn : R) (a : list (complex num)) : list (complex num) :=
  let n := length a in
  map (fun k : nat =>
         csum (imap (fun j x => cmul x (twiddle sgn ((j * k) `mod` n) n)) a))
      (seq 0 n).

Definition idft (a : list (complex num)) : list (complex num) :=
  map (fun z => cdiv_real z (Some (INR (length a)))) (dft 1 a).

(** The grid of [np.linspace] in ideal arithmetic: [n] points from
    [start] to [stop], [(stop - start) / (n - 1)] apart. *)
Definition grid (start stop : R) (n : Z) : list num :=
  map (fun i : nat => Some (start + INR i * ((stop - start) / (IZR n - 1))))
      (seq 0 (Z.to_nat n)).

(** A point of the unit circle where the wavenumber and the thickness are
    defined, 0 elsewhere. *)
Definition unit_or_zero (k d : num) : complex num :=
  match k, d with
  | Some k, Some d => (Some (cos (k * d)), Some (- sin (k * d)))
  | _, _ => czero
  end.

(** An index sampled between two angular frequencies and undefined
    outside, as an interpolator with [fill_value=np.nan] is. *)
Definition band (lo hi : R) (index : R → R) (w : num) : num :=
  match w with
  | Some x =>
      if Rle_dec lo x then if Rle_dec x hi then Some (index x) else None
      else None
  | None => None
  end.

#[export] Instance numpy : NumPy num := {|
  np_exp := lift1 exp;
  np_log := log;
  np_cexp := cexp;
  np_abs := magnitude;
  np_angle := angle;
  np_fft := dft (-1);
  np_ifft := idft
|}.

(** A catalogue of two materials of constant index over the band of
    wavelengths from 200 nm to 2000 nm. *)
Definition c_light : R := 299792458.
Definition w_of (wavelength : R) : R := 2 * PI * c_light / wavelength.
Definition catalogue : gmap string (num → num) :=
  {[ "air"%string
       := band (w_of (2000 / 10 ^ 9)) (w_of (200 / 10 ^ 9)) (fun _ => 10003 / 10000);
     "fs"%string
       := band (w_of (2000 / 10 ^ 9)) (w_of (200 / 10 ^ 9)) (fun _ => 145 / 100) ]}.

(** An object with two samples, the first of them below the band of its
    one material. *)
Definition bench : calc num :=
  Calc "./materials" (Some c_light) (Some (1 / 100)) (Some 2) (Some 1)
    (Some 10) 2 (Some 1) [Some (- (1)); Some 1] [Some (- (1)); Some 1]
    [(Some 1, Some 0); (Some 2, Some 0)] [(Some 3, Some 0); (Some 1, Some 0)]
    [(Some 1, Some 0); (Some 2, Some 0)] [(Some 3, Some 0); (Some 1, Some 0)]
    {[ "glass"%string := band 10 12 (fun _ => 3 / 2) ]}.
End Ideal.

(** ** The analysis, sample by sample *)

(** The steps of the analysis as the specification words them, index by
    index, for comparison with the array code above. *)
Section Statements.
Context {F : Type} `{Float64 F}.

(** [a[i+1] - a[i]], the difference of the neighbours at [i]. *)
Definition diff_at (a : list F) (i : nat) : F :=
  match a !! i, a !! S i with
  | Some lo, Some hi => hi -. lo
  | _, _ => f0
  end.

(** The indices with a right neighbour, those of the differences. *)
Definition pair_indices (a : list F) : list nat := seq 0 (length a - 1).

(** The indices where the phase jumps by more than 5 radians. *)
Definition jump_indices (ph : list F) : list nat :=
  filter (fun i => fgtb (fabs (diff_at ph i)) (flit 5)) (pair_indices ph).

(** The correction for the jump at [i] of the phases [ph]: [2 * pi] more
    after a negative jump, [2 * pi] less after another one. *)
Definition correction (ph : list F) (p : F) (i : nat) : F :=
  if diff_at ph i <.? f0 then p +. f2 *. fpi else p -. f2 *. fpi.

(** Every sample corrected for each jump before it, the jumps being those
    of the phases as given. *)
Definition unwrapped (ph : list F) : list F :=
  imap (fun j p =>
          foldl (correction ph) p (filter (fun i => i < j)%nat (jump_indices ph)))
       ph.

(** The sign of a trace less one half. *)
Definition half_sign (trace : list F) : list F :=
  map (fun v => np_sign (v -. flit (1 # 2))) trace.

(** The indices where the trace less one half changes sign from one sample
    to the next: the difference of the two signs is not zero. *)
Definition crossings (trace : list F) : list nat :=
  filter (fun i => truthy (diff_at (half_sign trace) i)) (pair_indices trace).

(** The two neighbours at [i] lie on different sides of one half: the
    signs of the trace less one half are not equal. *)
Definition sign_differs (trace : list F) (i : nat) : bool :=
  match trace !! i, trace !! S i with
  | Some lo, Some hi =>
      negb (np_sign (hi -. flit (1 # 2)) =.? np_sign (lo -. flit (1 # 2)))
  | _, _ => false
  end.

(** The axis between the first and the last crossing, NaN with fewer than
    two of them. *)
Definition half_max_width (x trace : list F) : result F :=
  match crossings trace with
  | first :: second :: more =>
      hi ← getitem x (List.last more second);
      lo ← getitem x first;
      Ok (hi -. lo)
  | _ => Ok fnan
  end.
End Statements.

(** ** The transfer function, sample by sample *)

Section TransferAt.
Context {F : Type} `{NumPy F}.

(** The wavenumber at the sample [w]: [(w + w_0) * n(w + w_0) / c]. *)
Definition wavenumber (n_ip : F → F) (self : calc F) (w : F) : F :=
  (w +. self_w_0 self) *. n_ip (w +. self_w_0 self) /. self_c self.

(** [exp(-1j * k * thickness)] *)
Definition phase_factor (k thickness : F) : complex F :=
  np_cexp (cmul (cmul minus_j (of_real k)) (of_real thickness)).

(** The transfer function at the sample [w]: the phase factor of the
    wavenumber, and 0 where that is NaN. *)
Definition transfer_at (n_ip : F → F) (thickness : F) (self : calc F) (w : F)
  : complex F :=
  let h := phase_factor (wavenumber n_ip self w) thickness in
  if cisnan h then czero else h.
End TransferAt.

(** ** The shape of a generated pulse *)

Section Shape.
Context {F : Type} `{NumPy F}.

(** The arrays of an object have one length, and hold a sample: the time
    grid, the frequency grid and the two output fields. *)
Definition shaped (self : calc F) : Prop :=
  self_E_w_out self ≠ []
  ∧ length (self_t self) = length (self_E_w_out self)
  ∧ length (self_w self) = length (self_E_w_out self)
  ∧ length (self_E_t_out self) = length (self_E_w_out self).

(** The spectrum [get_spectral_phase] takes the phase of, its first
    lines: the transform of the field rolled to start at its peak,
    reordered, and divided by its largest magnitude. *)
Definition normalised_spectrum (E_t_out : list (complex F))
  : result (list (complex F)) :=
  ind ← np_argmax (map np_abs E_t_out);
  let shift := (- Z.of_nat ind)%Z in
  let E_t := np_roll E_t_out shift in
  spectrum ← fft E_t;
  let Ew := fftshift spectrum in
  m ← np_max (map np_abs Ew);
  Ok (map (fun z => cdiv z (of_real m)) Ew).
End Shape.

(** ** Materials *)

(** What [n_tmp] holds in [add_material]: the float it starts as, or the
    array it is once a term was added. *)
Inductive value (F : Type) : Type :=
  | Scalar (x : F)
  | Array (a : list F).
Arguments Scalar {F} x.
Arguments Array {F} a.

(** [interp1d(x, y, bounds_error=False, fill_value=np.nan,
    kind="quadratic")] of [scipy]: the interpolator, or the exception the
    constructor ends with. *)
Class Interp1d (F : Type) : Type := {
  interp1d : list F → value F → result (F → F)
}.

Section Materials.
Context {F : Type} `{Float64 F} `{!Interp1d F}.

(** [self.materials[name] = n_ip] *)
Definition set_material (name : string) (n_ip : F → F) (self : calc F)
  : calc F :=
  Calc (self_materials_path self) (self_c self) (self_phase_thr self)
    (self_t_span self) (self_l_0 self) (self_w_0 self) (self_N self)
    (self_dt self) (self_t self) (self_w self)
    (self_E_t self) (self_E_w self) (self_E_t_out self) (self_E_w_out self)
    (<[name := n_ip]> (self_materials self)).

(** [n_tmp += term] *)
Definition add_term (n_tmp : value F) (term : list F) : value F :=
  match n_tmp with
  | Scalar x => Array (map (fun v => x +. v) term)
  | Array a => Array (zip_with fadd a term)
  end.

(** The loop over [enumerate(b_coeff)], from the index [ind] on. *)
Fixpoint sellmeier_terms (l2_mat : list F) (ind : nat)
    (b_coeff c_coeff : list F) (n_tmp : value F) : result (value F) :=
  match b_coeff with
  | [] => Ok n_tmp
  | b :: b_coeff' =>
      c ← getitem c_coeff ind;
      sellmeier_terms l2_mat (S ind) b_coeff' c_coeff
        (add_term n_tmp (map (fun l2 => b *. l2 /. (l2 -. c)) l2_mat))
  end.

(** [np.sqrt(1 + n_tmp)] *)
Definition sellmeier_index (n_tmp : value F) : value F :=
  match n_tmp with
  | Scalar x => Scalar (fsqrt (f1 +. x))
  | Array a => Array (map (fun v => fsqrt (f1 +. v)) a)
  end.

(** [add_material]: the index of a Sellmeier material over 5000
    wavelengths from 200 nm to 2000 nm, interpolated over the angular
    frequency and stored under the name. *)
Definition add_material (name : string) (b_coeff c_coeff : list F)
    (self : calc F) : result (calc F) :=
  l_mat ← np_linspace (flit (200 # 1000000000)) (flit (2000 # 1000000000)) 5000;
  let w_mat := map (fun l => f2 *. fpi *. self_c self /. l) l_mat in
  let l2_mat := map (fun l => fsqr (l *. flit 1000000)) l_mat in
  n_tmp ← sellmeier_terms l2_mat 0 b_coeff c_coeff (Scalar f0);
  n_ip ← interp1d w_mat (sellmeier_index n_tmp);
  Ok (set_material name n_ip self).
End Materials.

(** ** Stand-ins *)

(** Objects and library calls for the runs of the properties, in ideal
    arithmetic. *)
Module Bench.
Import Ideal.
Local Open Scope R_scope.

(** A fit that refuses: the runs do not ask for one. *)
Definition no_fit : PolyFit num :=
  {| np_polyfit := fun _ _ _ => Raise ValueError |}.

(** An interpolator that is the first sample of an array everywhere, and
    refuses a scalar. *)
Definition first_sample : Interp1d num :=
  {| interp1d := fun _ y =>
       match y with
       | Array (v :: _) => Ok (fun _ => v)
       | _ => Raise ValueError
       end |}.

(** [bench] with a material whose band holds both of its samples. *)
Definition bench_window : calc num :=
  set_material "window" (band 0 20 (fun _ => 3 / 2)) bench.

(** [bench] before a pulse: the output fields are empty. *)
Definition bench_empty : calc num := set_output [] [] bench.

(** A fit that returns the zero polynomial of the degree asked for. *)
Definition flat_fit : PolyFit num :=
  {| np_polyfit := fun _ _ deg => Ok (replicate (S deg) (Some 0)) |}.

(** [bench] with three samples, the peak in the last of them. *)
Definition bench_late : calc num :=
  set_output [(Some 0, Some 0); (Some 0, Some 0); (Some 1, Some 0)]
    [(Some 0, Some 0); (Some 0, Some 0); (Some 1, Some 0)] bench.

(** [bench] with a sample of no magnitude ahead of the peak, which is the
    middle sample. *)
Definition bench_edge : calc num :=
  set_output [(Some 0, Some 0); (Some 1, Some 0)]
    [(Some 0, Some 0); (Some 1, Some 0)] bench.

(** [bench] with two equal samples: all of the spectrum is in one
    component. *)
Definition bench_flat : calc num :=
  set_output [(Some 1, Some 0); (Some 1, Some 0)]
    [(Some 0, Some 0); (Some 2, Some 0)] bench.
End Bench.

(** * Properties *)

(** ** The error monad *)

Lemma bind_Ok {A B} (m : result A) (k : A → result B) (b : B) :
  m ≫= k = Ok b ↔ ∃ a, m = Ok a ∧ k a = Ok b.
Proof.
  destruct m as [a|e]; simpl; split.
  - intros Hk. exists a. split; [reflexivity | exact Hk].
  - intros (a' & Ha & Hk). injection Ha as ->. exact Hk.
  - discriminate.
  - intros (a' & Ha & _). discriminate.
Qed.

(** Splits a hypothesis [m ≫= k = Ok b] into the two runs it stands for. *)
Ltac inv_bind H :=
  let a := fresh "a" in
  let Ha := fresh "Hrun" in
  apply bind_Ok in H; destruct H as (a & Ha & H).

(** ** Reset after propagation (C1) *)

Section Reset.
Context {F : Type} `{NumPy F}.

Lemma propagate_material_reference name thickness (self self' : calc F) :
  propagate_material name thickness self = Ok self' →
  self_E_t self' = self_E_t self ∧ self_E_w self' = self_E_w self.
Proof.
  unfold propagate_material.
  destruct (self_materials self !! name) as [n_ip|].
  - intros Hrun. inv_bind Hrun. inv_bind Hrun.
    injection Hrun as <-. split; reflexivity.
  - intros [= <-]. split; reflexivity.
Qed.

Lemma propagate_all_reference calls : ∀ self self' : calc F,
  propagate_all calls self = Ok self' →
  self_E_t self' = self_E_t self ∧ self_E_w self' = self_E_w self.
Proof.
  induction calls as [|[name thickness] calls IH]; intros self self'; simpl.
  - intros [= <-]. split; reflexivity.
  - intros Hrun. inv_bind Hrun.
    apply propagate_material_reference in Hrun0 as [Ht Hw].
    apply IH in Hrun as [Ht' Hw'].
    split; congruence.
Qed.

Lemma generate_pulse_output fwhm l_0 t_span n domain (self self0 : calc F) :
  generate_pulse fwhm l_0 t_span n domain self = Ok self0 →
  self_E_t_out self0 = self_E_t self0 ∧ self_E_w_out self0 = self_E_w self0.
Proof.
  unfold generate_pulse. intros Hrun.
  do 7 inv_bind Hrun.
  injection Hrun as <-. split; reflexivity.
Qed.

Lemma reset_propagation_output (self : calc F) :
  self_E_t_out (reset_propagation self) = self_E_t self
  ∧ self_E_w_out (reset_propagation self) = self_E_w self.
Proof. split; reflexivity. Qed.

(** C1.  After [generate_pulse] and any sequence of [propagate_material]
    calls, [reset_propagation] puts the reference fields saved at
    generation back into [E_t_out] and [E_w_out]: the two arrays, and so
    [get_temporal_intensity] and [get_spectral_intensity], are what they
    were right after generation. *)
Theorem reset_propagation_round_trip
    fwhm l_0 t_span n domain (calls : list (call F))
    (self self0 self1 : calc F) (norm : bool) :
  generate_pulse fwhm l_0 t_span n domain self = Ok self0 →
  propagate_all calls self0 = Ok self1 →
  self_E_t_out (reset_propagation self1) = self_E_t self0
  ∧ self_E_w_out (reset_propagation self1) = self_E_w self0
  ∧ observe norm (reset_propagation self1) = observe norm self0.
Proof.
  intros Hgen Hcalls.
  apply generate_pulse_output in Hgen as [Ht Hw].
  apply propagate_all_reference in Hcalls as [Ht' Hw'].
  destruct (reset_propagation_output self1) as [Hrt Hrw].
  assert (Hto : self_E_t_out (reset_propagation self1) = self_E_t_out self0)
    by congruence.
  assert (Hwo : self_E_w_out (reset_propagation self1) = self_E_w_out self0)
    by congruence.
  split; [congruence|]. split; [congruence|].
  unfold observe, get_temporal_intensity, get_spectral_intensity.
  rewrite Hto, Hwo. reflexivity.
Qed.
End Reset.

(** ** Unknown materials (C2) *)

Section UnknownMaterial.
Context {F : Type} `{NumPy F}.

(** The [KeyError] of the catalogue ends the call. *)
Lemma propagate_material_skips (name : string) (thickness : F) (self : calc F) :
  self_materials self !! name = None →
  propagate_material name thickness self = Ok self.
Proof.
  intros Hname. unfold propagate_material. rewrite Hname. reflexivity.
Qed.

(** C2.  For a name that is not in the catalogue and any thickness,
    [propagate_material] returns without an exception and leaves the
    object as it was: the state it returns is the state it was given, so
    [E_t_out] and [E_w_out] are unchanged. *)
Theorem propagate_unknown_material
    (name : string) (thickness : F) (self : calc F) :
  self_materials self !! name = None →
  ∃ self',
    propagate_material name thickness self = Ok self'
    ∧ self' = self
    ∧ self_E_t_out self' = self_E_t_out self
    ∧ self_E_w_out self' = self_E_w_out self.
Proof.
  intros Hname. exists self.
  split; [apply propagate_material_skips; exact Hname|].
  repeat split.
Qed.
End UnknownMaterial.

(** ** The selector of the width's domain (C10) *)

Section Selector.
Context {F : Type} `{NumPy F}.

Lemma eqb_temporal_false (domain : string) :
  domain ≠ "temporal" → String.eqb domain "temporal" = false.
Proof. intros Hne. apply String.eqb_neq. exact Hne. Qed.

(** C10.  Every [duration_domain] other than the string ['temporal']
    takes the branch written for ['spectral']: the time constant is
    [0.441 * l_0**2 / (fwhm * c)], and the call does exactly what it does
    for ['spectral'], so no value of the selector is rejected. *)
Theorem duration_domain_defaults_to_spectral
    (domain : string) (fwhm l_0 t_span : F) (n : option Z) (self : calc F) :
  domain ≠ "temporal" →
  pulse_tau self fwhm l_0 domain
    = (l_0_2 ← py_sqr l_0;
       py_div (flit (441 # 1000) *. l_0_2) (fwhm *. self_c self))
  ∧ generate_pulse fwhm l_0 t_span n domain self
    = generate_pulse fwhm l_0 t_span n "spectral" self.
Proof.
  intros Hne.
  assert (Htau : pulse_tau self fwhm l_0 domain
                 = (l_0_2 ← py_sqr l_0;
                    py_div (flit (441 # 1000) *. l_0_2) (fwhm *. self_c self))).
  { unfold pulse_tau. rewrite (eqb_temporal_false domain Hne). reflexivity. }
  split; [exact Htau|].
  unfold generate_pulse, tau_sqr.
  rewrite Htau, (eqb_temporal_false domain Hne). reflexivity.
Qed.
End Selector.

(** ** Analysis without a pulse (C6) *)

Section NoPulse.
Context {F : Type} `{NumPy F} `{!PolyFit F}.

Lemma intensity_empty (norm : bool) : intensity norm ([] : list (complex F)) = Ok None.
Proof. reflexivity. Qed.


Lemma get_spectral_intensity_empty (norm : bool) (self : calc F) :
  self_E_w_out self = [] → get_spectral_intensity norm self = Ok None.
Proof. unfold get_spectral_intensity. intros ->. reflexivity. Qed.

Lemma get_temporal_phase_empty (linear_comp : bool) (self : calc F) :
  self_E_t_out self = [] → get_temporal_phase linear_comp self = Ok None.
Proof. unfold get_temporal_phase. intros ->. reflexivity. Qed.




End NoPulse.

(** ** Arrays and their indices *)

Lemma filter_ext_in {A} (P Q : A → Prop)
    `{!∀ x, Decision (P x)} `{!∀ x, Decision (Q x)} (l : list A) :
  (∀ x, x ∈ l → P x ↔ Q x) → filter P l = filter Q l.
Proof.
  induction l as [|x l IH]; intros Hext; [reflexivity|].
  rewrite !filter_cons.
  rewrite IH by (intros y Hy; apply Hext; right; exact Hy).
  pose proof (Hext x (list_elem_of_here x l)) as Hx.
  destruct (decide (P x)) as [HP|HP], (decide (Q x)) as [HQ|HQ];
    try reflexivity; tauto.
Qed.

Section ArrayFacts.
Context {F : Type} `{Float64 F}.

Lemma where_from_filter (a : list bool) : ∀ k : nat,
  where_from k a
  = filter (fun i => default false (a !! (i - k)%nat)) (seq k (length a)).
Proof.
  induction a as [|b a IH]; intros k; simpl; [reflexivity|].
  rewrite IH, filter_cons, Nat.sub_diag. simpl.
  assert (Htail :
    filter (fun i => default false (a !! (i - S k)%nat)) (seq (S k) (length a))
    = filter (fun i => default false ((b :: a) !! (i - k)%nat)) (seq (S k) (length a))).
  { apply filter_ext_in. intros i Hi. apply elem_of_seq in Hi.
    replace (i - k)%nat with (S (i - S k)) by lia. reflexivity. }
  rewrite Htail. destruct b; simpl; reflexivity.
Qed.

Lemma np_diff_length (a : list F) : length (np_diff a) = (length a - 1)%nat.
Proof.
  unfold np_diff. rewrite length_zip_with, length_tl. lia.
Qed.

Lemma np_diff_lookup (a : list F) (i : nat) :
  (i < length a - 1)%nat → np_diff a !! i = Some (diff_at a i).
Proof.
  intros Hi. unfold np_diff, diff_at.
  rewrite lookup_zip_with, lookup_tail.
  destruct (lookup_lt_is_Some_2 a i ltac:(lia)) as [lo ->].
  destruct (lookup_lt_is_Some_2 a (S i) ltac:(lia)) as [hi ->].
  reflexivity.
Qed.

(** The indices [np.where] finds in a test of the differences are the
    indices whose pair of neighbours passes the test. *)
Lemma where_diff (P : F → bool) (a : list F) :
  np_where (map P (np_diff a))
  = filter (fun i => P (diff_at a i)) (pair_indices a).
Proof.
  unfold np_where, pair_indices.
  rewrite where_from_filter, length_map, np_diff_length.
  apply filter_ext_in. intros i Hi.
  apply elem_of_seq in Hi. rewrite Nat.sub_0_r, list_lookup_fmap.
  rewrite np_diff_lookup by lia. reflexivity.
Qed.
End ArrayFacts.

(** ** Unwrapping the phase (C8) *)

Section Unwrapping.
Context {F : Type} `{Float64 F}.

(** A slice update, sample by sample. *)
Lemma slice_map_lookup (g : F → F) (from : nat) (ph : list F) (j : nat) :
  (take from ph ++ map g (drop from ph)) !! j
  = (fun p => if decide (from ≤ j)%nat then g p else p) <$> ph !! j.
Proof.
  destruct (decide (j < length ph)%nat) as [Hj|Hj].
  - destruct (decide (from ≤ j)%nat) as [Hle|Hgt].
    + rewrite lookup_app_r by (rewrite length_take; lia).
      rewrite length_take, Nat.min_l by lia.
      rewrite list_lookup_fmap, lookup_drop.
      replace (from + (j - from))%nat with j by lia.
      destruct (ph !! j); reflexivity.
    + rewrite lookup_app_l by (rewrite length_take; lia).
      rewrite lookup_take_lt by lia.
      destruct (ph !! j); reflexivity.
  - rewrite (lookup_ge_None_2 ph j) by lia.
    apply lookup_ge_None_2.
    rewrite length_app, length_take, length_map, length_drop. lia.
Qed.

Lemma slice_add_imap (from : nat) (v : F) (ph : list F) :
  slice_add from v ph
  = imap (fun j p => if decide (from ≤ j)%nat then p +. v else p) ph.
Proof.
  apply list_eq. intros j. unfold slice_add.
  rewrite slice_map_lookup, list_lookup_imap. reflexivity.
Qed.

Lemma slice_sub_imap (from : nat) (v : F) (ph : list F) :
  slice_sub from v ph
  = imap (fun j p => if decide (from ≤ j)%nat then p -. v else p) ph.
Proof.
  apply list_eq. intros j. unfold slice_sub.
  rewrite slice_map_lookup, list_lookup_imap. reflexivity.
Qed.

(** One round of the loop corrects the samples after the jump. *)
Lemma unwrap_step_imap (ph0 ph : list F) (ind : nat) :
  (ind < length ph0 - 1)%nat →
  unwrap_step (np_diff ph0) ph ind
  = imap (fun j p => if decide (ind < j)%nat then correction ph0 p ind else p) ph.
Proof.
  intros Hind. unfold unwrap_step, correction.
  rewrite np_diff_lookup by exact Hind. simpl.
  destruct (diff_at ph0 ind <.? f0).
  - rewrite slice_add_imap. apply imap_ext. intros j p _.
    destruct (decide (ind + 1 ≤ j)%nat), (decide (ind < j)%nat);
      try reflexivity; lia.
  - rewrite slice_sub_imap. apply imap_ext. intros j p _.
    destruct (decide (ind + 1 ≤ j)%nat), (decide (ind < j)%nat);
      try reflexivity; lia.
Qed.

Lemma imap_imap {A B C} (g : nat → B → C) (f : nat → A → B) (l : list A) :
  imap g (imap f l) = imap (fun j x => g j (f j x)) l.
Proof.
  apply list_eq. intros j. rewrite !list_lookup_imap.
  destruct (l !! j); reflexivity.
Qed.

Lemma imap_id {A} (l : list A) : imap (fun _ x => x) l = l.
Proof.
  apply list_eq. intros j. rewrite list_lookup_imap.
  destruct (l !! j); reflexivity.
Qed.

(** The loop over any list of jumps: each sample takes the corrections
    of the jumps before it, in the order of the list. *)
Lemma unwrap_loop (ph0 : list F) (js : list nat) : ∀ ph : list F,
  Forall (fun ind => ind < length ph0 - 1)%nat js →
  foldl (unwrap_step (np_diff ph0)) ph js
  = imap (fun j p =>
            foldl (correction ph0) p (filter (fun i => i < j)%nat js)) ph.
Proof.
  induction js as [|ind js IH]; intros ph Hjs; simpl.
  - symmetry. apply imap_id.
  - apply Forall_cons in Hjs as [Hind Hjs].
    rewrite IH by exact Hjs.
    rewrite unwrap_step_imap by exact Hind.
    rewrite imap_imap. apply imap_ext. intros j p _.
    rewrite filter_cons.
    destruct (decide (ind < j)%nat); reflexivity.
Qed.

Lemma jumps_indices (ph : list F) : jumps (np_diff ph) = jump_indices ph.
Proof.
  unfold jumps, jump_indices.
  exact (where_diff (fun d => fgtb (fabs d) (flit 5)) ph).
Qed.

Lemma jump_indices_range (ph : list F) :
  Forall (fun ind => ind < length ph - 1)%nat (jump_indices ph).
Proof.
  apply Forall_forall. intros ind Hind.
  unfold jump_indices, pair_indices in Hind.
  apply list_elem_of_filter in Hind as [_ Hind].
  apply elem_of_seq in Hind. lia.
Qed.

(** C8.  The unwrapping step shared by [get_temporal_phase] and
    [get_spectral_phase]: the differences of neighbouring angles are taken
    from the angles as they come; at every index where the magnitude of
    the difference exceeds 5, all later samples get [2 * pi] added when
    the difference is negative and [2 * pi] subtracted otherwise (a
    difference beyond 5 that is not negative is positive). *)
Theorem unwrap_unwrapped (ph : list F) : unwrap ph = unwrapped ph.
Proof.
  unfold unwrap, unwrapped. cbv zeta.
  rewrite jumps_indices.
  apply unwrap_loop, jump_indices_range.
Qed.
End Unwrapping.

Section JumpSigns.
Context {F : Type} `{Float64 F} `{!Arithmetic F}.

(** At a jump the difference is negative or positive, and the correction
    has the opposite sign. *)
Lemma correction_opposes_jump (ph : list F) (p : F) (i : nat) :
  i ∈ jump_indices ph →
  (diff_at ph i <.? f0) = true ∧ correction ph p i = p +. f2 *. fpi
  ∨ (f0 <.? diff_at ph i) = true ∧ correction ph p i = p -. f2 *. fpi.
Proof.
  intros Hi. unfold jump_indices in Hi.
  apply list_elem_of_filter in Hi as [Hjump _].
  apply Is_true_true in Hjump. unfold correction.
  destruct (diff_at ph i <.? f0) eqn:Hneg.
  - left. split; reflexivity.
  - right. split; [|reflexivity]. apply positive_jump; assumption.
Qed.
End JumpSigns.

(** ** Pulse duration (C7) *)

Section Duration.
Context {F : Type} `{NumPy F}.

Lemma last_cons {A} (l : list A) (x d : A) :
  List.last (x :: l) d = List.last l x.
Proof.
  revert x d. induction l as [|y l IH]; intros x d; [reflexivity|].
  change (List.last (x :: y :: l) d) with (List.last (y :: l) d).
  rewrite (IH y d), (IH y x). reflexivity.
Qed.

Lemma half_crossings (trace : list F) :
  np_where (map truthy
    (np_diff (map (fun v => np_sign (v -. flit (1 # 2))) trace)))
  = crossings trace.
Proof.
  rewrite where_diff. unfold crossings, pair_indices, half_sign.
  rewrite length_map. reflexivity.
Qed.

Lemma trace_fwhm_width (x trace : list F) :
  trace_fwhm x trace = half_max_width x trace.
Proof.
  unfold trace_fwhm, half_max_width. cbv zeta.
  rewrite half_crossings.
  destruct (crossings trace) as [|first [|second more]]; try reflexivity.
  change (1 <? length (first :: second :: more))%nat with true. cbv iota.
  rewrite !last_cons. reflexivity.
Qed.

(** C7.  [get_pulse_duration] takes the normalised intensity of the chosen
    domain, finds the indices where the intensity less one half changes
    sign between a sample and the next, and returns the axis value at the
    last crossing less the one at the first; with fewer than two crossings
    it returns NaN. *)
Theorem get_pulse_duration_width (domain : string) (self : calc F) :
  get_pulse_duration domain self
  = (trace ← (if String.eqb domain "temporal"
               then get_temporal_intensity true self
               else get_spectral_intensity true self);
     match trace with
     | None => Raise TypeError
     | Some trace =>
         half_max_width
           (if String.eqb domain "temporal" then get_t self else get_w self)
           trace
     end).
Proof.
  unfold get_pulse_duration.
  destruct (if String.eqb domain "temporal"
            then get_temporal_intensity true self
            else get_spectral_intensity true self) as [[trace|]|e];
    simpl; try reflexivity.
  apply trace_fwhm_width.
Qed.
End Duration.

Section CrossingSigns.
Context {F : Type} `{Float64 F} `{!Arithmetic F}.

(** The crossings are the indices where the sign of the trace less one
    half is not the sign at the next sample. *)
Lemma crossings_sign_differs (trace : list F) :
  crossings trace = filter (fun i => sign_differs trace i) (pair_indices trace).
Proof.
  unfold crossings. apply filter_ext_in. intros i Hi.
  unfold pair_indices in Hi. apply elem_of_seq in Hi.
  unfold diff_at, sign_differs, half_sign. rewrite !list_lookup_fmap.
  destruct (lookup_lt_is_Some_2 trace i ltac:(lia)) as [lo ->].
  destruct (lookup_lt_is_Some_2 trace (S i) ltac:(lia)) as [hi ->].
  cbn [fmap option_fmap option_map]. rewrite sign_change. reflexivity.
Qed.
End CrossingSigns.

(** ** Propagation through a known material *)

Section Propagation.
Context {F : Type} `{NumPy F}.

Lemma mask_set_map {A} (P : A → bool) (v : A) (l : list A) :
  mask_set (map P l) v l = map (fun x => if P x then v else x) l.
Proof.
  unfold mask_set. induction l as [|x l IH]; simpl; [reflexivity|].
  f_equal. exact IH.
Qed.

Lemma transfer_map (n_ip : F → F) (thickness : F) (self : calc F) :
  transfer n_ip thickness self
  = map (transfer_at n_ip thickness self) (self_w self).
Proof.
  unfold transfer. cbv zeta. rewrite mask_set_map, !map_map. reflexivity.
Qed.

Lemma transfer_set_output n_ip thickness T E (self : calc F) :
  transfer n_ip thickness (set_output T E self) = transfer n_ip thickness self.
Proof. reflexivity. Qed.

Lemma np_roll_length {A} (a : list A) (shift : Z) :
  length (np_roll a shift) = length a.
Proof.
  unfold np_roll. cbv zeta.
  rewrite length_app, length_drop, length_take. lia.
Qed.

Lemma fftshift_length {A} (a : list A) : length (fftshift a) = length a.
Proof. apply np_roll_length. Qed.

Lemma fftshift_nil {A} (a : list A) : fftshift a = [] ↔ a = [].
Proof.
  split; intros Ha.
  - apply nil_length_inv. rewrite <- (fftshift_length a), Ha. reflexivity.
  - rewrite Ha. reflexivity.
Qed.

Lemma ifft_shift_Raise (E : list (complex F)) (e : exn) :
  ifft (fftshift E) = Raise e → e = ValueError ∧ E = [].
Proof.
  unfold ifft. destruct (fftshift E) eqn:Hshift; [|discriminate].
  intros [= <-]. split; [reflexivity|]. apply fftshift_nil. exact Hshift.
Qed.

Lemma propagate_known (name : string) (n_ip : F → F) (thickness : F)
    (self : calc F) :
  self_materials self !! name = Some n_ip →
  propagate_material name thickness self
  = (E_w_out ← broadcast cmul (transfer n_ip thickness self) (self_E_w_out self);
     E_t_out ← ifft (fftshift E_w_out);
     Ok (set_output E_t_out E_w_out self)).
Proof. intros Hname. unfold propagate_material. rewrite Hname. reflexivity. Qed.

Lemma zip_with_map_twice {A W} (f : A → A → A) (g1 g2 g12 : W → A)
    (ws : list W) : ∀ E : list A,
  (∀ w e, f (g2 w) (f (g1 w) e) = f (g12 w) e) →
  zip_with f (map g2 ws) (zip_with f (map g1 ws) E) = zip_with f (map g12 ws) E.
Proof.
  induction ws as [|w ws IH]; intros [|e E] Hf; simpl; try reflexivity.
  rewrite Hf, IH by exact Hf. reflexivity.
Qed.

Lemma zip_with_map_scalar {A W} (f : A → A → A) (g1 g2 g12 : W → A)
    (ws : list W) (e : A) :
  (∀ w e, f (g2 w) (f (g1 w) e) = f (g12 w) e) →
  zip_with f (map g2 ws) (map (fun x => f x e) (map g1 ws))
  = map (fun x => f x e) (map g12 ws).
Proof.
  intros Hf. induction ws as [|w ws IH]; simpl; [reflexivity|].
  rewrite Hf, IH. reflexivity.
Qed.

(** Two elementwise products by arrays over the same samples are one
    product, where the factors combine sample by sample. *)
Lemma broadcast_map_twice {A W} (f : A → A → A) (g1 g2 g12 : W → A)
    (ws : list W) (E : list A) :
  (∀ w e, f (g2 w) (f (g1 w) e) = f (g12 w) e) →
  broadcast f (map g1 ws) E ≫= broadcast f (map g2 ws)
  = broadcast f (map g12 ws) E.
Proof.
  intros Hf.
  destruct ws as [|w1 [|w2 ws]].
  - destruct E as [|e1 [|e2 E]]; reflexivity.
  - simpl. f_equal. rewrite map_map. apply map_ext. intros e. apply Hf.
  - destruct E as [|e1 [|e2 E]].
    + reflexivity.
    + cbn [map broadcast]. cbn [mbind result_bind].
      cbn [map broadcast].
      rewrite decide_True by (cbn [length]; rewrite !length_map; reflexivity).
      f_equal. cbn [zip_with]. rewrite !Hf. do 2 f_equal.
      apply (zip_with_map_scalar f g1 g2 g12 ws e1 Hf).
    + cbn [map broadcast].
      destruct (decide (length (g1 w1 :: g1 w2 :: map g1 ws)
                        = length (e1 :: e2 :: E))) as [Hlen|Hlen].
      * cbn [mbind result_bind zip_with broadcast].
        rewrite decide_True
          by (cbn [length] in *; rewrite length_zip_with, !length_map in *; lia).
        rewrite decide_True by (cbn [length] in *; rewrite !length_map in *; lia).
        f_equal. cbn [zip_with]. rewrite !Hf. do 2 f_equal.
        apply zip_with_map_twice. exact Hf.
      * rewrite decide_False
          by (cbn [length] in *; rewrite !length_map in *; lia).
        reflexivity.
Qed.

Lemma broadcast_empty_field {A} (f : A → A → A) (a : list A) (E : list A) :
  broadcast f a [] = Ok E → E = [].
Proof.
  destruct a as [|x [|y a]]; simpl.
  - intros [= <-]. reflexivity.
  - intros [= <-]. reflexivity.
  - discriminate.
Qed.

(** Two calls for one material are one call, where the transfer functions
    multiply sample by sample. *)
Lemma propagate_twice (name : string) (n_ip : F → F) (d1 d2 d12 : F)
    (self : calc F) :
  self_materials self !! name = Some n_ip →
  (∀ w e, cmul (transfer_at n_ip d2 self w) (cmul (transfer_at n_ip d1 self w) e)
          = cmul (transfer_at n_ip d12 self w) e) →
  propagate_material name d1 self ≫= propagate_material name d2
  = propagate_material name d12 self.
Proof.
  intros Hname Hmul.
  rewrite !(propagate_known name n_ip) by exact Hname.
  rewrite !transfer_map.
  pose proof (broadcast_map_twice cmul _ _ _ (self_w self) (self_E_w_out self) Hmul)
    as Htwice.
  destruct (broadcast cmul (map (transfer_at n_ip d1 self) (self_w self))
              (self_E_w_out self)) as [E1|e] eqn:Hfirst.
  - cbn [mbind result_bind] in Htwice; cbn [mbind result_bind].
    destruct (ifft (fftshift E1)) as [T1|e] eqn:Hifft.
    + cbn [mbind result_bind].
      rewrite (propagate_known name n_ip) by exact Hname.
      rewrite transfer_set_output, transfer_map. cbn [set_output self_E_w_out self_w].
      rewrite Htwice. reflexivity.
    + apply ifft_shift_Raise in Hifft as [-> ->].
      cbn [mbind result_bind]. rewrite <- Htwice.
      destruct (broadcast cmul (map (transfer_at n_ip d2 self) (self_w self)) [])
        as [E2|e] eqn:Hsecond.
      * apply broadcast_empty_field in Hsecond as ->. reflexivity.
      * destruct (self_w self) as [|w1 [|w2 ws]]; simpl in Hsecond;
          try discriminate.
        injection Hsecond as <-. reflexivity.
  - cbn [mbind result_bind] in Htwice; cbn [mbind result_bind]. rewrite <- Htwice. reflexivity.
Qed.
End Propagation.

(** ** Calls that return *)

Section Totality.
Context {F : Type} `{NumPy F}.

(** Arrays of one length multiply entry by entry. *)
Lemma broadcast_same_length {A} (f : A → A → A) (a b : list A) :
  length a = length b → broadcast f a b = Ok (zip_with f a b).
Proof.
  intros Hlen. destruct a as [|x [|y a]], b as [|u [|v b]];
    try discriminate; try reflexivity.
  unfold broadcast. rewrite decide_True by exact Hlen. reflexivity.
Qed.

Lemma propagate_generated (name : string) (n_ip : F → F) (thickness : F)
    (self : calc F) :
  generated self →
  self_materials self !! name = Some n_ip →
  ∃ E_t_out,
    propagate_material name thickness self
    = Ok (set_output E_t_out
            (zip_with cmul (transfer n_ip thickness self) (self_E_w_out self))
            self)
    ∧ ifft (fftshift (zip_with cmul (transfer n_ip thickness self)
                        (self_E_w_out self))) = Ok E_t_out.
Proof.
  intros [Hlen Hne] Hname.
  rewrite (propagate_known name n_ip) by exact Hname.
  assert (Hshape : length (transfer n_ip thickness self)
                   = length (self_E_w_out self)).
  { rewrite transfer_map, length_map. exact Hlen. }
  rewrite broadcast_same_length by exact Hshape.
  cbn [mbind result_bind].
  set (E := zip_with cmul (transfer n_ip thickness self) (self_E_w_out self)).
  assert (HE : length (fftshift E) = length (self_E_w_out self)).
  { rewrite fftshift_length. unfold E. rewrite length_zip_with. lia. }
  unfold ifft. destruct (fftshift E) as [|z E'] eqn:HshiftE.
  - exfalso. apply Hne. apply nil_length_inv. rewrite <- HE. reflexivity.
  - eexists. split; reflexivity.
Qed.

(** A call on a generated state returns, and the state stays generated. *)
Lemma propagate_material_total (name : string) (thickness : F) (self : calc F) :
  generated self →
  ∃ self', propagate_material name thickness self = Ok self' ∧ generated self'.
Proof.
  intros Hgen.
  destruct (self_materials self !! name) as [n_ip|] eqn:Hname.
  - destruct (propagate_generated name n_ip thickness self Hgen Hname)
      as (E_t_out & Hrun & _).
    eexists. split; [exact Hrun|].
    destruct Hgen as [Hlen Hne]. unfold generated. cbn [set_output self_w self_E_w_out].
    assert (Hshape : length (zip_with cmul (transfer n_ip thickness self)
                               (self_E_w_out self))
                     = length (self_E_w_out self)).
    { rewrite length_zip_with, transfer_map, length_map. lia. }
    split; [congruence|].
    intros Hnil. rewrite Hnil in Hshape. apply Hne.
    apply nil_length_inv. rewrite <- Hshape. reflexivity.
  - exists self. split; [|exact Hgen].
    apply propagate_material_skips. exact Hname.
Qed.

Lemma propagate_all_total (calls : list (call F)) : ∀ self : calc F,
  generated self →
  ∃ self', propagate_all calls self = Ok self' ∧ generated self'.
Proof.
  induction calls as [|[name thickness] calls IH]; intros self Hgen.
  - exists self. split; [reflexivity | exact Hgen].
  - destruct (propagate_material_total name thickness self Hgen)
      as (self1 & Hrun & Hgen1).
    destruct (IH self1 Hgen1) as (self2 & Hrest & Hgen2).
    exists self2. split; [|exact Hgen2].
    simpl. rewrite Hrun. exact Hrest.
Qed.
End Totality.

(** ** Generation *)

Section Generation.
Context {F : Type} `{NumPy F}.

Lemma np_linspace_length (start stop : F) (num : Z) (t : list F) :
  np_linspace start stop num = Ok t → (0 ≤ num)%Z ∧ length t = Z.to_nat num.
Proof.
  unfold np_linspace. destruct (num <? 0)%Z eqn:Hneg; [discriminate|].
  apply Z.ltb_ge in Hneg. intros [= <-]. split; [exact Hneg|].
  destruct (1 <? num)%Z.
  - rewrite length_insert, length_map.
    destruct (_ =.? _); rewrite !length_map, length_seq; reflexivity.
  - rewrite !length_map, length_seq. reflexivity.
Qed.

Lemma np_linspace_Ok (start stop : F) (num : Z) :
  (0 ≤ num)%Z → ∃ t, np_linspace start stop num = Ok t.
Proof.
  intros Hnum. unfold np_linspace.
  rewrite (proj2 (Z.ltb_ge num 0) Hnum). eexists. reflexivity.
Qed.

Lemma fftfreq_ints_length (n : Z) :
  (1 ≤ n)%Z → length (fftfreq_ints n) = Z.to_nat n.
Proof.
  intros Hn. unfold fftfreq_ints. rewrite length_app, !length_seqZ.
  Z.to_euclidean_division_equations. lia.
Qed.

Lemma np_fftfreq_length (n : Z) (d : F) (freq : list F) :
  (1 ≤ n)%Z → np_fftfreq n d = Ok freq → length freq = Z.to_nat n.
Proof.
  intros Hn. unfold np_fftfreq. intros Hrun. inv_bind Hrun.
  injection Hrun as <-. rewrite length_map. apply fftfreq_ints_length, Hn.
Qed.

(** What a call of [generate_pulse] that returns has computed. *)
Lemma generate_pulse_Ok fwhm l_0 t_span n domain (self self0 : calc F) :
  generate_pulse fwhm l_0 t_span n domain self = Ok self0 →
  let n' := default (self_N self) n in
  ∃ w_0 dt t freq tau tau_2 spectrum,
    py_div (f2 *. fpi *. self_c self) l_0 = Ok w_0
    ∧ py_div t_span (of_int n') = Ok dt
    ∧ np_linspace (fneg t_span /. f2) (t_span /. f2) n' = Ok t
    ∧ np_fftfreq n' dt = Ok freq
    ∧ (pulse_tau self fwhm l_0 domain = Ok tau
       ∧ tau_sqr domain tau = Ok tau_2)
    ∧ fft (map (fun x => of_real (np_exp (fneg (fsqr x) /. tau_2 +. f0))) t)
      = Ok spectrum
    ∧ self0 = Calc (self_materials_path self) (self_c self) (self_phase_thr self)
                t_span l_0 w_0 n' dt t
                (fftshift (map (fun x => f2 *. fpi *. x) freq))
                (map (fun x => of_real (np_exp (fneg (fsqr x) /. tau_2 +. f0))) t)
                (fftshift spectrum)
                (map (fun x => of_real (np_exp (fneg (fsqr x) /. tau_2 +. f0))) t)
                (fftshift spectrum)
                (self_materials self).
Proof.
  unfold generate_pulse. intros Hrun. do 7 inv_bind Hrun.
  injection Hrun as <-. cbv zeta.
  eexists _, _, _, _, _, _, _.
  repeat (split; [first [eassumption | split; eassumption]|]). reflexivity.
Qed.

(** The grid and the step a generated pulse stores. *)
Lemma generate_pulse_grid fwhm l_0 t_span n domain (self self0 : calc F) :
  generate_pulse fwhm l_0 t_span n domain self = Ok self0 →
  np_linspace (fneg t_span /. f2) (t_span /. f2) (default (self_N self) n)
  = Ok (self_t self0)
  ∧ py_div t_span (of_int (default (self_N self) n)) = Ok (self_dt self0)
  ∧ self_N self0 = default (self_N self) n.
Proof.
  intros Hrun. apply generate_pulse_Ok in Hrun.
  destruct Hrun as (w_0 & dt & t & freq & tau & tau_2 & spectrum
                    & _ & Hdt & Ht & _ & _ & _ & ->).
  repeat split; assumption.
Qed.

(** The attributes [generate_pulse] does not assign. *)
Lemma generate_pulse_keeps fwhm l_0 t_span n domain (self self0 : calc F) :
  generate_pulse fwhm l_0 t_span n domain self = Ok self0 →
  self_c self0 = self_c self
  ∧ self_phase_thr self0 = self_phase_thr self
  ∧ self_materials self0 = self_materials self.
Proof.
  intros Hrun. apply generate_pulse_Ok in Hrun.
  destruct Hrun as (w_0 & dt & t & freq & tau & tau_2 & spectrum
                    & _ & _ & _ & _ & _ & _ & ->).
  repeat split.
Qed.

(** The steps that can raise having returned, with one sample at least,
    the call returns. *)
Lemma generate_pulse_runs fwhm l_0 t_span n domain (self : calc F)
    (w_0 dt tau tau_2 : F) (freq : list F) :
  let n' := default (self_N self) n in
  (1 ≤ n')%Z →
  py_div (f2 *. fpi *. self_c self) l_0 = Ok w_0 →
  py_div t_span (of_int n') = Ok dt →
  np_fftfreq n' dt = Ok freq →
  pulse_tau self fwhm l_0 domain = Ok tau →
  tau_sqr domain tau = Ok tau_2 →
  ∃ self0, generate_pulse fwhm l_0 t_span n domain self = Ok self0.
Proof.
  intros n' Hn Hw0 Hdt Hfreq Htau Htau2. unfold generate_pulse. fold n'.
  rewrite Hw0, Hdt. cbn [mbind result_bind].
  destruct (np_linspace_Ok (fneg t_span /. f2) (t_span /. f2) n' ltac:(lia))
    as [t Ht].
  rewrite Ht, Hfreq, Htau. cbn [mbind result_bind].
  rewrite Htau2. cbn [mbind result_bind].
  apply np_linspace_length in Ht as [_ Hlen].
  destruct t as [|t0 t]; [simpl in Hlen; lia|].
  cbn [map fft mbind result_bind]. eexists. reflexivity.
Qed.

Lemma fft_Ok (a spectrum : list (complex F)) :
  fft a = Ok spectrum → a ≠ [] ∧ spectrum = np_fft a.
Proof.
  unfold fft. destruct a; [discriminate|]. intros [= <-].
  split; [discriminate | reflexivity].
Qed.

Lemma generate_pulse_generated `{!Shapes F} fwhm l_0 t_span n domain
    (self self0 : calc F) :
  generate_pulse fwhm l_0 t_span n domain self = Ok self0 → generated self0.
Proof.
  intros Hrun. apply generate_pulse_Ok in Hrun.
  destruct Hrun as (w_0 & dt & t & freq & tau & tau_2 & spectrum
                    & _ & _ & Ht & Hfreq & _ & Hfft & ->).
  apply np_linspace_length in Ht as [Hn Hlen].
  apply fft_Ok in Hfft as [Hne ->].
  assert (Ht0 : t ≠ []) by (intros ->; apply Hne; reflexivity).
  assert (Hpos : (1 ≤ default (self_N self) n)%Z).
  { destruct t; [congruence|]. simpl in Hlen. lia. }
  apply (np_fftfreq_length _ _ _ Hpos) in Hfreq.
  unfold generated. cbn [self_w self_E_w_out].
  rewrite !fftshift_length, np_fft_length, !length_map.
  split; [congruence|].
  intros Hnil. apply (f_equal length) in Hnil.
  rewrite fftshift_length, np_fft_length, length_map in Hnil.
  destruct t; [congruence | discriminate].
Qed.
End Generation.

(** ** Samples outside the band of a material (C3) *)

Section OutOfBand.
Context {F : Type} `{NumPy F} `{!Undefined F}.

Lemma wavenumber_nan (n_ip : F → F) (self : calc F) (w : F) :
  fisnan (n_ip (w +. self_w_0 self)) = true →
  fisnan (wavenumber n_ip self w) = true.
Proof.
  intros Hnan. unfold wavenumber.
  apply fdiv_nan_l, fmul_nan_r. exact Hnan.
Qed.

Lemma phase_factor_nan (k thickness : F) :
  fisnan k = true → cisnan (phase_factor k thickness) = true.
Proof.
  intros Hnan. unfold phase_factor. apply np_cexp_nan.
  unfold cmul, minus_j, of_real. cbn [fst snd].
  apply fsub_nan_l, fmul_nan_l, fsub_nan_l, fmul_nan_r. exact Hnan.
Qed.

Lemma transfer_at_nan (n_ip : F → F) (thickness : F) (self : calc F) (w : F) :
  fisnan (n_ip (w +. self_w_0 self)) = true →
  transfer_at n_ip thickness self w = czero.
Proof.
  intros Hnan. unfold transfer_at. cbv zeta.
  rewrite phase_factor_nan by (apply wavenumber_nan; exact Hnan).
  reflexivity.
Qed.

Lemma czero_not_nan : cisnan (czero : complex F) = false.
Proof.
  unfold cisnan, czero. cbn [fst snd].
  rewrite (zero_not_nan f0 zero_is_zero). reflexivity.
Qed.

(** The transfer function holds no NaN. *)
Lemma transfer_not_nan (n_ip : F → F) (thickness : F) (self : calc F) :
  Forall (fun h => cisnan h = false) (transfer n_ip thickness self).
Proof.
  rewrite transfer_map. apply Forall_fmap, Forall_forall. intros w _.
  unfold compose, transfer_at. cbv zeta.
  destruct (cisnan (phase_factor _ _)) eqn:Hh;
    [apply czero_not_nan | exact Hh].
Qed.

(** Zero times a finite number is zero, and not NaN. *)
Lemma cmul_czero_finite (e : complex F) :
  cisfinite e = true →
  ceq0 (cmul czero e) = true ∧ cisnan (cmul czero e) = false.
Proof.
  unfold cisfinite. intros [Hre Him]%andb_true_iff.
  assert (Hr : (f0 *. e.1 -. f0 *. e.2 =.? f0) = true)
    by (apply fsub_zeros; apply fmul_0_finite; assumption).
  assert (Hi : (f0 *. e.2 +. f0 *. e.1 =.? f0) = true)
    by (apply fadd_zeros; apply fmul_0_finite; assumption).
  unfold ceq0, cisnan, cmul, czero. cbn [fst snd].
  rewrite Hr, Hi, (zero_not_nan _ Hr), (zero_not_nan _ Hi).
  split; reflexivity.
Qed.

(** The sample itself, in any arithmetic with the NaN laws of
    [Undefined].  On a generated pulse and a known material, a frequency
    sample whose index lookup is NaN has the transfer function exactly 0,
    and the transfer function holds no NaN at any sample; the call
    returns, and the new spectral component at the sample is 0 times the
    old one: a zero, and no NaN, where the old component is finite. *)
Theorem undefined_index_zeroes_component
    (name : string) (n_ip : F → F) (thickness : F) (self : calc F)
    (i : nat) (w : F) (e : complex F) :
  generated self →
  self_materials self !! name = Some n_ip →
  self_w self !! i = Some w →
  fisnan (n_ip (w +. self_w_0 self)) = true →
  self_E_w_out self !! i = Some e →
  cisfinite e = true →
  transfer n_ip thickness self !! i = Some czero
  ∧ Forall (fun h => cisnan h = false) (transfer n_ip thickness self)
  ∧ ∃ self',
      propagate_material name thickness self = Ok self'
      ∧ self_E_w_out self' !! i = Some (cmul czero e)
      ∧ ceq0 (cmul czero e) = true
      ∧ cisnan (cmul czero e) = false
      ∧ ifft (fftshift (self_E_w_out self')) = Ok (self_E_t_out self').
Proof.
  intros Hgen Hname Hw Hnan He Hfin.
  assert (Hzero : transfer n_ip thickness self !! i = Some czero).
  { rewrite transfer_map, list_lookup_fmap, Hw. cbn [fmap option_fmap option_map].
    rewrite transfer_at_nan by exact Hnan. reflexivity. }
  split; [exact Hzero|]. split; [apply transfer_not_nan|].
  destruct (propagate_generated name n_ip thickness self Hgen Hname)
    as (E_t_out & Hrun & Hifft).
  eexists. split; [exact Hrun|].
  cbn [set_output self_E_w_out self_E_t_out].
  destruct (cmul_czero_finite e Hfin) as [Heq0 Hnot].
  repeat split; try assumption.
  rewrite lookup_zip_with, Hzero, He. reflexivity.
Qed.

(** Whatever the old component is, the new one at such a sample is 0
    times it. *)
Lemma undefined_index_component
    (name : string) (n_ip : F → F) (thickness : F) (self self' : calc F)
    (i : nat) (w : F) :
  generated self →
  self_materials self !! name = Some n_ip →
  self_w self !! i = Some w →
  fisnan (n_ip (w +. self_w_0 self)) = true →
  propagate_material name thickness self = Ok self' →
  self_E_w_out self' !! i = cmul czero <$> self_E_w_out self !! i.
Proof.
  intros Hgen Hname Hw Hnan Hrun.
  destruct (propagate_generated name n_ip thickness self Hgen Hname)
    as (E_t_out & Hrun' & _).
  rewrite Hrun' in Hrun. injection Hrun as <-.
  cbn [set_output self_E_w_out].
  rewrite lookup_zip_with, transfer_map, list_lookup_fmap, Hw.
  cbn [fmap option_fmap option_map mbind option_bind].
  rewrite transfer_at_nan by exact Hnan.
  destruct (self_E_w_out self !! i); reflexivity.
Qed.
End OutOfBand.

(** ** The output arrays as a transform pair (C5) *)

Section TransformPair.
Context {F : Type} `{NumPy F}.

(** After a call for a known material, [E_t_out] is the inverse transform
    of the reordered [E_w_out]: it is computed from it. *)
Lemma propagate_material_pair (name : string) (n_ip : F → F) (thickness : F)
    (self self' : calc F) :
  self_materials self !! name = Some n_ip →
  propagate_material name thickness self = Ok self' →
  ifft (fftshift (self_E_w_out self')) = Ok (self_E_t_out self').
Proof.
  intros Hname. rewrite (propagate_known name n_ip) by exact Hname.
  intros Hrun. inv_bind Hrun. inv_bind Hrun. injection Hrun as <-.
  exact Hrun1.
Qed.

(** After [generate_pulse], [E_w_out] is the reordered transform of
    [E_t_out]. *)
Lemma generate_pulse_pair fwhm l_0 t_span n domain (self self0 : calc F) :
  generate_pulse fwhm l_0 t_span n domain self = Ok self0 →
  self_E_t_out self0 ≠ []
  ∧ self_E_w_out self0 = fftshift (np_fft (self_E_t_out self0)).
Proof.
  intros Hrun. apply generate_pulse_Ok in Hrun.
  destruct Hrun as (w_0 & dt & t & freq & tau & tau_2 & spectrum
                    & _ & _ & _ & _ & _ & Hfft & ->).
  apply fft_Ok in Hfft as [Hne ->]. split; [exact Hne | reflexivity].
Qed.
Lemma fftshift_halves {A} (a : list A) (m : nat) :
  length a = (2 * m)%nat → fftshift a = drop m a ++ take m a.
Proof.
  intros Hlen. unfold fftshift, np_roll. cbv zeta. rewrite Hlen.
  destruct (decide (m = 0)%nat) as [->|Hpos].
  { destruct a; [reflexivity | discriminate]. }
  assert (Hk : Z.to_nat ((Z.of_nat (2 * m) `div` 2) `mod` Z.of_nat (2 * m)) = m).
  { replace (Z.of_nat (2 * m)) with (Z.of_nat m * 2)%Z by lia.
    rewrite Z.div_mul by lia. rewrite Z.mod_small by lia. lia. }
  rewrite Hk. replace (2 * m - m)%nat with m by lia. reflexivity.
Qed.

(** Reordering twice gives the array back when its length is even. *)
Lemma fftshift_twice_even {A} (a : list A) :
  Nat.Even (length a) → fftshift (fftshift a) = a.
Proof.
  intros [m Hm].
  rewrite (fftshift_halves (fftshift a) m) by (rewrite fftshift_length; exact Hm).
  rewrite (fftshift_halves a m) by exact Hm.
  assert (Hdrop : length (drop m a) = m) by (rewrite length_drop; lia).
  rewrite <- Hdrop at 1. rewrite drop_app_length.
  rewrite <- Hdrop at 2. rewrite take_app_length.
  apply take_drop.
Qed.

(** With an even number of samples, the arrays of a generated pulse are
    a transform pair as far as the inverse transform undoes the
    transform. *)
Lemma generate_pulse_pair_even `{!Shapes F} fwhm l_0 t_span n domain
    (self self0 : calc F) :
  generate_pulse fwhm l_0 t_span n domain self = Ok self0 →
  Nat.Even (length (self_E_t_out self0)) →
  np_ifft (np_fft (self_E_t_out self0)) = self_E_t_out self0 →
  ifft (fftshift (self_E_w_out self0)) = Ok (self_E_t_out self0).
Proof.
  intros Hgen Heven Hinv.
  apply generate_pulse_pair in Hgen as [Hne Hw]. rewrite Hw.
  rewrite fftshift_twice_even by (rewrite np_fft_length; exact Heven).
  unfold ifft. destruct (np_fft (self_E_t_out self0)) as [|z zs] eqn:Hfft.
  - exfalso. apply Hne. apply nil_length_inv.
    rewrite <- (np_fft_length (self_E_t_out self0)), Hfft. reflexivity.
  - rewrite Hinv. reflexivity.
Qed.
End TransformPair.

(** ** The shapes of the arrays *)

Section ShapeFacts.
Context {F : Type} `{NumPy F}.

Lemma shaped_generated (self : calc F) : shaped self → generated self.
Proof. intros (Hne & _ & Hw & _). split; assumption. Qed.

Lemma generate_pulse_lengths `{!Shapes F} fwhm l_0 t_span n domain
    (self self0 : calc F) :
  generate_pulse fwhm l_0 t_span n domain self = Ok self0 →
  (1 ≤ default (self_N self) n)%Z
  ∧ self_N self0 = default (self_N self) n
  ∧ length (self_t self0) = Z.to_nat (default (self_N self) n)
  ∧ length (self_w self0) = Z.to_nat (default (self_N self) n)
  ∧ length (self_E_t self0) = Z.to_nat (default (self_N self) n)
  ∧ length (self_E_w self0) = Z.to_nat (default (self_N self) n)
  ∧ length (self_E_t_out self0) = Z.to_nat (default (self_N self) n)
  ∧ length (self_E_w_out self0) = Z.to_nat (default (self_N self) n).
Proof.
  intros Hrun. apply generate_pulse_Ok in Hrun.
  destruct Hrun as (w_0 & dt & t & freq & tau & tau_2 & spectrum
                    & _ & _ & Ht & Hfreq & _ & Hfft & ->).
  apply np_linspace_length in Ht as [Hn Hlen].
  apply fft_Ok in Hfft as [Hne ->].
  assert (Hpos : (1 ≤ default (self_N self) n)%Z).
  { destruct t as [|t0 t]; [exfalso; apply Hne; reflexivity|].
    simpl in Hlen. lia. }
  apply (np_fftfreq_length _ _ _ Hpos) in Hfreq.
  cbn [self_N self_t self_w self_E_t self_E_w self_E_t_out self_E_w_out].
  rewrite !fftshift_length, np_fft_length, !length_map.
  repeat split; assumption.
Qed.

Lemma generate_pulse_shaped `{!Shapes F} fwhm l_0 t_span n domain
    (self self0 : calc F) :
  generate_pulse fwhm l_0 t_span n domain self = Ok self0 → shaped self0.
Proof.
  intros Hrun.
  destruct (generate_pulse_lengths _ _ _ _ _ _ _ Hrun)
    as (Hpos & _ & Ht & Hw & _ & _ & HT & HE).
  unfold shaped. rewrite Ht, Hw, HT, HE. repeat split.
  intros Hnil. rewrite Hnil in HE. simpl in HE. lia.
Qed.

(** A call changes the two output arrays at most. *)
Lemma propagate_material_frame (name : string) (thickness : F)
    (self self' : calc F) :
  propagate_material name thickness self = Ok self' →
  self' = set_output (self_E_t_out self') (self_E_w_out self') self.
Proof.
  unfold propagate_material.
  destruct (self_materials self !! name) as [n_ip|].
  - intros Hrun. inv_bind Hrun. inv_bind Hrun.
    injection Hrun as <-. reflexivity.
  - intros [= <-]. destruct self. reflexivity.
Qed.

Lemma set_output_twice T E T' E' (self : calc F) :
  set_output T' E' (set_output T E self) = set_output T' E' self.
Proof. reflexivity. Qed.

Lemma propagate_all_frame_eq (calls : list (call F)) : ∀ self self' : calc F,
  propagate_all calls self = Ok self' →
  self' = set_output (self_E_t_out self') (self_E_w_out self') self.
Proof.
  induction calls as [|[name thickness] calls IH]; intros self self'; simpl.
  - intros [= <-]. destruct self. reflexivity.
  - intros Hrun. inv_bind Hrun.
    apply propagate_material_frame in Hrun0. apply IH in Hrun.
    rewrite Hrun, Hrun0 at 1. reflexivity.
Qed.

Lemma propagate_material_shaped `{!Shapes F} (name : string) (thickness : F)
    (self : calc F) :
  shaped self →
  ∃ self', propagate_material name thickness self = Ok self'
           ∧ shaped self'
           ∧ length (self_E_w_out self') = length (self_E_w_out self).
Proof.
  intros (Hne & Ht & Hw & HT).
  destruct (self_materials self !! name) as [n_ip|] eqn:Hname.
  - destruct (propagate_generated name n_ip thickness self
                (conj Hw Hne) Hname) as (E_t_out & Hrun & Hifft).
    eexists. split; [exact Hrun|].
    assert (Hshape : length (zip_with cmul (transfer n_ip thickness self)
                               (self_E_w_out self))
                     = length (self_E_w_out self)).
    { rewrite length_zip_with, transfer_map, length_map. lia. }
    assert (HT' : length E_t_out = length (self_E_w_out self)).
    { unfold ifft in Hifft.
      destruct (fftshift _) as [|z zs] eqn:Hshift; [discriminate|].
      injection Hifft as <-.
      rewrite np_ifft_length, <- Hshift, fftshift_length. exact Hshape. }
    unfold shaped.
    cbn [set_output self_t self_w self_E_t_out self_E_w_out].
    rewrite Hshape. repeat split; try assumption.
    intros Hnil. rewrite Hnil in Hshape. apply Hne.
    apply nil_length_inv. rewrite <- Hshape. reflexivity.
  - exists self. split; [apply propagate_material_skips; exact Hname|].
    split; [|reflexivity]. repeat split; assumption.
Qed.

Lemma propagate_all_shaped `{!Shapes F} (calls : list (call F)) :
  ∀ self : calc F,
  shaped self →
  ∃ self', propagate_all calls self = Ok self'
           ∧ shaped self'
           ∧ length (self_E_w_out self') = length (self_E_w_out self).
Proof.
  induction calls as [|[name thickness] calls IH]; intros self Hshaped.
  - exists self. repeat split; try apply Hshaped. 
  - destruct (propagate_material_shaped name thickness self Hshaped)
      as (self1 & Hrun & Hshaped1 & Hlen1).
    destruct (IH self1 Hshaped1) as (self2 & Hrest & Hshaped2 & Hlen2).
    exists self2. split; [simpl; rewrite Hrun; exact Hrest|].
    split; [exact Hshaped2 | congruence].
Qed.
End ShapeFacts.

Section RollFacts.
Context {A : Type}.

Lemma np_roll_map {B} (f : A → B) (a : list A) (shift : Z) :
  np_roll (map f a) shift = map f (np_roll a shift).
Proof.
  unfold np_roll. cbv zeta.
  rewrite length_map, map_app. change (@map) with (@fmap list list_fmap).
  rewrite fmap_drop, fmap_take. reflexivity.
Qed.

Lemma fftshift_map {B} (f : A → B) (a : list A) :
  fftshift (map f a) = map f (fftshift a).
Proof. unfold fftshift. rewrite length_map. apply np_roll_map. Qed.

(** The element at [i] is at [(i + shift) mod n] after the roll. *)
Lemma np_roll_lookup (a : list A) (shift : Z) (i : nat) :
  (i < length a)%nat →
  np_roll a shift
    !! Z.to_nat ((Z.of_nat i + shift) `mod` Z.of_nat (length a))
  = a !! i.
Proof.
  intros Hi. unfold np_roll. cbv zeta.
  revert Hi. set (n := length a). intros Hi.
  assert (Hn : (0 < Z.of_nat n)%Z) by lia.
  pose proof (Z.mod_pos_bound shift (Z.of_nat n) Hn) as Hk.
  set (k := Z.to_nat (shift `mod` Z.of_nat n)).
  assert (Hk' : Z.of_nat k = (shift `mod` Z.of_nat n)%Z) by (unfold k; lia).
  rewrite <- Z.add_mod_idemp_r, <- Hk' by lia.
  destruct (decide (i + k < n)%nat) as [Hlt|Hge].
  - rewrite Z.mod_small by lia.
    rewrite lookup_app_r by (rewrite length_drop; fold n; lia).
    rewrite length_drop. fold n.
    rewrite lookup_take_lt by lia. f_equal. lia.
  - assert (Hmod : ((Z.of_nat i + Z.of_nat k) `mod` Z.of_nat n
                    = Z.of_nat i + Z.of_nat k - Z.of_nat n)%Z)
      by (symmetry; apply (Z.mod_unique_pos _ _ 1); lia).
    rewrite Hmod.
    rewrite lookup_app_l by (rewrite length_drop; fold n; lia).
    rewrite lookup_drop. f_equal. lia.
Qed.
End RollFacts.

Section FrequencyFacts.
Context {F : Type} `{NumPy F}.

(** The integers of [np.fft.fftfreq], reordered, ascend from [-(n // 2)]. *)
Lemma fftshift_fftfreq_ints (n : Z) :
  (1 ≤ n)%Z → fftshift (fftfreq_ints n) = seqZ (- (n `div` 2)) n.
Proof.
  intros Hn. unfold fftshift, np_roll. cbv zeta.
  rewrite fftfreq_ints_length by exact Hn.
  rewrite Z2Nat.id by lia.
  rewrite Z.mod_small by (Z.to_euclidean_division_equations; lia).
  set (m := ((n - 1) `div` 2 + 1)%Z).
  assert (Hm : (m = n - n `div` 2)%Z)
    by (unfold m; Z.to_euclidean_division_equations; lia).
  assert (Hhalf : (0 ≤ n `div` 2)%Z) by (Z.to_euclidean_division_equations; lia).
  replace (Z.to_nat n - Z.to_nat (n `div` 2))%nat with (Z.to_nat m) by lia.
  unfold fftfreq_ints. fold m.
  assert (Hlen : length (seqZ 0 m) = Z.to_nat m) by apply length_seqZ.
  rewrite <- Hlen at 1. rewrite drop_app_length.
  rewrite <- Hlen at 1. rewrite take_app_length.
  replace (seqZ (- n `div` 2) n) with (seqZ (- (n `div` 2)) (n `div` 2 + m)).
  2:{ f_equal. rewrite Hm. lia. }
  assert (Hm0 : (0 ≤ m)%Z)
    by (unfold m; Z.to_euclidean_division_equations; lia).
  rewrite seqZ_app by lia. do 2 f_equal. lia.
Qed.

Lemma np_fftfreq_Ok (n : Z) (d : F) (freq : list F) :
  np_fftfreq n d = Ok freq →
  ∃ val, py_div f1 (of_int n *. d) = Ok val
         ∧ freq = map (fun k => of_int k *. val) (fftfreq_ints n).
Proof.
  unfold np_fftfreq. intros Hrun. inv_bind Hrun. injection Hrun as <-.
  eexists. split; [exact Hrun0 | reflexivity].
Qed.

Lemma generate_pulse_w fwhm l_0 t_span n domain (self self0 : calc F) :
  generate_pulse fwhm l_0 t_span n domain self = Ok self0 →
  ∃ val,
    py_div f1 (of_int (self_N self0) *. self_dt self0) = Ok val
    ∧ self_w self0
      = map (fun k => f2 *. fpi *. (of_int k *. val))
            (seqZ (- (self_N self0 `div` 2)) (self_N self0)).
Proof.
  intros Hrun. apply generate_pulse_Ok in Hrun.
  destruct Hrun as (w_0 & dt & t & freq & tau & tau_2 & spectrum
                    & _ & _ & Ht & Hfreq & _ & Hfft & ->).
  apply np_linspace_length in Ht as [Hn Hlen].
  apply fft_Ok in Hfft as [Hne _].
  assert (Hpos : (1 ≤ default (self_N self) n)%Z).
  { destruct t as [|t0 t]; [exfalso; apply Hne; reflexivity|].
    simpl in Hlen. lia. }
  apply np_fftfreq_Ok in Hfreq as (val & Hval & ->).
  cbn [self_N self_dt self_w].
  exists val. split; [exact Hval|].
  rewrite map_map, fftshift_map, fftshift_fftfreq_ints by exact Hpos.
  reflexivity.
Qed.
End FrequencyFacts.

(** ** Generated pulses and their propagation *)

Section PulseTheorems.
Context {F : Type} `{NumPy F}.

(** X1.  A call of [generate_pulse] that returns has generated one sample
    at least, has stored the number of samples in [N], and has given all
    six arrays that many entries; the output fields are the reference
    fields. *)
Theorem generate_pulse_shapes `{!Shapes F} fwhm l_0 t_span n domain
    (self self0 : calc F) :
  generate_pulse fwhm l_0 t_span n domain self = Ok self0 →
  (1 ≤ default (self_N self) n)%Z
  ∧ self_N self0 = default (self_N self) n
  ∧ length (self_t self0) = Z.to_nat (default (self_N self) n)
  ∧ length (self_w self0) = Z.to_nat (default (self_N self) n)
  ∧ length (self_E_t self0) = Z.to_nat (default (self_N self) n)
  ∧ length (self_E_w self0) = Z.to_nat (default (self_N self) n)
  ∧ self_E_t_out self0 = self_E_t self0
  ∧ self_E_w_out self0 = self_E_w self0.
Proof.
  intros Hrun.
  destruct (generate_pulse_lengths _ _ _ _ _ _ _ Hrun)
    as (Hpos & HN & Ht & Hw & HT & HE & _ & _).
  destruct (generate_pulse_output _ _ _ _ _ _ _ Hrun) as [HTo HEo].
  repeat split; assumption.
Qed.

(** X2.  The angular frequencies a generated pulse stores are the
    integers from [-(N // 2)] up, [N] of them, each times
    [1.0 / (N * dt)] and then times [2 * pi]: the grid ascends and is
    centred, whatever the arithmetic rounds. *)
Theorem generate_pulse_frequencies fwhm l_0 t_span n domain
    (self self0 : calc F) :
  generate_pulse fwhm l_0 t_span n domain self = Ok self0 →
  ∃ val : F,
    py_div f1 (of_int (self_N self0) *. self_dt self0) = Ok val
    ∧ self_w self0
      = map (fun k => f2 *. fpi *. (of_int k *. val))
            (seqZ (- (self_N self0 `div` 2)) (self_N self0))
    ∧ get_w self0
      = map (fun k => f2 *. fpi *. (of_int k *. val) +. self_w_0 self0)
            (seqZ (- (self_N self0 `div` 2)) (self_N self0)).
Proof.
  intros Hrun. destruct (generate_pulse_w _ _ _ _ _ _ _ Hrun) as (val & Hval & Hw).
  exists val. split; [exact Hval|]. split; [exact Hw|].
  unfold get_w. rewrite Hw, map_map. reflexivity.
Qed.

(** X7.  Whatever the calls, [propagate_material] assigns the two output
    arrays only: the object after a sequence of calls is the object before
    it with [E_t_out] and [E_w_out] replaced.  The grids, the reference
    fields, the pulse parameters and the catalogue stay. *)
Theorem propagate_all_frame (calls : list (call F)) (self self' : calc F) :
  propagate_all calls self = Ok self' →
  self' = set_output (self_E_t_out self') (self_E_w_out self') self
  ∧ self_t self' = self_t self
  ∧ self_w self' = self_w self
  ∧ self_E_t self' = self_E_t self
  ∧ self_E_w self' = self_E_w self
  ∧ self_l_0 self' = self_l_0 self
  ∧ self_w_0 self' = self_w_0 self
  ∧ self_t_span self' = self_t_span self
  ∧ self_N self' = self_N self
  ∧ self_dt self' = self_dt self
  ∧ self_c self' = self_c self
  ∧ self_phase_thr self' = self_phase_thr self
  ∧ self_materials self' = self_materials self.
Proof.
  intros Hcalls.
  pose proof (propagate_all_frame_eq calls self self' Hcalls) as Hframe.
  split; [exact Hframe|].
  rewrite Hframe. repeat split.
Qed.

(** X8.  After [generate_pulse] no sequence of [propagate_material] calls
    raises, known material or not, and the output arrays keep their
    number of samples. *)
Theorem propagate_all_returns `{!Shapes F} fwhm l_0 t_span n domain
    (calls : list (call F)) (self self0 : calc F) :
  generate_pulse fwhm l_0 t_span n domain self = Ok self0 →
  ∃ self1 : calc F,
    propagate_all calls self0 = Ok self1
    ∧ length (self_E_w_out self1) = Z.to_nat (self_N self0)
    ∧ length (self_E_t_out self1) = Z.to_nat (self_N self0).
Proof.
  intros Hrun.
  destruct (generate_pulse_lengths _ _ _ _ _ _ _ Hrun)
    as (_ & HN & _ & _ & _ & _ & _ & HE).
  destruct (propagate_all_shaped calls self0 (generate_pulse_shaped _ _ _ _ _ _ _ Hrun))
    as (self1 & Hcalls & (_ & _ & _ & HT1) & HE1).
  exists self1. split; [exact Hcalls|]. rewrite HN. split; congruence.
Qed.

(** X5.  [generate_pulse] starts over: what it does after any sequence of
    [propagate_material] calls, or after [reset_propagation], is what it
    does before them. *)
Theorem generate_pulse_starts_over fwhm l_0 t_span n domain
    (calls : list (call F)) (self self1 : calc F) :
  propagate_all calls self = Ok self1 →
  generate_pulse fwhm l_0 t_span n domain self1
  = generate_pulse fwhm l_0 t_span n domain self
  ∧ generate_pulse fwhm l_0 t_span n domain (reset_propagation self)
    = generate_pulse fwhm l_0 t_span n domain self.
Proof.
  intros Hcalls. split; [|reflexivity].
  rewrite (propagate_all_frame_eq calls self self1 Hcalls). reflexivity.
Qed.

(** X6.  An object [__init__] has built holds a generated pulse of 8192
    samples: the grids and the output fields have 8192 entries, the
    output fields are the reference fields, and the wavelength, the span
    and the catalogue are the ones given.  (The catalogue is taken as
    built; the reading of the materials directory is not modelled.) *)
Theorem init_generates `{!Shapes F} (t_fwhm l_0 t_span : F)
    (catalogue : gmap string (F → F)) (self : calc F) :
  init t_fwhm l_0 t_span catalogue = Ok self →
  self_N self = 8192%Z
  ∧ length (self_t self) = Z.to_nat 8192
  ∧ length (self_w self) = Z.to_nat 8192
  ∧ length (self_E_t_out self) = Z.to_nat 8192
  ∧ length (self_E_w_out self) = Z.to_nat 8192
  ∧ self_E_t_out self = self_E_t self
  ∧ self_E_w_out self = self_E_w self
  ∧ self_l_0 self = l_0
  ∧ self_t_span self = t_span
  ∧ self_materials self = catalogue.
Proof.
  unfold init.
  destruct (init_fields l_0 t_span catalogue) as [pre|e] eqn:Hinit;
    [|discriminate].
  cbn [mbind result_bind]. intros Hrun.
  assert (Hpre : self_N pre = 8192%Z ∧ self_materials pre = catalogue).
  { unfold init_fields in Hinit. do 4 inv_bind Hinit.
    injection Hinit as <-. split; reflexivity. }
  destruct Hpre as [HN0 Hcat].
  destruct (generate_pulse_lengths _ _ _ _ _ _ _ Hrun)
    as (_ & HN & Ht & Hw & _ & _ & HT & HE).
  destruct (generate_pulse_output _ _ _ _ _ _ _ Hrun) as [HTo HEo].
  destruct (generate_pulse_keeps _ _ _ _ _ _ _ Hrun) as (_ & _ & Hmat).
  change (default (self_N pre) None) with (self_N pre) in HN, Ht, Hw, HT, HE.
  rewrite HN0 in HN, Ht, Hw, HT, HE.
  apply generate_pulse_Ok in Hrun.
  destruct Hrun as (w_0 & dt & t & freq & tau & tau_2 & spectrum
                    & _ & _ & _ & _ & _ & _ & Heq).
  repeat split; try assumption; try congruence.
  - rewrite Heq. reflexivity.
  - rewrite Heq. reflexivity.
Qed.
End PulseTheorems.

Section TwoMaterials.
Context {F : Type} `{NumPy F}.

Lemma propagate_material_materials (name : string) (thickness : F)
    (self self' : calc F) :
  propagate_material name thickness self = Ok self' →
  self_materials self' = self_materials self.
Proof.
  intros Hrun. apply propagate_material_frame in Hrun. rewrite Hrun.
  reflexivity.
Qed.

(** Two calls for two materials are one elementwise product, where the
    transfer functions combine sample by sample. *)
Lemma propagate_two (name1 name2 : string) (n1 n2 : F → F) (d1 d2 : F)
    (g12 : F → complex F) (self : calc F) :
  self_materials self !! name1 = Some n1 →
  self_materials self !! name2 = Some n2 →
  (∀ w e, cmul (transfer_at n2 d2 self w) (cmul (transfer_at n1 d1 self w) e)
          = cmul (g12 w) e) →
  propagate_material name1 d1 self ≫= propagate_material name2 d2
  = (E_w_out ← broadcast cmul (map g12 (self_w self)) (self_E_w_out self);
     E_t_out ← ifft (fftshift E_w_out);
     Ok (set_output E_t_out E_w_out self)).
Proof.
  intros Hname1 Hname2 Hmul.
  rewrite (propagate_known name1 n1) by exact Hname1.
  rewrite !transfer_map.
  pose proof (broadcast_map_twice cmul _ _ _ (self_w self) (self_E_w_out self) Hmul)
    as Htwice.
  destruct (broadcast cmul (map (transfer_at n1 d1 self) (self_w self))
              (self_E_w_out self)) as [E1|e] eqn:Hfirst.
  - cbn [mbind result_bind] in Htwice; cbn [mbind result_bind].
    destruct (ifft (fftshift E1)) as [T1|e] eqn:Hifft.
    + cbn [mbind result_bind].
      rewrite (propagate_known name2 n2) by exact Hname2.
      rewrite transfer_set_output, transfer_map.
      cbn [set_output self_E_w_out self_w].
      rewrite Htwice. reflexivity.
    + apply ifft_shift_Raise in Hifft as [-> ->].
      cbn [mbind result_bind]. rewrite <- Htwice.
      destruct (broadcast cmul (map (transfer_at n2 d2 self) (self_w self)) [])
        as [E2|e] eqn:Hsecond.
      * apply broadcast_empty_field in Hsecond as ->. reflexivity.
      * destruct (self_w self) as [|w1 [|w2 ws]]; simpl in Hsecond;
          try discriminate.
        injection Hsecond as <-. reflexivity.
  - cbn [mbind result_bind] in Htwice; cbn [mbind result_bind].
    rewrite <- Htwice. reflexivity.
Qed.

(** A call for a name the catalogue lacks changes nothing before or after
    another call. *)
Lemma propagate_skip_commutes (name1 name2 : string) (d1 d2 : F)
    (self : calc F) :
  self_materials self !! name1 = None →
  propagate_material name1 d1 self ≫= propagate_material name2 d2
  = propagate_material name2 d2 self ≫= propagate_material name1 d1.
Proof.
  intros Hname1. rewrite (propagate_material_skips name1) by exact Hname1.
  cbn [mbind result_bind].
  destruct (propagate_material name2 d2 self) as [self'|e] eqn:Hrun;
    [|reflexivity].
  cbn [mbind result_bind]. symmetry. apply propagate_material_skips.
  rewrite (propagate_material_materials _ _ _ _ Hrun). exact Hname1.
Qed.
End TwoMaterials.

(** ** Intensities and the pulse duration *)

Section IntensityFacts.
Context {F : Type} `{NumPy F}.

Lemma argmax_from_bound (a : list F) : ∀ (best : F) (ibest i : nat),
  (ibest < i)%nat → (argmax_from best ibest i a < i + length a)%nat.
Proof.
  induction a as [|x a IH]; intros best ibest i Hi; simpl; [lia|].
  destruct (fleb x best).
  - specialize (IH best ibest (S i) ltac:(lia)). lia.
  - destruct (fisnan x); [lia|].
    specialize (IH x i (S i) ltac:(lia)). lia.
Qed.

Lemma np_argmax_Ok (a : list F) :
  a ≠ [] → ∃ ind, np_argmax a = Ok ind ∧ (ind < length a)%nat.
Proof.
  destruct a as [|x a]; [congruence|]. intros _. simpl.
  eexists. split; [reflexivity|].
  destruct (fisnan x); [lia|].
  pose proof (argmax_from_bound a x 0 1 ltac:(lia)). lia.
Qed.

Lemma np_max_Ok (a : list F) : a ≠ [] → ∃ m, np_max a = Ok m.
Proof. destruct a as [|x a]; [congruence|]. intros _. eexists. reflexivity. Qed.

(** The truncated half of [n - 2 * ind]: [n // 2 - ind] up to the
    middle, and one more past the middle of an odd length. *)
Lemma truncated_shift (n ind : nat) :
  (Z.of_nat ind + (Z.of_nat n - 2 * Z.of_nat ind) `quot` 2)%Z
  = Z.of_nat (if (n <? 2 * ind)%nat then ((n + 1) `div` 2)%nat
              else (n `div` 2)%nat).
Proof.
  destruct (Nat.ltb_spec n (2 * ind)) as [Hlt|Hge].
  - replace (Z.of_nat n - 2 * Z.of_nat ind)%Z
      with (- (2 * Z.of_nat ind - Z.of_nat n))%Z by lia.
    rewrite Z.quot_opp_l by lia.
    rewrite Z.quot_div_nonneg by lia.
    rewrite Nat2Z.inj_div. change (Z.of_nat 2) with 2%Z.
    rewrite Nat2Z.inj_add. change (Z.of_nat 1) with 1%Z.
    Z.to_euclidean_division_equations. lia.
  - rewrite Z.quot_div_nonneg by lia.
    rewrite Nat2Z.inj_div. change (Z.of_nat 2) with 2%Z.
    Z.to_euclidean_division_equations. lia.
Qed.

(** The roll of the intensity getters puts the peak at index [n // 2],
    and past the middle of an odd length at [(n + 1) // 2]. *)
Lemma centre_lookup {A} (E : list A) (ind : nat) :
  (ind < length E)%nat →
  np_roll E ((Z.of_nat (length E) - 2 * Z.of_nat ind) `quot` 2)
    !! (if (length E <? 2 * ind)%nat then ((length E + 1) `div` 2)%nat
        else (length E `div` 2)%nat)
  = E !! ind.
Proof.
  intros Hind.
  rewrite <- (np_roll_lookup E
                ((Z.of_nat (length E) - 2 * Z.of_nat ind) `quot` 2) ind Hind).
  f_equal. rewrite truncated_shift.
  rewrite Z.mod_small, Nat2Z.id; [reflexivity|].
  destruct (Nat.ltb_spec (length E) (2 * ind)) as [Hlt|Hge].
  - pose proof (Nat.Div0.div_lt_upper_bound (length E + 1) 2 (length E)
                  ltac:(lia)). lia.
  - pose proof (Nat.Div0.div_lt_upper_bound (length E) 2 (length E)
                  ltac:(lia)). lia.
Qed.

(** What the intensity getters return for a field that is not empty. *)
Lemma intensity_Ok (E : list (complex F)) :
  E ≠ [] →
  ∃ (ind : nat) (trace : list F) (m : F),
    np_argmax (map np_abs E) = Ok ind
    ∧ (ind < length E)%nat
    ∧ trace = map (fun z => fsqr (np_abs z))
                (np_roll E ((Z.of_nat (length E) - 2 * Z.of_nat ind) `quot` 2))
    ∧ intensity false E = Ok (Some trace)
    ∧ length trace = length E
    ∧ trace !! (if (length E <? 2 * ind)%nat then ((length E + 1) `div` 2)%nat
                else (length E `div` 2)%nat)
      = (fun z => fsqr (np_abs z)) <$> E !! ind
    ∧ np_max trace = Ok m
    ∧ intensity true E = Ok (Some (map (fun x => x /. m) trace)).
Proof.
  intros Hne.
  assert (Hlen0 : (length E =? 0)%nat = false).
  { apply Nat.eqb_neq. destruct E; [congruence | simpl; lia]. }
  destruct (np_argmax_Ok (map np_abs E)) as (ind & Hind & Hlt).
  { destruct E; [congruence | discriminate]. }
  rewrite length_map in Hlt.
  set (trace := map (fun z => fsqr (np_abs z))
                  (np_roll E ((Z.of_nat (length E) - 2 * Z.of_nat ind)
                                `quot` 2))).
  assert (Htrace : length trace = length E)
    by (unfold trace; rewrite length_map, np_roll_length; reflexivity).
  destruct (np_max_Ok trace) as [m Hm].
  { intros Hnil. rewrite Hnil in Htrace. destruct E; [congruence | discriminate]. }
  exists ind, trace, m.
  split; [exact Hind|]. split; [exact Hlt|]. split; [reflexivity|].
  unfold intensity. rewrite Hlen0, Hind. cbn [negb mbind result_bind].
  fold trace. rewrite Hm. cbn [mbind result_bind].
  repeat split; try assumption.
  unfold trace. rewrite list_lookup_fmap, centre_lookup by exact Hlt.
  reflexivity.
Qed.

Lemma intensity_length (norm : bool) (E : list (complex F)) :
  E ≠ [] →
  ∃ trace, intensity norm E = Ok (Some trace) ∧ length trace = length E.
Proof.
  intros Hne.
  destruct (intensity_Ok E Hne)
    as (ind & trace & m & _ & _ & _ & Hraw & Hlen & _ & _ & Hnorm).
  destruct norm.
  - eexists. split; [exact Hnorm|]. rewrite length_map. exact Hlen.
  - eexists. split; [exact Hraw | exact Hlen].
Qed.

Lemma crossings_range (trace : list F) :
  Forall (fun i => i < length trace - 1)%nat (crossings trace).
Proof.
  apply Forall_forall. intros i Hi. unfold crossings, pair_indices in Hi.
  apply list_elem_of_filter in Hi as [_ Hi]. apply elem_of_seq in Hi. lia.
Qed.

Lemma getitem_Ok {A} (a : list A) (i : nat) :
  (i < length a)%nat → ∃ x, getitem a i = Ok x.
Proof.
  intros Hi. unfold getitem.
  destruct (lookup_lt_is_Some_2 a i Hi) as [x ->]. eexists. reflexivity.
Qed.

(** The width is read off an axis as long as the trace without an
    [IndexError]. *)
Lemma half_max_width_Ok (x trace : list F) :
  length x = length trace → ∃ v, half_max_width x trace = Ok v.
Proof.
  intros Hlen. unfold half_max_width.
  pose proof (crossings_range trace) as Hrange.
  destruct (crossings trace) as [|first [|second more]];
    try (eexists; reflexivity).
  assert (Hfirst : (first < length x)%nat).
  { apply Forall_cons in Hrange as [Hfirst _]. lia. }
  assert (Hlast : (List.last more second < length x)%nat).
  { apply Forall_cons in Hrange as [_ Hrange].
    rewrite <- (last_cons more second 0%nat).
    assert (Hin : List.last (second :: more) 0%nat ∈ second :: more).
    { destruct (@exists_last _ (second :: more) ltac:(discriminate))
        as (l' & a & Heq).
      rewrite Heq, List.last_last. apply elem_of_app. right. left. }
    rewrite Forall_forall in Hrange. specialize (Hrange _ Hin). lia. }
  destruct (getitem_Ok x _ Hlast) as [hi ->].
  destruct (getitem_Ok x _ Hfirst) as [lo ->].
  eexists. reflexivity.
Qed.

Lemma get_pulse_duration_shaped (domain : string) (self : calc F) :
  shaped self → ∃ v, get_pulse_duration domain self = Ok v.
Proof.
  intros (Hne & Ht & Hw & HT).
  unfold get_pulse_duration, get_temporal_intensity, get_spectral_intensity.
  destruct (String.eqb domain "temporal").
  - destruct (intensity_length true (self_E_t_out self)) as (trace & -> & Hlen).
    { intros Hnil. rewrite Hnil in HT. destruct (self_E_w_out self);
        [congruence | discriminate]. }
    cbn [mbind result_bind]. rewrite trace_fwhm_width.
    apply half_max_width_Ok. unfold get_t. congruence.
  - destruct (intensity_length true (self_E_w_out self) Hne) as (trace & -> & Hlen).
    cbn [mbind result_bind]. rewrite trace_fwhm_width.
    apply half_max_width_Ok. unfold get_w. rewrite length_map. congruence.
Qed.


(** X11.  For a field of [n] samples, [n] not zero, the intensity getters
    return an array of [n] values and never raise.  Without the
    normalisation it is the squared magnitudes of the field rolled by
    [n / 2 - ind] truncated toward zero, [ind] the sample [np.argmax]
    picks as the peak: the peak is at index [n // 2], but at
    [(n + 1) // 2] when it was past the middle ([n < 2 * ind]), which for
    an odd [n] is one to the right of [n // 2].  With the normalisation it
    is that array divided by its maximum. *)
Theorem intensity_peak_index (E : list (complex F)) :
  E ≠ [] →
  ∃ (ind : nat) (trace : list F) (m : F),
    np_argmax (map np_abs E) = Ok ind
    ∧ (ind < length E)%nat
    ∧ trace = map (fun z => fsqr (np_abs z))
                (np_roll E ((Z.of_nat (length E) - 2 * Z.of_nat ind) `quot` 2))
    ∧ intensity false E = Ok (Some trace)
    ∧ length trace = length E
    ∧ trace !! (if (length E <? 2 * ind)%nat then ((length E + 1) `div` 2)%nat
                else (length E `div` 2)%nat)
      = (fun z => fsqr (np_abs z)) <$> E !! ind
    ∧ np_max trace = Ok m
    ∧ intensity true E = Ok (Some (map (fun x => x /. m) trace)).
Proof. apply intensity_Ok. Qed.

(** X12.  On an object whose output fields are empty [get_pulse_duration]
    raises [TypeError] for either domain: the intensity getter returns
    [None], and [None - 0.5] is not defined. *)
Theorem get_pulse_duration_without_pulse (domain : string) (self : calc F) :
  self_E_t_out self = [] → self_E_w_out self = [] →
  get_pulse_duration domain self = Raise TypeError.
Proof.
  intros Ht Hw.
  unfold get_pulse_duration, get_temporal_intensity, get_spectral_intensity.
  rewrite Ht, Hw. destruct (String.eqb domain "temporal"); reflexivity.
Qed.

(** X13.  After [generate_pulse] and any sequence of [propagate_material]
    calls [get_pulse_duration] returns a number for either domain (NaN
    with fewer than two crossings) and never raises: the crossings are
    indices of the axis. *)
Theorem get_pulse_duration_returns `{!Shapes F} fwhm l_0 t_span n domain
    (calls : list (call F)) (axis : string) (self self0 self1 : calc F) :
  generate_pulse fwhm l_0 t_span n domain self = Ok self0 →
  propagate_all calls self0 = Ok self1 →
  ∃ width : F, get_pulse_duration axis self1 = Ok width.
Proof.
  intros Hgen Hcalls.
  destruct (propagate_all_shaped calls self0 (generate_pulse_shaped _ _ _ _ _ _ _ Hgen))
    as (self1' & Hcalls' & Hshaped & _).
  rewrite Hcalls in Hcalls'. injection Hcalls' as <-.
  apply get_pulse_duration_shaped. exact Hshaped.
Qed.
End IntensityFacts.

(** ** Phases *)

Section UnwrapFacts.
Context {F : Type} `{Float64 F}.

Lemma unwrap_lookup (ph : list F) (j : nat) :
  unwrap ph !! j
  = (fun p => foldl (correction ph) p
                (filter (fun i => i < j)%nat (jump_indices ph))) <$> ph !! j.
Proof.
  unfold unwrap. cbv zeta. rewrite jumps_indices.
  rewrite unwrap_loop by apply jump_indices_range.
  apply list_lookup_imap.
Qed.

Lemma unwrap_length (ph : list F) : length (unwrap ph) = length ph.
Proof.
  unfold unwrap. cbv zeta. rewrite jumps_indices.
  rewrite unwrap_loop by apply jump_indices_range.
  apply length_imap.
Qed.

Lemma filter_none {A} (P : A → Prop) `{!∀ x, Decision (P x)} (l : list A) :
  (∀ x, x ∈ l → ¬ P x) → filter P l = [].
Proof.
  induction l as [|x l IH]; intros Hl; [reflexivity|].
  rewrite filter_cons, decide_False by (apply Hl; left).
  apply IH. intros y Hy. apply Hl. right. exact Hy.
Qed.

Lemma unwrap_before_jumps (ph : list F) (j : nat) :
  (∀ i, i ∈ jumps (np_diff ph) → (j ≤ i)%nat) → unwrap ph !! j = ph !! j.
Proof.
  intros Hj. rewrite unwrap_lookup.
  rewrite jumps_indices in Hj.
  rewrite filter_none by (intros i Hi; specialize (Hj i Hi); lia).
  destruct (ph !! j); reflexivity.
Qed.

(** X14.  The unwrapping keeps the number of samples and changes no
    sample at or before the first jump: the first sample never, and no
    sample at all when no neighbouring phases differ by more than 5. *)
Theorem unwrap_keeps (ph : list F) :
  length (unwrap ph) = length ph
  ∧ (∀ j : nat, (∀ i, i ∈ jumps (np_diff ph) → (j ≤ i)%nat) →
       unwrap ph !! j = ph !! j)
  ∧ unwrap ph !! 0%nat = ph !! 0%nat
  ∧ (jumps (np_diff ph) = [] → unwrap ph = ph).
Proof.
  split; [apply unwrap_length|]. split; [apply unwrap_before_jumps|].
  split.
  - apply unwrap_before_jumps. intros i _. lia.
  - intros Hnone. apply list_eq. intros j. apply unwrap_before_jumps.
    rewrite Hnone. intros i Hi. apply elem_of_nil in Hi. contradiction.
Qed.
End UnwrapFacts.

Section PhaseFacts.
Context {F : Type} `{NumPy F} `{!PolyFit F}.

Lemma mask_low_length (eps : F) (E : list (complex F)) (ph : list F) :
  length E = length ph → length (mask_low eps E ph) = length ph.
Proof.
  intros Hlen. unfold mask_low, mask_set.
  rewrite length_zip_with, length_map. lia.
Qed.

Lemma mask_low_lookup (eps : F) (E : list (complex F)) (ph : list F)
    (i : nat) (z : complex F) (p : F) :
  E !! i = Some z → ph !! i = Some p →
  mask_low eps E ph !! i = Some (if np_abs z <.? eps then fnan else p).
Proof.
  intros Hz Hp. unfold mask_low, mask_set.
  rewrite lookup_zip_with, list_lookup_fmap, Hz, Hp. reflexivity.
Qed.

Lemma phase_length (E : list (complex F)) :
  length (unwrap (map np_angle E)) = length E.
Proof. rewrite unwrap_length, length_map. reflexivity. Qed.

Lemma linear_compensation_lookup (ph out : list F) (i : nat) (p : F) :
  linear_compensation ph = Ok out → ph !! i = Some p →
  ∃ q, out !! i = Some (p -. q).
Proof.
  unfold linear_compensation. cbv zeta. intros Hrun Hp.
  do 3 inv_bind Hrun. injection Hrun as <-.
  rewrite lookup_zip_with, Hp. cbn [mbind option_bind].
  unfold arange. rewrite list_lookup_fmap, lookup_seq_lt
    by (apply lookup_lt_Some in Hp; exact Hp).
  eexists. reflexivity.
Qed.

Lemma linear_compensation_length (ph out : list F) :
  linear_compensation ph = Ok out → length out = length ph.
Proof.
  unfold linear_compensation. cbv zeta. intros Hrun.
  do 3 inv_bind Hrun. injection Hrun as <-.
  rewrite length_zip_with. unfold arange. rewrite length_map, length_seq. lia.
Qed.

(** A float shift of [n / 2 - ind] leaves the array where it is for
    [ind = n / 2], and is refused for any other index of the array. *)
Lemma np_roll_halves_centre {A} (a : list A) (ind : nat) :
  (ind < length a)%nat →
  np_roll_halves a (Z.of_nat (length a) - 2 * Z.of_nat ind)
  = if (length a =? 2 * ind)%nat then Ok a else Raise TypeError.
Proof.
  intros Hind. unfold np_roll_halves. cbv zeta.
  rewrite Z.max_l by lia.
  destruct (Nat.eqb_spec (length a) (2 * ind)) as [Heq|Hne].
  - replace (Z.of_nat (length a) - 2 * Z.of_nat ind)%Z with 0%Z by lia.
    rewrite Z.mod_0_l by lia. reflexivity.
  - destruct (Z.eqb_spec
                ((Z.of_nat (length a) - 2 * Z.of_nat ind)
                   `mod` (2 * Z.of_nat (length a))) 0) as [Hmod|_];
      [|reflexivity].
    exfalso. apply Z.mod_divide in Hmod; [|lia].
    destruct Hmod as [q Hq].
    assert (Hq0 : q = 0%Z) by nia.
    subst q. lia.
Qed.

(** The steps of [get_temporal_phase] on a field that is not empty. *)
Lemma get_temporal_phase_steps (linear_comp : bool) (self : calc F) :
  self_E_t_out self ≠ [] →
  ∃ ind : nat,
    np_argmax (map np_abs (self_E_t_out self)) = Ok ind
    ∧ (ind < length (self_E_t_out self))%nat
    ∧ get_temporal_phase linear_comp self
      = if (length (self_E_t_out self) =? 2 * ind)%nat then
          ph0 ← getitem (unwrap (map np_angle (self_E_t_out self))) ind;
          if linear_comp then
            ph_out ← linear_compensation
                       (mask_low (self_phase_thr self) (self_E_t_out self)
                          (unwrap (map np_angle (self_E_t_out self))));
            Ok (Some ph_out)
          else
            Ok (Some (map (fun p => p -. ph0)
                        (mask_low (self_phase_thr self) (self_E_t_out self)
                           (unwrap (map np_angle (self_E_t_out self))))))
        else Raise TypeError.
Proof.
  intros Hne. unfold get_temporal_phase. cbv zeta.
  revert Hne. generalize (self_E_t_out self). intros E Hne.
  assert (Hlen0 : (length E =? 0)%nat = false).
  { apply Nat.eqb_neq. destruct E; [congruence | simpl; lia]. }
  destruct (np_argmax_Ok (map np_abs E)) as (ind & Hind & Hlt).
  { destruct E; [congruence | discriminate]. }
  rewrite length_map in Hlt.
  exists ind. split; [exact Hind|]. split; [exact Hlt|].
  rewrite Hlen0, Hind. cbn [negb mbind result_bind].
  rewrite np_roll_halves_centre by exact Hlt.
  destruct (Nat.eqb_spec (length E) (2 * ind)) as [Heq|Hne']; [|reflexivity].
  cbn [mbind result_bind].
  replace (length E `div` 2)%nat with ind
    by (rewrite Heq, Nat.mul_comm, Nat.div_mul; [reflexivity | lia]).
  reflexivity.
Qed.

Lemma get_spectral_phase_steps (linear_comp : bool) (self : calc F) :
  get_spectral_phase linear_comp self
  = (Ew ← normalised_spectrum (self_E_t_out self);
     ph0_ind ← np_argmax (map np_abs Ew);
     ph_out ← (if linear_comp
               then linear_compensation
                      (mask_low (self_phase_thr self) Ew
                         (unwrap (map np_angle Ew)))
               else Ok (mask_low (self_phase_thr self) Ew
                          (unwrap (map np_angle Ew))));
     p0 ← getitem ph_out ph0_ind;
     Ok (Some (map (fun p => p -. p0) ph_out))).
Proof.
  unfold get_spectral_phase, normalised_spectrum. cbv zeta.
  cbn [is_not_None].
  destruct (np_argmax (map np_abs (self_E_t_out self))) as [ind|e];
    [|reflexivity].
  cbn [mbind result_bind].
  destruct (fft _) as [spectrum|e]; [|reflexivity].
  cbn [mbind result_bind].
  destruct (np_max _) as [m|e]; reflexivity.
Qed.

Lemma normalised_spectrum_Ok `{!Shapes F} (E : list (complex F)) :
  E ≠ [] →
  ∃ Ew, normalised_spectrum E = Ok Ew ∧ length Ew = length E.
Proof.
  intros Hne. unfold normalised_spectrum. cbv zeta.
  destruct (np_argmax_Ok (map np_abs E)) as (ind & -> & _).
  { destruct E; [congruence | discriminate]. }
  cbn [mbind result_bind].
  set (E_t := np_roll E (- Z.of_nat ind)).
  assert (HE_t : length E_t = length E) by apply np_roll_length.
  assert (Hfft : fft E_t = Ok (np_fft E_t)).
  { unfold fft. destruct E_t; [|reflexivity].
    destruct E; [congruence | discriminate]. }
  rewrite Hfft. cbn [mbind result_bind].
  assert (Hlen : length (fftshift (np_fft E_t)) = length E)
    by (rewrite fftshift_length, np_fft_length; exact HE_t).
  destruct (np_max_Ok (map np_abs (fftshift (np_fft E_t)))) as [m ->].
  { intros Hnil. apply (f_equal length) in Hnil.
    rewrite length_map, Hlen in Hnil. destruct E; [congruence | discriminate]. }
  cbn [mbind result_bind]. eexists. split; [reflexivity|].
  rewrite length_map. exact Hlen.
Qed.

Lemma masked_length (eps : F) (Ew : list (complex F)) :
  length (mask_low eps Ew (unwrap (map np_angle Ew))) = length Ew.
Proof. rewrite mask_low_length; rewrite phase_length; reflexivity. Qed.

Lemma masked_lookup `{!Arithmetic F} (eps : F) (Ew : list (complex F))
    (i : nat) (z : complex F) :
  fisnan (fnan : F) = true →
  Ew !! i = Some z → (np_abs z <.? eps) = true →
  ∃ p, mask_low eps Ew (unwrap (map np_angle Ew)) !! i = Some p
       ∧ fisnan p = true.
Proof.
  intros Hnan Hz Hlow.
  destruct (lookup_lt_is_Some_2 (unwrap (map np_angle Ew)) i) as [p Hp].
  { rewrite phase_length. apply lookup_lt_Some in Hz. exact Hz. }
  exists fnan. split; [|exact Hnan].
  rewrite (mask_low_lookup eps Ew _ i z p Hz Hp), Hlow. reflexivity.
Qed.

(** The linear compensation returns where the fit does. *)
Lemma linear_compensation_fits (ph : list F) :
  (∀ x y : list F, ∃ p, np_polyfit x y 1 = Ok p) →
  ∃ out, linear_compensation ph = Ok out.
Proof.
  intros Hfit. unfold linear_compensation, mask_index. cbv zeta.
  rewrite !decide_True
    by (unfold arange; rewrite !length_map, ?length_seq; reflexivity).
  cbn [mbind result_bind].
  destruct (Hfit (mask_get (map fisfinite ph) (arange (length ph)))
              (mask_get (map fisfinite ph) ph)) as [p ->].
  cbn [mbind result_bind]. eexists. reflexivity.
Qed.

(** With a fit that returns, [get_temporal_phase] with the linear
    compensation returns where the peak is the middle sample. *)
Lemma get_temporal_phase_fits (self : calc F) (ind : nat) :
  (∀ x y : list F, ∃ p, np_polyfit x y 1 = Ok p) →
  np_argmax (map np_abs (self_E_t_out self)) = Ok ind →
  length (self_E_t_out self) = (2 * ind)%nat →
  self_E_t_out self ≠ [] →
  ∃ ph_out, get_temporal_phase true self = Ok (Some ph_out).
Proof.
  intros Hfit Hind Heq Hne.
  destruct (get_temporal_phase_steps true self Hne)
    as (ind' & Hind' & Hlt & Hrun).
  rewrite Hind in Hind'. injection Hind' as <-.
  rewrite Hrun. apply Nat.eqb_eq in Heq. rewrite Heq.
  destruct (getitem_Ok (unwrap (map np_angle (self_E_t_out self))) ind)
    as [ph0 ->].
  { rewrite phase_length. exact Hlt. }
  cbn [mbind result_bind].
  destruct (linear_compensation_fits
              (mask_low (self_phase_thr self) (self_E_t_out self)
                 (unwrap (map np_angle (self_E_t_out self)))) Hfit)
    as [out ->].
  cbn [mbind result_bind]. eexists. reflexivity.
Qed.

(** With a fit that returns, [get_spectral_phase] with the linear
    compensation returns on a field that is not empty. *)
Lemma get_spectral_phase_fits `{!Shapes F} (self : calc F) :
  (∀ x y : list F, ∃ p, np_polyfit x y 1 = Ok p) →
  self_E_t_out self ≠ [] →
  ∃ ph_out, get_spectral_phase true self = Ok (Some ph_out).
Proof.
  intros Hfit Hne.
  destruct (normalised_spectrum_Ok (self_E_t_out self) Hne) as (Ew & HEw & Hlen).
  assert (HneEw : Ew ≠ []).
  { intros ->. destruct (self_E_t_out self); [congruence | discriminate]. }
  destruct (np_argmax_Ok (map np_abs Ew)) as (ph0_ind & Hind & Hlt).
  { destruct Ew; [congruence | discriminate]. }
  rewrite length_map in Hlt.
  destruct (linear_compensation_fits
              (mask_low (self_phase_thr self) Ew (unwrap (map np_angle Ew)))
              Hfit) as [out Hout].
  destruct (getitem_Ok out ph0_ind) as [p0 Hp0].
  { rewrite (linear_compensation_length _ _ Hout), masked_length. exact Hlt. }
  rewrite get_spectral_phase_steps, HEw. cbn [mbind result_bind].
  rewrite Hind. cbn [mbind result_bind].
  rewrite Hout. cbn [mbind result_bind].
  rewrite Hp0. cbn [mbind result_bind]. eexists. reflexivity.
Qed.

(** X15.  On a field of [n] samples, [n] not zero,
    [get_temporal_phase] raises [TypeError] unless the sample [ind] that
    [np.argmax] picks as the peak is the middle one, [n = 2 * ind]: the
    shift [n / 2 - ind] reaches [np.roll] as a float.  So it raises on
    every field of odd length.  Where the peak is the middle sample the
    call without the linear compensation returns an array of [n] values:
    the unwrapped phase of the field as it stands, NaN under the
    threshold, less the phase at the peak. *)
Theorem get_temporal_phase_needs_centre (linear_comp : bool) (self : calc F) :
  self_E_t_out self ≠ [] →
  ∃ ind : nat,
    np_argmax (map np_abs (self_E_t_out self)) = Ok ind
    ∧ (length (self_E_t_out self) ≠ 2 * ind →
       get_temporal_phase linear_comp self = Raise TypeError)
    ∧ (Nat.Odd (length (self_E_t_out self)) →
       get_temporal_phase linear_comp self = Raise TypeError)
    ∧ (length (self_E_t_out self) = 2 * ind →
       ∃ ph0 : F,
         unwrap (map np_angle (self_E_t_out self)) !! ind = Some ph0
         ∧ get_temporal_phase false self
           = Ok (Some (map (fun p => p -. ph0)
                         (mask_low (self_phase_thr self) (self_E_t_out self)
                            (unwrap (map np_angle (self_E_t_out self))))))
         ∧ length (map (fun p => p -. ph0)
                     (mask_low (self_phase_thr self) (self_E_t_out self)
                        (unwrap (map np_angle (self_E_t_out self)))))
           = length (self_E_t_out self)).
Proof.
  intros Hne.
  destruct (get_temporal_phase_steps linear_comp self Hne)
    as (ind & Hind & Hlt & Hrun).
  destruct (get_temporal_phase_steps false self Hne)
    as (ind' & Hind' & _ & Hplain).
  rewrite Hind in Hind'. injection Hind' as <-.
  exists ind. split; [exact Hind|].
  assert (Hoff : length (self_E_t_out self) ≠ 2 * ind →
                 get_temporal_phase linear_comp self = Raise TypeError).
  { intros Hoff. rewrite Hrun.
    destruct (Nat.eqb_spec (length (self_E_t_out self)) (2 * ind));
      [contradiction | reflexivity]. }
  split; [exact Hoff|]. split.
  - intros [k Hk]. apply Hoff. lia.
  - intros Heq.
    destruct (lookup_lt_is_Some_2
                (unwrap (map np_angle (self_E_t_out self))) ind) as [ph0 Hph0].
    { rewrite phase_length. exact Hlt. }
    exists ph0. split; [exact Hph0|]. split.
    + rewrite Hplain. apply Nat.eqb_eq in Heq. rewrite Heq.
      unfold getitem. rewrite Hph0. reflexivity.
    + rewrite length_map, masked_length. reflexivity.
Qed.

(** X16.  Whenever [get_temporal_phase] returns an array, with or without
    the linear compensation, the peak [np.argmax] picks is the middle
    sample of the field, the array has the length of the field, and it is
    NaN at every sample where the magnitude of the field is below
    [phase_thr]. *)
Theorem get_temporal_phase_masks `{!Arithmetic F} (linear_comp : bool)
    (self : calc F) (ph_out : list F) :
  fisnan (fnan : F) = true →
  get_temporal_phase linear_comp self = Ok (Some ph_out) →
  np_argmax (map np_abs (self_E_t_out self))
  = Ok (length (self_E_t_out self) `div` 2)%nat
  ∧ Nat.Even (length (self_E_t_out self))
  ∧ length ph_out = length (self_E_t_out self)
  ∧ ∀ (i : nat) (z : complex F),
      self_E_t_out self !! i = Some z →
      (np_abs z <.? self_phase_thr self) = true →
      ∃ p, ph_out !! i = Some p ∧ fisnan p = true.
Proof.
  intros Hnan Hrun.
  assert (Hne : self_E_t_out self ≠ []).
  { intros Hnil. unfold get_temporal_phase in Hrun. rewrite Hnil in Hrun.
    discriminate. }
  destruct (get_temporal_phase_steps linear_comp self Hne)
    as (ind & Hind & Hlt & Hsteps).
  rewrite Hsteps in Hrun.
  destruct (Nat.eqb_spec (length (self_E_t_out self)) (2 * ind)) as [Heq|];
    [|discriminate].
  assert (Hhalf : (length (self_E_t_out self) `div` 2)%nat = ind)
    by (rewrite Heq, Nat.mul_comm, Nat.div_mul; [reflexivity | lia]).
  rewrite Hhalf. split; [exact Hind|].
  split; [exists ind; exact Heq|].
  inv_bind Hrun. destruct linear_comp.
  - inv_bind Hrun. injection Hrun as <-.
    split.
    + rewrite (linear_compensation_length _ _ Hrun1), masked_length. reflexivity.
    + intros i z Hz Hlow.
      destruct (masked_lookup (self_phase_thr self) _ i z Hnan Hz Hlow)
        as (p & Hp & Hpnan).
      destruct (linear_compensation_lookup _ _ i p Hrun1 Hp) as [q Hq].
      eexists. split; [exact Hq|]. apply fsub_nan_l. exact Hpnan.
  - injection Hrun as <-. split.
    + rewrite length_map, masked_length. reflexivity.
    + intros i z Hz Hlow.
      destruct (masked_lookup (self_phase_thr self) _ i z Hnan Hz Hlow)
        as (p & Hp & Hpnan).
      rewrite list_lookup_fmap, Hp. cbn [fmap option_fmap option_map].
      eexists. split; [reflexivity|]. apply fsub_nan_l. exact Hpnan.
Qed.

Lemma get_spectral_phase_Ok `{!Shapes F} (self : calc F) :
  self_E_t_out self ≠ [] →
  ∃ (Ew : list (complex F)) (ph0_ind : nat) (p0 : F) (ph_out : list F),
    normalised_spectrum (self_E_t_out self) = Ok Ew
    ∧ np_argmax (map np_abs Ew) = Ok ph0_ind
    ∧ get_spectral_phase false self = Ok (Some ph_out)
    ∧ length ph_out = length (self_E_t_out self)
    ∧ ph_out !! ph0_ind = Some (p0 -. p0).
Proof.
  intros Hne.
  destruct (normalised_spectrum_Ok (self_E_t_out self) Hne) as (Ew & HEw & Hlen).
  assert (HneEw : Ew ≠ []).
  { intros ->. destruct (self_E_t_out self); [congruence | discriminate]. }
  destruct (np_argmax_Ok (map np_abs Ew)) as (ph0_ind & Hind & Hlt).
  { destruct Ew; [congruence | discriminate]. }
  rewrite length_map in Hlt.
  destruct (lookup_lt_is_Some_2
              (mask_low (self_phase_thr self) Ew (unwrap (map np_angle Ew)))
              ph0_ind) as [p0 Hp0].
  { rewrite masked_length. exact Hlt. }
  eexists Ew, ph0_ind, p0, _.
  split; [exact HEw|]. split; [exact Hind|].
  rewrite get_spectral_phase_steps, HEw. cbn [mbind result_bind].
  rewrite Hind. cbn [mbind result_bind].
  unfold getitem. rewrite Hp0. cbn [mbind result_bind].
  split; [reflexivity|]. split.
  - rewrite length_map, masked_length. exact Hlen.
  - rewrite list_lookup_fmap, Hp0. reflexivity.
Qed.

(** X17.  Without the linear compensation [get_spectral_phase] returns,
    for a field that is not empty, an array of the length of the field
    and never raises; at the index of the peak of the spectrum it holds
    the phase there less itself. *)
Theorem get_spectral_phase_returns `{!Shapes F} (self : calc F) :
  self_E_t_out self ≠ [] →
  ∃ (Ew : list (complex F)) (ph0_ind : nat) (p0 : F) (ph_out : list F),
    normalised_spectrum (self_E_t_out self) = Ok Ew
    ∧ np_argmax (map np_abs Ew) = Ok ph0_ind
    ∧ get_spectral_phase false self = Ok (Some ph_out)
    ∧ length ph_out = length (self_E_t_out self)
    ∧ ph_out !! ph0_ind = Some (p0 -. p0).
Proof. apply get_spectral_phase_Ok. Qed.

(** X18.  With or without the linear compensation, the phase
    [get_spectral_phase] returns has the length of the normalised
    spectrum and is NaN at every sample where the magnitude of that
    spectrum is below [phase_thr]. *)
Theorem get_spectral_phase_masks `{!Arithmetic F} (linear_comp : bool)
    (self : calc F) (Ew : list (complex F)) (ph_out : list F) :
  fisnan (fnan : F) = true →
  normalised_spectrum (self_E_t_out self) = Ok Ew →
  get_spectral_phase linear_comp self = Ok (Some ph_out) →
  length ph_out = length Ew
  ∧ ∀ (i : nat) (z : complex F),
      Ew !! i = Some z →
      (np_abs z <.? self_phase_thr self) = true →
      ∃ p, ph_out !! i = Some p ∧ fisnan p = true.
Proof.
  intros Hnan HEw. rewrite get_spectral_phase_steps, HEw.
  cbn [mbind result_bind]. intros Hrun. inv_bind Hrun.
  destruct linear_comp.
  - do 2 inv_bind Hrun. injection Hrun as <-. split.
    + rewrite length_map, (linear_compensation_length _ _ Hrun1), masked_length.
      reflexivity.
    + intros i z Hz Hlow.
      destruct (masked_lookup (self_phase_thr self) Ew i z Hnan Hz Hlow)
        as (p & Hp & Hpnan).
      destruct (linear_compensation_lookup _ _ i p Hrun1 Hp) as [q Hq].
      rewrite list_lookup_fmap, Hq. cbn [fmap option_fmap option_map].
      eexists. split; [reflexivity|]. apply fsub_nan_l, fsub_nan_l. exact Hpnan.
  - cbn [mbind result_bind] in Hrun. inv_bind Hrun. injection Hrun as <-. split.
    + rewrite length_map, masked_length. reflexivity.
    + intros i z Hz Hlow.
      destruct (masked_lookup (self_phase_thr self) Ew i z Hnan Hz Hlow)
        as (p & Hp & Hpnan).
      rewrite list_lookup_fmap, Hp. cbn [fmap option_fmap option_map].
      eexists. split; [reflexivity|]. apply fsub_nan_l. exact Hpnan.
Qed.
End PhaseFacts.

(** ** Materials added to the catalogue *)

Section MaterialFacts.
Context {F : Type} `{NumPy F} `{!Interp1d F}.

Lemma sellmeier_terms_short (l2_mat : list F) (c_coeff : list F) :
  ∀ (b_coeff : list F) (ind : nat) (n_tmp : value F),
  (ind ≤ length c_coeff < ind + length b_coeff)%nat →
  sellmeier_terms l2_mat ind b_coeff c_coeff n_tmp = Raise IndexError.
Proof.
  induction b_coeff as [|b b_coeff IH]; intros ind n_tmp Hlen;
    [simpl in Hlen; lia|].
  cbn [sellmeier_terms]. unfold getitem.
  destruct (c_coeff !! ind) as [c|] eqn:Hc; [|reflexivity].
  cbn [mbind result_bind]. apply IH.
  apply lookup_lt_Some in Hc. simpl in Hlen. lia.
Qed.

Lemma sellmeier_terms_Ok (l2_mat : list F) (c_coeff : list F) :
  ∀ (b_coeff : list F) (ind : nat) (n_tmp n : value F),
  sellmeier_terms l2_mat ind b_coeff c_coeff n_tmp = Ok n →
  (b_coeff = [] ∨ ind + length b_coeff ≤ length c_coeff)%nat.
Proof.
  induction b_coeff as [|b b_coeff IH]; intros ind n_tmp n Hrun;
    [left; reflexivity|].
  right. cbn [sellmeier_terms] in Hrun. inv_bind Hrun.
  unfold getitem in Hrun0. destruct (c_coeff !! ind) eqn:Hc; [|discriminate].
  apply lookup_lt_Some in Hc.
  apply IH in Hrun as [-> | Hlen]; simpl; lia.
Qed.

Lemma sellmeier_terms_surplus (l2_mat : list F) (c_coeff extra : list F) :
  ∀ (b_coeff : list F) (ind : nat) (n_tmp : value F),
  (ind + length b_coeff ≤ length c_coeff)%nat →
  sellmeier_terms l2_mat ind b_coeff (c_coeff ++ extra) n_tmp
  = sellmeier_terms l2_mat ind b_coeff c_coeff n_tmp.
Proof.
  induction b_coeff as [|b b_coeff IH]; intros ind n_tmp Hlen; [reflexivity|].
  cbn [sellmeier_terms]. simpl in Hlen. unfold getitem.
  rewrite lookup_app_l by lia.
  destruct (c_coeff !! ind); [|reflexivity].
  cbn [mbind result_bind]. apply IH. lia.
Qed.

Lemma add_material_grid :
  ∃ l_mat : list F,
    np_linspace (flit (200 # 1000000000)) (flit (2000 # 1000000000)) 5000
    = Ok l_mat.
Proof. apply np_linspace_Ok. lia. Qed.

(** X19.  With fewer C coefficients than B coefficients [add_material]
    raises [IndexError], at [c_coeff[ind]]; nothing is stored. *)
Theorem add_material_short (name : string) (b_coeff c_coeff : list F)
    (self : calc F) :
  (length c_coeff < length b_coeff)%nat →
  add_material name b_coeff c_coeff self = Raise IndexError.
Proof.
  intros Hlen. unfold add_material.
  destruct add_material_grid as [l_mat ->]. cbn [mbind result_bind]. cbv zeta.
  rewrite sellmeier_terms_short by lia. reflexivity.
Qed.

Lemma propagate_material_set_material (name other : string) (n_ip : F → F)
    (thickness : F) (self : calc F) :
  other ≠ name →
  propagate_material other thickness (set_material name n_ip self)
  = (self' ← propagate_material other thickness self;
     Ok (set_material name n_ip self')).
Proof.
  intros Hother. unfold propagate_material.
  cbn [set_material self_materials]. rewrite lookup_insert_ne by congruence.
  destruct (self_materials self !! other) as [n_other|]; [|reflexivity].
  change (transfer n_other thickness (set_material name n_ip self))
    with (transfer n_other thickness self).
  cbn [self_E_w_out].
  destruct (broadcast cmul _ _) as [E|e]; [|reflexivity].
  cbn [mbind result_bind].
  destruct (ifft (fftshift E)) as [T|e]; reflexivity.
Qed.

(** X20.  An [add_material] that returns had a C coefficient for every B
    coefficient; it has stored the interpolator under the name, replacing
    an earlier one, has left every other name and every other attribute
    as it was, and a later [propagate_material] for another name does
    what it did before. *)
Theorem add_material_stores (name : string) (b_coeff c_coeff : list F)
    (self self' : calc F) :
  add_material name b_coeff c_coeff self = Ok self' →
  (length b_coeff ≤ length c_coeff)%nat
  ∧ ∃ n_ip : F → F,
      self' = set_material name n_ip self
      ∧ self_materials self' !! name = Some n_ip
      ∧ (∀ other, other ≠ name →
           self_materials self' !! other = self_materials self !! other)
      ∧ (∀ other thickness, other ≠ name →
           propagate_material other thickness self'
           = (s ← propagate_material other thickness self;
              Ok (set_material name n_ip s))).
Proof.
  unfold add_material. intros Hrun. do 3 inv_bind Hrun. injection Hrun as <-.
  split.
  { apply sellmeier_terms_Ok in Hrun1 as [-> | Hlen]; simpl; lia. }
  eexists. split; [reflexivity|].
  cbn [set_material self_materials].
  split; [apply lookup_insert_eq|].
  split; [intros other Hother; apply lookup_insert_ne; congruence|].
  intros other thickness Hother.
  apply propagate_material_set_material. exact Hother.
Qed.

(** X21.  C coefficients past the number of B coefficients are never
    read: [add_material] does the same with and without them. *)
Theorem add_material_surplus (name : string) (b_coeff c_coeff extra : list F)
    (self : calc F) :
  (length b_coeff ≤ length c_coeff)%nat →
  add_material name b_coeff (c_coeff ++ extra) self
  = add_material name b_coeff c_coeff self.
Proof.
  intros Hlen. unfold add_material.
  destruct add_material_grid as [l_mat ->]. cbn [mbind result_bind]. cbv zeta.
  rewrite sellmeier_terms_surplus by (simpl; lia). reflexivity.
Qed.
End MaterialFacts.

(** ** Machine arithmetic *)

(** The laws of [Arithmetic] hold for the binary64 numbers. *)
Module IEEEFacts.
Import IEEE.
Local Open Scope float64_scope.

Lemma zero_spec : Prim2SF (f0 : float) = S754_zero false.
Proof. reflexivity. Qed.

Lemma SFcompare_refl (x : spec_float) :
  x ≠ S754_nan → SFcompare x x = Some Eq.
Proof.
  destruct x as [s|s| |s m e]; intros Hx; try congruence.
  - reflexivity.
  - destruct s; reflexivity.
  - simpl. rewrite Z.compare_refl, Pos.compare_cont_refl.
    destruct s; reflexivity.
Qed.

Lemma is_nan_spec (x : float) :
  fisnan x = true ↔ Prim2SF x = S754_nan.
Proof.
  cbn [fisnan float64]. unfold is_nan. rewrite FloatAxioms.eqb_spec. unfold SFeqb.
  destruct (Prim2SF x) as [s|s| |s m e] eqn:Hx.
  - split; discriminate.
  - rewrite SFcompare_refl by discriminate. split; discriminate.
  - split; reflexivity.
  - rewrite SFcompare_refl by discriminate. split; discriminate.
Qed.

Lemma is_nan_intro (x : float) : Prim2SF x = S754_nan → fisnan x = true.
Proof. apply is_nan_spec. Qed.

Lemma is_zero_spec (x : float) :
  (x =.? f0) = true ↔ ∃ s, Prim2SF x = S754_zero s.
Proof.
  cbn [feqb float64]. rewrite FloatAxioms.eqb_spec, zero_spec. unfold SFeqb.
  destruct (Prim2SF x) as [s|s| |s m e]; simpl.
  - split; eauto.
  - destruct s; split; try discriminate; intros [? ?]; discriminate.
  - split; try discriminate; intros [? ?]; discriminate.
  - destruct s; split; try discriminate; intros [? ?]; discriminate.
Qed.

Lemma is_finite_spec (x : float) :
  fisfinite x = true →
  (∃ s, Prim2SF x = S754_zero s) ∨ ∃ s m e, Prim2SF x = S754_finite s m e.
Proof.
  cbn [fisfinite float64]. unfold is_finite, is_infinity, is_nan.
  rewrite !FloatAxioms.eqb_spec, abs_spec. unfold SFeqb.
  change (Prim2SF infinity) with (S754_infinity false).
  destruct (Prim2SF x) as [s|s| |s m e]; simpl; intros Hfin;
    try discriminate Hfin; eauto.
  destruct s; discriminate Hfin.
Qed.

Lemma is_zero_intro (x : float) (s : bool) :
  Prim2SF x = S754_zero s → (x =.? f0) = true.
Proof. intros Hx. apply is_zero_spec. eauto. Qed.

Lemma one_spec : Prim2SF (f1 : float) = S754_finite false 4503599627370496 (-52).
Proof. reflexivity. Qed.

Lemma five_spec : Prim2SF (flit 5 : float) = S754_finite false 5629499534213120 (-50).
Proof. reflexivity. Qed.

(** A float that compares with nothing is the NaN. *)
Lemma nan_unique (x : float) : Prim2SF x = S754_nan → x = nan.
Proof. intros Hx. apply Prim2SF_inj. rewrite Hx. reflexivity. Qed.

(** The value of [np.sign]: one of three numbers, or the NaN. *)
Lemma np_sign_cases (x : float) :
  np_sign x = f1 ∨ np_sign x = fneg f1 ∨ np_sign x = f0 ∨ np_sign x = nan.
Proof.
  unfold np_sign.
  destruct (f0 <.? x) eqn:Hpos; [auto|].
  destruct (x <.? f0) eqn:Hneg; [auto|].
  destruct (x =.? f0) eqn:Hzero; [auto|].
  do 3 right. apply nan_unique.
  cbn [fltb feqb float64] in Hpos, Hneg, Hzero.
  rewrite ltb_spec, zero_spec in Hpos, Hneg.
  rewrite FloatAxioms.eqb_spec, zero_spec in Hzero.
  unfold SFltb, SFeqb in Hpos, Hneg, Hzero.
  destruct (Prim2SF x) as [s|s| |s m e]; simpl in Hpos, Hneg, Hzero;
    try discriminate; try reflexivity; destruct s; discriminate.
Qed.

#[export] Instance ieee_arithmetic : Arithmetic float.
Proof.
  split.
  - intros x y Hx%is_nan_spec. apply is_nan_intro.
    cbn [fmul float64]. rewrite mul_spec, Hx. reflexivity.
  - intros x y Hy%is_nan_spec. apply is_nan_intro.
    cbn [fmul float64]. rewrite mul_spec, Hy.
    destruct (Prim2SF x); reflexivity.
  - intros x y Hx%is_nan_spec. apply is_nan_intro.
    cbn [fdiv float64]. rewrite div_spec, Hx. reflexivity.
  - intros x y Hx%is_nan_spec. apply is_nan_intro.
    cbn [fsub float64]. rewrite sub_spec, Hx. reflexivity.
  - intros x Hx%is_finite_spec.
    assert (Hmul : ∃ s, Prim2SF (f0 *. x) = S754_zero s).
    { cbn [fmul float64]. rewrite mul_spec, zero_spec.
      destruct Hx as [[s ->]|(s & m & e & ->)]; simpl; eauto. }
    destruct Hmul as [s Hs]. exact (is_zero_intro _ s Hs).
  - intros x y [sx Hx]%is_zero_spec [sy Hy]%is_zero_spec.
    assert (Hsub : ∃ s, Prim2SF (x -. y) = S754_zero s).
    { cbn [fsub float64]. rewrite sub_spec, Hx, Hy.
      destruct sx, sy; simpl; eauto. }
    destruct Hsub as [s Hs]. exact (is_zero_intro _ s Hs).
  - intros x y [sx Hx]%is_zero_spec [sy Hy]%is_zero_spec.
    assert (Hadd : ∃ s, Prim2SF (x +. y) = S754_zero s).
    { cbn [fadd float64]. rewrite add_spec, Hx, Hy.
      destruct sx, sy; simpl; eauto. }
    destruct Hadd as [s Hs]. exact (is_zero_intro _ s Hs).
  - intros x [s Hx]%is_zero_spec.
    destruct (fisnan x) eqn:Hnan; [|reflexivity].
    apply is_nan_spec in Hnan. congruence.
  - reflexivity.
  - intros d. unfold fgtb. cbn [fltb fabs float64].
    rewrite !ltb_spec, abs_spec, zero_spec, five_spec. unfold SFltb.
    destruct (Prim2SF d) as [s|s| |s m e]; simpl;
      try discriminate; destruct s; try discriminate; reflexivity.
  - intros a b.
    destruct (np_sign_cases a) as [-> | [-> | [-> | ->]]],
             (np_sign_cases b) as [-> | [-> | [-> | ->]]];
      reflexivity.
Qed.
(** The array code on machine numbers. *)

Example roll_by_two : np_roll [1; 2; 3; 4; 5]%Z 2 = [4; 5; 1; 2; 3]%Z.
Proof. reflexivity. Qed.

Example roll_back_one : np_roll [1; 2; 3; 4; 5]%Z (-1) = [2; 3; 4; 5; 1]%Z.
Proof. reflexivity. Qed.

Example fftshift_odd : fftshift [0; 1; 2; 3; 4]%Z = [3; 4; 0; 1; 2]%Z.
Proof. reflexivity. Qed.

Example fftshift_even : fftshift [0; 1; 2; 3]%Z = [2; 3; 0; 1]%Z.
Proof. reflexivity. Qed.

(** Reordering twice is the identity on four entries and a roll on
    three. *)
Example fftshift_twice_four :
  fftshift (fftshift [0; 1; 2; 3]%Z) = [0; 1; 2; 3]%Z.
Proof. reflexivity. Qed.

Example fftshift_twice_three : fftshift (fftshift [0; 1; 2]%Z) = [1; 2; 0]%Z.
Proof. reflexivity. Qed.

Example fftfreq_ints_five : fftfreq_ints 5 = [0; 1; 2; -2; -1]%Z.
Proof. reflexivity. Qed.

Example fftfreq_ints_four : fftfreq_ints 4 = [0; 1; -2; -1]%Z.
Proof. reflexivity. Qed.

Example fftfreq_four :
  np_fftfreq 4 (flit (1 # 2) : float)
  = Ok [f0; flit (1 # 2); fneg f1; fneg (flit (1 # 2))].
Proof. vm_compute. reflexivity. Qed.

(** Five points over [[-1, 1]] lie 0.5 apart, and 2 / 5 is 0.4. *)
Example linspace_five :
  np_linspace (fneg f1 : float) f1 5
  = Ok [fneg f1; fneg (flit (1 # 2)); f0; flit (1 # 2); f1].
Proof. vm_compute. reflexivity. Qed.

Example linspace_five_steps :
  np_diff [fneg f1 : float; fneg (flit (1 # 2)); f0; flit (1 # 2); f1]
  = [flit (1 # 2); flit (1 # 2); flit (1 # 2); flit (1 # 2)].
Proof. vm_compute. reflexivity. Qed.

Example step_of_five : py_div (f2 : float) (of_int 5) = Ok (flit (2 # 5)).
Proof. vm_compute. reflexivity. Qed.

Example linspace_one : np_linspace (fneg f1 : float) f1 1 = Ok [fneg f1].
Proof. vm_compute. reflexivity. Qed.

Example linspace_negative : np_linspace (fneg f1 : float) f1 (-1) = Raise ValueError.
Proof. reflexivity. Qed.

Example argmax_first_of_equals :
  np_argmax [f0 : float; flit 3; f1; flit 3] = Ok 1%nat.
Proof. vm_compute. reflexivity. Qed.

Example argmax_nan :
  np_argmax [f0 : float; flit 3; fnan; flit 5] = Ok 2%nat.
Proof. vm_compute. reflexivity. Qed.

Example argmax_empty : np_argmax ([] : list float) = Raise ValueError.
Proof. reflexivity. Qed.

(** One wrap between the first two samples: everything after it is
    raised by [2 * pi]; the difference of exactly 5 further on is no
    jump. *)
Example unwrap_one_jump :
  unwrap [flit 3 : float; flit (-3); flit (-2); flit 3; flit 3]
  = [flit 3; flit (-3) +. f2 *. fpi; flit (-2) +. f2 *. fpi;
     flit 3 +. f2 *. fpi; flit 3 +. f2 *. fpi].
Proof. vm_compute. reflexivity. Qed.

Example unwrap_two_jumps :
  unwrap [flit (-3) : float; flit 3; flit (-3)]
  = [flit (-3); flit 3 -. f2 *. fpi; flit (-3) -. f2 *. fpi +. f2 *. fpi].
Proof. vm_compute. reflexivity. Qed.

Example jump_indices_example :
  jump_indices [flit 3 : float; flit (-3); flit (-2); flit 3; flit 3] = [0%nat].
Proof. vm_compute. reflexivity. Qed.

(** A trace that rises through one half after sample 1 and falls through
    it after sample 3, over the axis 0 .. 4. *)
Example width_of_a_peak :
  trace_fwhm [f0 : float; f1; f2; flit 3; flit 4]
             [f0; flit (1 # 5); f1; flit (6 # 10); f0]
  = Ok f2.
Proof. vm_compute. reflexivity. Qed.

Example crossings_of_a_peak :
  crossings [f0 : float; flit (1 # 5); f1; flit (6 # 10); f0] = [1; 3]%nat.
Proof. vm_compute. reflexivity. Qed.

(** One crossing only: the width is NaN. *)
Example width_of_a_step :
  trace_fwhm [f0 : float; f1; f2; flit 3; flit 4]
             [f0; flit (1 # 5); f1; f1; f1]
  = Ok fnan.
Proof. vm_compute. reflexivity. Qed.

(** A sample at one half exactly counts twice, into it and out of it. *)
Example crossings_at_half :
  crossings [f0 : float; flit (1 # 2); f1] = [0; 1]%nat.
Proof. vm_compute. reflexivity. Qed.
(** The sum of [add_material] over two wavelengths: one term, and a
    C coefficient that is missing. *)
Example sellmeier_one_term :
  sellmeier_terms [flit 4; flit 9] 0 [f1 : float] [f1] (Scalar f0)
  = Ok (Array [f0 +. flit 4 /. flit 3; f0 +. flit 9 /. flit 8]).
Proof. vm_compute. reflexivity. Qed.

Example sellmeier_missing_c :
  sellmeier_terms [flit 4; flit 9] 0 [f1 : float; f1] [f1] (Scalar f0)
  = Raise IndexError.
Proof. vm_compute. reflexivity. Qed.

Example sellmeier_no_term :
  sellmeier_index (F := float) (Scalar f0) = Scalar f1.
Proof. vm_compute. reflexivity. Qed.

(** The NaN the phases are masked with is a NaN. *)
Example nan_is_nan : fisnan (fnan : float) = true.
Proof. reflexivity. Qed.

(** The shifts of the getters.  For the field [1, 2, 5] the intensity
    getters roll by [3 / 2 - 2] cut off to 0; [get_temporal_phase] hands
    the float to [np.roll], which takes it for a peak in the middle sample
    only. *)
Example roll_truncated_shift :
  np_roll [1; 2; 5]%Z ((3 - 2 * 2) `quot` 2) = [1; 2; 5]%Z.
Proof. reflexivity. Qed.

Example roll_float_shift :
  np_roll_halves [5; 2; 1; 1]%Z (4 - 2 * 0) = Raise TypeError.
Proof. reflexivity. Qed.

Example roll_float_zero : np_roll_halves [1; 5]%Z (2 - 2 * 1) = Ok [1; 5]%Z.
Proof. reflexivity. Qed.

(** The square of a Python float overflows with an exception. *)
Example py_sqr_overflows : py_sqr 0x1p+600%float = Raise OverflowError.
Proof. vm_compute. reflexivity. Qed.

Example py_sqr_in_range : py_sqr (flit 3 : float) = Ok (flit 9 : float).
Proof. vm_compute. reflexivity. Qed.

End IEEEFacts.

(** ** Ideal arithmetic *)

Module IdealFacts.
Import Ideal.
Local Open Scope R_scope.

(** Unfolds the literals of ideal arithmetic. *)
Ltac ideal_literals :=
  unfold f0, f1, f2, of_int; cbn [flit float64]; unfold of_Q;
  cbn [Qnum Qden inject_Z].
Tactic Notation "ideal_literals" "in" hyp(H) :=
  unfold f0, f1, f2, of_int in H; cbn [flit float64] in H; unfold of_Q in H;
  cbn [Qnum Qden inject_Z] in H.

Lemma dft_length (sgn : R) (a : list (complex num)) : length (dft sgn a) = length a.
Proof. unfold dft. rewrite length_map, length_seq. reflexivity. Qed.

#[export] Instance ideal_shapes : Shapes num.
Proof.
  split; intros a; cbn [np_fft np_ifft numpy].
  - apply dft_length.
  - unfold idft. rewrite length_map. apply dft_length.
Qed.

Lemma eqb_some_true (x y : R) : x = y → (Some x =.? Some y) = true.
Proof. intros Heq. cbn. destruct (Req_dec_T x y); [reflexivity | contradiction]. Qed.

Lemma eqb_some_false (x y : R) : x ≠ y → (Some x =.? Some y) = false.
Proof. intros Hne. cbn. destruct (Req_dec_T x y); [contradiction | reflexivity]. Qed.

Lemma eqb_zero_true (x : R) : x = 0 → (Some x =.? f0) = true.
Proof. intros ->. apply eqb_some_true. cbn. lra. Qed.

Lemma eqb_zero_false (x : R) : x ≠ 0 → (Some x =.? f0) = false.
Proof. intros Hx. apply eqb_some_false. cbn. lra. Qed.

Lemma eqb_zero_inv (x : num) : (x =.? f0) = true → x = Some 0.
Proof.
  destruct x as [x|]; [|discriminate].
  destruct (Req_dec_T x 0) as [->|Hx]; [reflexivity|].
  rewrite eqb_zero_false by exact Hx. discriminate.
Qed.

Lemma div_some (x y : R) : y ≠ 0 → Some x /. Some y = Some (x / y).
Proof.
  intros Hy. cbn. destruct (Req_dec_T y 0); [contradiction | reflexivity].
Qed.

Lemma py_div_some (x y : R) : y ≠ 0 → py_div (Some x) (Some y) = Ok (Some (x / y)).
Proof.
  intros Hy. unfold py_div. rewrite eqb_zero_false by exact Hy.
  rewrite div_some by exact Hy. reflexivity.
Qed.

Lemma of_int_some (z : Z) : of_int z = Some (IZR z / 1).
Proof. reflexivity. Qed.

(** Decides the comparisons of real numbers a goal is stuck on. *)
Ltac decide_reals :=
  repeat match goal with
    | |- context [Rlt_dec ?x ?y] => destruct (Rlt_dec x y)
    | |- context [Req_dec_T ?x ?y] => destruct (Req_dec_T x y)
    end.

#[export] Instance ideal_arithmetic : Arithmetic num.
Proof.
  split.
  - intros [x|] [y|]; cbn; congruence.
  - intros [x|] [y|]; cbn; congruence.
  - intros [x|] [y|]; cbn; try congruence.
  - intros [x|] [y|]; cbn; congruence.
  - intros [x|]; [|discriminate]. intros _.
    apply eqb_some_true. cbn. lra.
  - intros x y ->%eqb_zero_inv ->%eqb_zero_inv. apply eqb_zero_true. lra.
  - intros x y ->%eqb_zero_inv ->%eqb_zero_inv. apply eqb_zero_true. lra.
  - intros x ->%eqb_zero_inv. reflexivity.
  - apply eqb_zero_true. cbn. lra.
  - intros [d|]; [|discriminate]. unfold fgtb, f0. cbn.
    unfold Rabs. destruct (Rcase_abs d); decide_reals;
      intros; try discriminate; try reflexivity; lra.
  - intros [a|] [b|]; unfold truthy, np_sign, f0, f1; cbn;
      decide_reals; cbn; decide_reals; try reflexivity; lra.
Qed.

#[export] Instance ideal_undefined : Undefined num.
Proof.
  split; [exact ideal_arithmetic|].
  intros [[x|] [y|]]; cbn; congruence.
Qed.

Lemma linspace_grid (start stop : R) (n : Z) :
  (2 ≤ n)%Z →
  np_linspace (Some start) (Some stop) n = Ok (grid start stop n).
Proof.
  intros Hnum. unfold np_linspace.
  rewrite (proj2 (Z.ltb_ge n 0)) by lia.
  rewrite (proj2 (Z.ltb_lt 1 n)) by lia.
  f_equal. cbv zeta.
  assert (Hdiv : IZR (n - 1) / 1 ≠ 0).
  { rewrite minus_IZR. apply IZR_le in Hnum. lra. }
  assert (Hdiv' : IZR n - 1 ≠ 0) by (apply IZR_le in Hnum; lra).
  rewrite of_int_some. cbn [fsub float64 lift2].
  rewrite div_some by exact Hdiv.
  apply list_eq. intros i. unfold grid.
  destruct (decide (i < Z.to_nat n)%nat) as [Hi|Hi].
  2:{ rewrite !lookup_ge_None_2; [reflexivity| |].
      - rewrite length_map, length_seq. lia.
      - rewrite length_insert, length_map.
        destruct (_ =.? _); rewrite !length_map, length_seq; lia. }
  rewrite list_lookup_fmap, lookup_seq_lt by exact Hi. cbn [fmap option_fmap option_map].
  rewrite Nat.add_0_l, INR_IZR_INZ.
  destruct (decide (i = Z.to_nat n - 1)%nat) as [->|Hlast].
  - rewrite list_lookup_insert_eq.
    2:{ rewrite length_map. destruct (_ =.? _); rewrite !length_map, length_seq; lia. }
    f_equal. f_equal.
    rewrite Nat2Z.inj_sub, Z2Nat.id, minus_IZR by lia. field. exact Hdiv'.
  - rewrite list_lookup_insert_ne by lia.
    rewrite list_lookup_fmap.
    rewrite minus_IZR in Hdiv; rewrite ?minus_IZR.
    destruct (Req_dec_T ((stop - start) / ((IZR n - 1) / 1)) 0) as [Hstep|Hstep].
    + rewrite eqb_zero_true by exact Hstep.
      rewrite !list_lookup_fmap, lookup_seq_lt by exact Hi.
      cbn [fmap option_fmap option_map]. rewrite Nat.add_0_l, of_int_some.
      rewrite div_some by exact Hdiv. cbn [fmul fadd float64 lift2].
      do 2 f_equal. field. exact Hdiv'.
    + rewrite eqb_zero_false by exact Hstep.
      rewrite !list_lookup_fmap, lookup_seq_lt by exact Hi.
      cbn [fmap option_fmap option_map]. rewrite Nat.add_0_l, of_int_some.
      cbn [fmul fadd float64 lift2].
      do 2 f_equal. field. exact Hdiv'.
Qed.

(** *** Accumulated dispersion (C4) *)

Lemma phase_factor_some (k d : R) :
  phase_factor (Some k : num) (Some d)
  = (Some (cos (k * d)), Some (- sin (k * d))).
Proof.
  unfold phase_factor, cmul, minus_j, of_real, f0, f1. cbn.
  replace ((- (0 / 1) * k - - (1 / 1) * (0 / 1)) * d
           - (- (0 / 1) * (0 / 1) + - (1 / 1) * k) * (0 / 1)) with 0 by field.
  replace ((- (0 / 1) * k - - (1 / 1) * (0 / 1)) * (0 / 1)
           + (- (0 / 1) * (0 / 1) + - (1 / 1) * k) * d) with (- (k * d)) by field.
  rewrite exp_0, cos_neg, sin_neg, !Rmult_1_l. reflexivity.
Qed.

Lemma phase_factor_undefined (k d : num) :
  k = None ∨ d = None → cisnan (phase_factor k d) = true.
Proof.
  intros [-> | ->]; [destruct d | destruct k]; reflexivity.
Qed.

Lemma transfer_at_ideal (n_ip : num → num) (d : num) (self : calc num) (w : num) :
  transfer_at n_ip d self w = unit_or_zero (wavenumber n_ip self w) d.
Proof.
  unfold transfer_at. cbv zeta.
  destruct (wavenumber n_ip self w) as [k|], d as [d|]; simpl unit_or_zero.
  - rewrite phase_factor_some. reflexivity.
  - rewrite phase_factor_undefined by (right; reflexivity). reflexivity.
  - rewrite phase_factor_undefined by (left; reflexivity). reflexivity.
  - rewrite phase_factor_undefined by (left; reflexivity). reflexivity.
Qed.

Ltac cmul_cases e :=
  let a := fresh "a" in
  let b := fresh "b" in
  destruct e as [[a|] [b|]]; unfold cmul, czero, f0, f1; cbn;
  try reflexivity; f_equal; f_equal.

Lemma cmul_zero_zero (e : complex num) :
  cmul czero (cmul czero e) = cmul czero e.
Proof. cmul_cases e; field. Qed.

Lemma cmul_unit_zero (k d : R) (e : complex num) :
  cmul (Some (cos (k * d)), Some (- sin (k * d))) (cmul czero e) = cmul czero e.
Proof. cmul_cases e; field. Qed.

Lemma cmul_zero_unit (k d : R) (e : complex num) :
  cmul czero (cmul (Some (cos (k * d)), Some (- sin (k * d))) e) = cmul czero e.
Proof. cmul_cases e; field. Qed.

Lemma cmul_unit_unit (k d1 d2 : R) (e : complex num) :
  cmul (Some (cos (k * d2)), Some (- sin (k * d2)))
       (cmul (Some (cos (k * d1)), Some (- sin (k * d1))) e)
  = cmul (Some (cos (k * (d1 + d2))), Some (- sin (k * (d1 + d2)))) e.
Proof.
  rewrite Rmult_plus_distr_l, cos_plus, sin_plus.
  cmul_cases e; ring.
Qed.

Lemma transfer_at_accumulates (n_ip : num → num) (d1 d2 : num)
    (self : calc num) (w : num) (e : complex num) :
  cmul (transfer_at n_ip d2 self w) (cmul (transfer_at n_ip d1 self w) e)
  = cmul (transfer_at n_ip (d1 +. d2)%f64 self w) e.
Proof.
  rewrite !transfer_at_ideal.
  destruct (wavenumber n_ip self w) as [k|], d1 as [d1|], d2 as [d2|];
    simpl unit_or_zero; cbn [fadd float64 lift2];
    auto using cmul_zero_zero, cmul_unit_zero, cmul_zero_unit, cmul_unit_unit.
Qed.

(** C4.  In ideal arithmetic, where "to numerical tolerance" is equality:
    for every material and thicknesses [d1] and [d2], [propagate_material]
    with [d1] and then with [d2] is [propagate_material] with [d1 + d2],
    in what it returns and in every attribute it leaves; each call
    multiplies the spectrum by the transfer function sample by sample, and
    the transfer functions of [d1] and [d2] multiply to that of
    [d1 + d2]. *)
Theorem propagation_accumulates (name : string) (d1 d2 : num) (self : calc num) :
  propagate_material name d1 self ≫= propagate_material name d2
  = propagate_material name (d1 +. d2)%f64 self.
Proof.
  destruct (self_materials self !! name) as [n_ip|] eqn:Hname.
  - apply (propagate_twice name n_ip); [exact Hname|].
    intros w e. apply transfer_at_accumulates.
  - rewrite !propagate_material_skips by exact Hname.
    cbn [mbind result_bind].
    apply propagate_material_skips. exact Hname.
Qed.

(** *** Generation in ideal arithmetic *)

Lemma fftfreq_some (n : Z) (d : R) :
  IZR n ≠ 0 → d ≠ 0 →
  ∃ freq, np_fftfreq n (Some d) = Ok freq.
Proof.
  intros Hn Hd. unfold np_fftfreq. rewrite of_int_some.
  cbn [fmul float64 lift2].
  ideal_literals.
  rewrite py_div_some.
  - cbn [mbind result_bind]. eexists. reflexivity.
  - intros Hzero. apply Rmult_integral in Hzero as [Hzero|Hzero]; lra.
Qed.

(** No number of the ideal arithmetic is infinite: a square never
    overflows. *)
Lemma py_sqr_ideal (x : num) : py_sqr x = Ok (x *. x)%f64.
Proof. destruct x; reflexivity. Qed.

Lemma tau_sqr_ideal (domain : string) (tau : num) :
  tau_sqr domain tau = Ok (fsqr tau).
Proof.
  unfold tau_sqr. destruct (String.eqb domain "temporal"); [reflexivity|].
  apply py_sqr_ideal.
Qed.

Lemma pulse_tau_some (fwhm l_0 c : R) (domain : string) (self : calc num) :
  self_c self = Some c →
  domain = "temporal"%string ∨ fwhm * c ≠ 0 →
  ∃ tau, pulse_tau self (Some fwhm) (Some l_0) domain = Ok tau.
Proof.
  intros Hc Hdom. unfold pulse_tau.
  destruct (String.eqb domain "temporal") eqn:Heq; [eexists; reflexivity|].
  destruct Hdom as [->|Hne]; [discriminate|].
  rewrite py_sqr_ideal. cbn [mbind result_bind].
  rewrite Hc. ideal_literals. cbn [fmul float64 lift2].
  rewrite py_div_some by exact Hne. eexists. reflexivity.
Qed.

(** In ideal arithmetic [generate_pulse] returns for a wavelength and a
    span that are not zero, at least one sample, and, for a width in
    wavelength, a width that is not zero. *)
Lemma generate_pulse_ideal (fwhm l_0 t_span c : R) (n : Z) (domain : string)
    (self : calc num) :
  self_c self = Some c →
  l_0 ≠ 0 → t_span ≠ 0 → (1 ≤ n)%Z →
  domain = "temporal"%string ∨ fwhm * c ≠ 0 →
  ∃ self0,
    generate_pulse (Some fwhm) (Some l_0) (Some t_span) (Some n) domain self
    = Ok self0.
Proof.
  intros Hc Hl Ht Hn Hdom.
  assert (Hn' : IZR n ≠ 0) by (apply IZR_le in Hn; lra).
  destruct (fftfreq_some n (t_span / (IZR n / 1)) Hn') as [freq Hfreq].
  { intros Hzero. apply Ht.
    replace t_span with (t_span / (IZR n / 1) * IZR n) by (field; exact Hn').
    rewrite Hzero. lra. }
  destruct (pulse_tau_some fwhm l_0 c domain self Hc Hdom) as [tau Htau].
  apply (generate_pulse_runs (Some fwhm) (Some l_0) (Some t_span) (Some n)
           domain self (Some (2 / 1 * PI * c / l_0))
           (Some (t_span / (IZR n / 1))) tau (fsqr tau) freq).
  - exact Hn.
  - rewrite Hc. ideal_literals. cbn [fmul float64 lift2 fpi].
    apply py_div_some. exact Hl.
  - change (default (self_N self) (Some n)) with n.
    rewrite of_int_some. apply py_div_some. lra.
  - exact Hfreq.
  - exact Htau.
  - apply tau_sqr_ideal.
Qed.

Lemma grid_length (start stop : R) (n : Z) :
  length (grid start stop n) = Z.to_nat n.
Proof. unfold grid. rewrite length_map, length_seq. reflexivity. Qed.

Lemma grid_lookup (start stop : R) (n : Z) (i : nat) :
  (i < Z.to_nat n)%nat →
  grid start stop n !! i
  = Some (Some (start + INR i * ((stop - start) / (IZR n - 1)))).
Proof.
  intros Hi. unfold grid.
  rewrite list_lookup_fmap, lookup_seq_lt by exact Hi. reflexivity.
Qed.

Lemma grid_lookup_inv (start stop : R) (n : Z) (i : nat) (x : num) :
  grid start stop n !! i = Some x →
  x = Some (start + INR i * ((stop - start) / (IZR n - 1))).
Proof.
  intros Hx. pose proof (lookup_lt_Some _ _ _ Hx) as Hi.
  rewrite grid_length in Hi. rewrite grid_lookup in Hx by exact Hi.
  congruence.
Qed.

(** A grid runs from [start] to [stop] in equal steps. *)
Lemma grid_shape (start stop : R) (n : Z) :
  (2 ≤ n)%Z →
  grid start stop n !! 0%nat = Some (Some start)
  ∧ grid start stop n !! (Z.to_nat n - 1)%nat = Some (Some stop)
  ∧ ∀ (i : nat) (a b : R),
      grid start stop n !! i = Some (Some a) →
      grid start stop n !! S i = Some (Some b) →
      b - a = (stop - start) / (IZR n - 1).
Proof.
  intros Hn. assert (Hn' : 2 <= IZR n) by (apply IZR_le in Hn; lra).
  repeat split.
  - rewrite grid_lookup by lia. do 2 f_equal. cbn [INR]. lra.
  - rewrite grid_lookup by lia. do 2 f_equal.
    rewrite INR_IZR_INZ, Nat2Z.inj_sub, Z2Nat.id, minus_IZR by lia.
    field. lra.
  - intros i a b Ha Hb.
    apply grid_lookup_inv in Ha. apply grid_lookup_inv in Hb.
    rewrite S_INR in Hb.
    injection Ha as ->. injection Hb as ->. field. lra.
Qed.

(** C9 in ideal arithmetic.  The time grid of a generated pulse has [n]
    samples, the first [-t_span / 2], the last [t_span / 2], neighbours
    [t_span / (n - 1)] apart, while the step stored as [dt], on which the
    frequency grid is built, is [t_span / n]: the two differ for every
    span and every [n] from 2 on. *)
Theorem time_grid_spacing (fwhm l_0 : num) (t_span : R) (n : Z)
    (domain : string) (self self0 : calc num) :
  generate_pulse fwhm l_0 (Some t_span) (Some n) domain self = Ok self0 →
  (2 ≤ n)%Z → t_span ≠ 0 →
  length (self_t self0) = Z.to_nat n
  ∧ self_t self0 !! 0%nat = Some (Some (- t_span / 2))
  ∧ self_t self0 !! (Z.to_nat n - 1)%nat = Some (Some (t_span / 2))
  ∧ (∀ (i : nat) (a b : R),
       self_t self0 !! i = Some (Some a) →
       self_t self0 !! S i = Some (Some b) →
       b - a = t_span / (IZR n - 1))
  ∧ self_dt self0 = Some (t_span / IZR n)
  ∧ t_span / (IZR n - 1) ≠ t_span / IZR n.
Proof.
  intros Hrun Hn Ht.
  apply generate_pulse_grid in Hrun as (Hgrid & Hdt & _).
  change (default (self_N self) (Some n)) with n in Hgrid, Hdt.
  assert (Hn' : 2 <= IZR n) by (apply IZR_le in Hn; lra).
  assert (Ht0 : self_t self0 = grid (- t_span / 2) (t_span / 2) n).
  { ideal_literals in Hgrid. cbn [fneg float64 lift1] in Hgrid.
    rewrite !div_some in Hgrid by lra.
    rewrite linspace_grid in Hgrid by exact Hn.
    injection Hgrid as <-. f_equal; field. }
  rewrite Ht0.
  destruct (grid_shape (- t_span / 2) (t_span / 2) n Hn)
    as (Hfirst & Hlast & Hstep).
  split; [apply grid_length|]. split; [exact Hfirst|]. split; [exact Hlast|].
  split; [|split].
  - intros i a b Ha Hb. rewrite (Hstep i a b Ha Hb). field. lra.
  - rewrite of_int_some, py_div_some in Hdt by lra.
    injection Hdt as <-. f_equal. field. lra.
  - intros Heq. apply Ht.
    assert (Hcross : t_span * IZR n = t_span * (IZR n - 1)).
    { apply (Rmult_eq_compat_r (IZR n * (IZR n - 1))) in Heq.
      field_simplify in Heq; lra. }
    lra.
Qed.

Lemma init_fields_ideal (l_0 t_span : R) (cat : gmap string (num → num)) :
  l_0 ≠ 0 → t_span ≠ 0 →
  ∃ self, init_fields (Some l_0) (Some t_span) cat = Ok self
          ∧ self_c self = Some (299792458 / 1)
          ∧ self_N self = 8192%Z
          ∧ self_materials self = cat.
Proof.
  intros Hl Ht. unfold init_fields. cbv zeta.
  ideal_literals. cbn [fmul float64 lift2 fpi].
  rewrite (py_div_some _ l_0) by exact Hl. cbn [mbind result_bind].
  rewrite (py_div_some t_span) by lra. cbn [mbind result_bind].
  destruct (np_linspace_Ok (fneg (Some t_span) /. Some (2 / 1))
              (Some t_span /. Some (2 / 1)) 8192 ltac:(lia)) as [t Hgrid].
  rewrite Hgrid. cbn [mbind result_bind].
  destruct (fftfreq_some 8192 (t_span / (8192 / 1))) as [freq Hfreq]; [lra| |].
  { intros Hzero. apply Ht.
    replace t_span with (t_span / (8192 / 1) * 8192) by field.
    rewrite Hzero. lra. }
  rewrite Hfreq. cbn [mbind result_bind].
  eexists. split; [reflexivity|]. repeat split.
Qed.

(** A pulse generated with the number of samples the object has. *)
Lemma generate_pulse_default_n (fwhm l_0 t_span : num) (domain : string)
    (self : calc num) :
  generate_pulse fwhm l_0 t_span None domain self
  = generate_pulse fwhm l_0 t_span (Some (self_N self)) domain self.
Proof. reflexivity. Qed.

(** The constructor returns, with its 8192 samples and the catalogue. *)
Lemma init_ideal (t_fwhm l_0 t_span : R) (cat : gmap string (num → num)) :
  l_0 ≠ 0 → t_span ≠ 0 →
  ∃ self, init (Some t_fwhm) (Some l_0) (Some t_span) cat = Ok self
          ∧ self_c self = Some (299792458 / 1)
          ∧ self_N self = 8192%Z
          ∧ self_materials self = cat.
Proof.
  intros Hl Ht.
  destruct (init_fields_ideal l_0 t_span cat Hl Ht)
    as (pre & Hinit & Hc & HN & Hcat).
  destruct (generate_pulse_ideal t_fwhm l_0 t_span (299792458 / 1) 8192
              "temporal" pre Hc Hl Ht ltac:(lia) ltac:(left; reflexivity))
    as [self Hgen].
  rewrite <- HN, <- generate_pulse_default_n in Hgen.
  exists self. unfold init. rewrite Hinit. cbn [mbind result_bind].
  split; [exact Hgen|].
  destruct (generate_pulse_keeps _ _ _ _ _ _ _ Hgen) as (Hc' & _ & Hcat').
  destruct (generate_pulse_grid _ _ _ _ _ _ _ Hgen) as (_ & _ & HN').
  split; [congruence|]. split; [|congruence].
  rewrite HN'. exact HN.
Qed.

Lemma time_grid_spacing_witness :
  ∃ self self0 : calc num,
    init (Some (50 / 10 ^ 15)) (Some (800 / 10 ^ 9)) (Some (2 / 10 ^ 12))
      catalogue = Ok self
    ∧ generate_pulse (Some (50 / 10 ^ 15)) (Some (800 / 10 ^ 9))
        (Some (2 / 10 ^ 12)) (Some 8192%Z) "temporal" self = Ok self0
    ∧ length (self_t self0) = Z.to_nat 8192
    ∧ self_dt self0 = Some (2 / 10 ^ 12 / 8192).
Proof.
  destruct (init_ideal (50 / 10 ^ 15) (800 / 10 ^ 9) (2 / 10 ^ 12) catalogue)
    as (self & Hinit & Hc & _); [lra | lra |].
  destruct (generate_pulse_ideal (50 / 10 ^ 15) (800 / 10 ^ 9) (2 / 10 ^ 12)
              (299792458 / 1) 8192 "temporal" self Hc)
    as [self0 Hgen]; [lra | lra | lia | left; reflexivity |].
  exists self, self0. split; [exact Hinit|]. split; [exact Hgen|].
  destruct (time_grid_spacing _ _ _ _ _ _ _ Hgen) as (Hlen & _ & _ & _ & Hdt & _);
    [lia | lra |].
  split; [exact Hlen | exact Hdt].
Defined.

Lemma reset_propagation_round_trip_witness :
  ∃ self self0 self1 : calc num,
    init (Some (50 / 10 ^ 15)) (Some (800 / 10 ^ 9)) (Some (2 / 10 ^ 12))
      catalogue = Ok self
    ∧ generate_pulse (Some (50 / 10 ^ 15)) (Some (800 / 10 ^ 9))
        (Some (2 / 10 ^ 12)) None "temporal" self = Ok self0
    ∧ propagate_all [("fs"%string, Some (1 / 1000));
                     ("bk7"%string, Some (1 / 100));
                     ("air"%string, Some 1)] self0 = Ok self1
    ∧ self_E_t_out (reset_propagation self1) = self_E_t self0
    ∧ self_E_w_out (reset_propagation self1) = self_E_w self0
    ∧ observe true (reset_propagation self1) = observe true self0.
Proof.
  destruct (init_ideal (50 / 10 ^ 15) (800 / 10 ^ 9) (2 / 10 ^ 12) catalogue)
    as (self & Hinit & Hc & HN & _); [lra | lra |].
  destruct (generate_pulse_ideal (50 / 10 ^ 15) (800 / 10 ^ 9) (2 / 10 ^ 12)
              (299792458 / 1) 8192 "temporal" self Hc)
    as [self0 Hgen]; [lra | lra | lia | left; reflexivity |].
  assert (Hgen' : generate_pulse (Some (50 / 10 ^ 15)) (Some (800 / 10 ^ 9))
                    (Some (2 / 10 ^ 12)) None "temporal" self = Ok self0).
  { rewrite generate_pulse_default_n, HN. exact Hgen. }
  destruct (propagate_all_total
              [("fs"%string, Some (1 / 1000)); ("bk7"%string, Some (1 / 100));
               ("air"%string, Some 1)] self0
              (generate_pulse_generated _ _ _ _ _ _ _ Hgen'))
    as (self1 & Hcalls & _).
  exists self, self0, self1.
  split; [exact Hinit|]. split; [exact Hgen'|]. split; [exact Hcalls|].
  exact (reset_propagation_round_trip _ _ _ _ _ _ _ _ _ true Hgen' Hcalls).
Defined.

Lemma propagate_unknown_material_witness :
  ∃ self' : calc num,
    propagate_material "bk7" (Some (1 / 100)) bench = Ok self'
    ∧ self' = bench
    ∧ self_E_t_out self' = self_E_t_out bench
    ∧ self_E_w_out self' = self_E_w_out bench.
Proof. apply propagate_unknown_material. reflexivity. Defined.

Lemma duration_domain_defaults_to_spectral_witness :
  generate_pulse (Some (3 / 10 ^ 9)) (Some (800 / 10 ^ 9)) (Some (2 / 10 ^ 12))
    None "Spectral" bench
  = generate_pulse (Some (3 / 10 ^ 9)) (Some (800 / 10 ^ 9)) (Some (2 / 10 ^ 12))
      None "spectral" bench.
Proof.
  apply (duration_domain_defaults_to_spectral "Spectral"). discriminate.
Defined.

(** *** The band of a material *)

Lemma bench_generated : generated bench.
Proof. split; [reflexivity | discriminate]. Qed.

Lemma band_below (lo hi : R) (index : R → R) (x : R) :
  x < lo → band lo hi index (Some x) = None.
Proof.
  intros Hx. unfold band. destruct (Rle_dec lo x); [lra | reflexivity].
Qed.

Lemma band_above (lo hi : R) (index : R → R) (x : R) :
  hi < x → band lo hi index (Some x) = None.
Proof.
  intros Hx. unfold band.
  destruct (Rle_dec lo x); [|reflexivity].
  destruct (Rle_dec x hi); [lra | reflexivity].
Qed.

Lemma catalogue_fs :
  catalogue !! "fs"%string
  = Some (band (w_of (2000 / 10 ^ 9)) (w_of (200 / 10 ^ 9)) (fun _ => 145 / 100)).
Proof. reflexivity. Qed.

(** *** Three samples (C5) *)

Lemma twiddle_3_0 (sgn : R) : twiddle sgn 0 3 = (Some 1, Some (sgn * 0)).
Proof.
  unfold twiddle. cbn [INR].
  replace (2 * PI * 0 / (1 + 1 + 1)) with 0 by field.
  rewrite cos_0, sin_0. reflexivity.
Qed.

Lemma twiddle_3_1 (sgn : R) :
  twiddle sgn 1 3 = (Some (- 1 / 2), Some (sgn * (R_sqrt.sqrt 3 / 2))).
Proof.
  unfold twiddle. cbn [INR].
  replace (2 * PI * 1 / (1 + 1 + 1)) with (2 * (PI / 3)) by field.
  rewrite cos_2PI3, sin_2PI3. reflexivity.
Qed.

Lemma twiddle_3_2 (sgn : R) :
  twiddle sgn 2 3 = (Some (- 1 / 2), Some (sgn * (- (R_sqrt.sqrt 3 / 2)))).
Proof.
  unfold twiddle. cbn [INR].
  replace (2 * PI * (1 + 1) / (1 + 1 + 1)) with (PI / 3 + PI) by field.
  rewrite neg_cos, neg_sin, cos_PI3, sin_PI3.
  do 3 f_equal. lra.
Qed.

Lemma dft_3 (sgn : R) (x0 x1 x2 : complex num) :
  dft sgn [x0; x1; x2]
  = [csum [cmul x0 (twiddle sgn 0 3); cmul x1 (twiddle sgn 0 3);
           cmul x2 (twiddle sgn 0 3)];
     csum [cmul x0 (twiddle sgn 0 3); cmul x1 (twiddle sgn 1 3);
           cmul x2 (twiddle sgn 2 3)];
     csum [cmul x0 (twiddle sgn 0 3); cmul x1 (twiddle sgn 2 3);
           cmul x2 (twiddle sgn 1 3)]].
Proof. reflexivity. Qed.

(** Three real samples, transformed, reordered twice and transformed
    back: the middle sample comes back turned by a third of a circle. *)
Lemma reorder_twice_3 (a b c : R) :
  idft (fftshift (fftshift (dft (-1) [of_real (Some a); of_real (Some b);
                                      of_real (Some c)]))) !! 1%nat
  = Some (Some (- b / 2), Some (- (b * R_sqrt.sqrt 3 / 2))).
Proof.
  rewrite dft_3.
  change (fftshift (fftshift [?x; ?y; ?z])) with [y; z; x].
  unfold idft. rewrite dft_3. cbn [length map lookup list_lookup].
  rewrite !twiddle_3_0, !twiddle_3_1, !twiddle_3_2.
  unfold csum, cmul, cadd, czero, cdiv_real, of_real. ideal_literals.
  cbn [foldr fst snd fadd fsub fmul float64 lift2 INR].
  rewrite !div_some by lra.
  pose proof (sqrt_sqrt 3 ltac:(lra)) as Hs.
  set (s := R_sqrt.sqrt 3). fold s in Hs.
  assert (Hs2 : s ^ 2 = 3) by (rewrite <- Hs; ring).
  f_equal. f_equal; f_equal.
  - field_simplify. rewrite Hs2. field.
  - field_simplify. rewrite ?Hs2. field.
Qed.

Lemma Ok_inj {A} (a b : A) : Ok a = Ok b → a = b.
Proof. intros [= ->]. reflexivity. Qed.

Lemma ln_2_pos : 0 < ln (2 / 1).
Proof.
  rewrite <- ln_1. apply ln_increasing; lra.
Qed.

Lemma pulse_tau_temporal (fwhm : R) (l_0 : num) (self : calc num) :
  pulse_tau self (Some fwhm) l_0 "temporal"
  = Ok (Some (fwhm / R_sqrt.sqrt (2 / 1 * ln (2 / 1)))).
Proof.
  unfold pulse_tau. cbn [String.eqb Ascii.eqb Bool.eqb]. ideal_literals.
  pose proof ln_2_pos as Hln.
  cbn [np_log numpy log fmul float64 lift2 fsqrt root].
  destruct (Rlt_dec 0 (2 / 1)) as [_|Hneg]; [|lra].
  cbn [lift2].
  unfold root.
  destruct (Rlt_dec (2 / 1 * ln (2 / 1)) 0) as [Hneg|_]; [nra|].
  rewrite div_some; [reflexivity|].
  apply Rgt_not_eq, sqrt_lt_R0. nra.
Qed.

Lemma gaussian_sample (x tau : R) :
  tau ≠ 0 →
  of_real (np_exp (fneg (fsqr (Some x)) /. fsqr (Some tau) +. f0))
  = of_real (Some (exp (- (x * x) / (tau * tau) + 0 / 1))).
Proof.
  intros Htau. unfold fsqr. ideal_literals.
  cbn [fmul fneg float64 lift1 lift2].
  rewrite div_some by nra. reflexivity.
Qed.

(** C5 at an odd number of samples.  With three samples, in ideal
    arithmetic, the arrays [generate_pulse] stores are no transform pair
    in the sense of [propagate_material]: the inverse transform of the
    reordered [E_w_out] is not [E_t_out]. *)
Theorem odd_grid_breaks_pair (fwhm l_0 t_span : R) (self self0 : calc num) :
  generate_pulse (Some fwhm) (Some l_0) (Some t_span) (Some 3%Z) "temporal" self
  = Ok self0 →
  fwhm ≠ 0 →
  ifft (fftshift (self_E_w_out self0)) ≠ Ok (self_E_t_out self0).
Proof.
  intros Hgen Hfwhm.
  apply generate_pulse_Ok in Hgen.
  destruct Hgen as (w_0 & dt & t & freq & tau & tau_2 & spectrum
                    & _ & _ & Hgrid & _ & Htau & Hfft & ->).
  change (default (self_N self) (Some 3%Z)) with 3%Z in Hgrid.
  destruct Htau as [Htau Htau2].
  rewrite pulse_tau_temporal in Htau. injection Htau as <-.
  rewrite tau_sqr_ideal in Htau2. apply Ok_inj in Htau2. subst tau_2.
  ideal_literals in Hgrid. cbn [fneg float64 lift1] in Hgrid.
  rewrite !div_some, linspace_grid in Hgrid by (lra || lia).
  injection Hgrid as <-.
  apply fft_Ok in Hfft as [_ ->].
  cbn [self_E_w_out self_E_t_out].
  unfold grid. change (seq 0 (Z.to_nat 3)) with [0; 1; 2]%nat. cbn [map].
  assert (Htau : fwhm / R_sqrt.sqrt (2 / 1 * ln (2 / 1)) ≠ 0).
  { pose proof ln_2_pos as Hln.
    assert (0 < R_sqrt.sqrt (2 / 1 * ln (2 / 1))) by (apply sqrt_lt_R0; nra).
    intros Hzero. apply Hfwhm.
    replace fwhm with (fwhm / R_sqrt.sqrt (2 / 1 * ln (2 / 1))
                       * R_sqrt.sqrt (2 / 1 * ln (2 / 1))) by (field; lra).
    rewrite Hzero. lra. }
  rewrite !gaussian_sample by exact Htau.
  cbn [np_fft np_ifft numpy].
  set (g0 := exp _). set (g1 := exp _). set (g2 := exp _).
  assert (Hifft :
    ifft (fftshift (fftshift (dft (-1)
            [of_real (Some g0); of_real (Some g1); of_real (Some g2)])))
    = Ok (idft (fftshift (fftshift (dft (-1)
            [of_real (Some g0); of_real (Some g1); of_real (Some g2)])))))
    by reflexivity.
  rewrite Hifft. intros Hpair. apply Ok_inj in Hpair.
  apply (f_equal (fun l => l !! 1%nat)) in Hpair.
  rewrite reorder_twice_3 in Hpair.
  change ([of_real (Some g0); of_real (Some g1); of_real (Some g2)] !! 1%nat)
    with (Some (Some g1, Some (0 / 1) : num)) in Hpair.
  injection Hpair as Hre _.
  pose proof (exp_pos (- ((- t_span / (2 / 1) + INR 1
                * ((t_span / (2 / 1) - - t_span / (2 / 1)) / (3 - 1)))
                * (- t_span / (2 / 1) + INR 1
                * ((t_span / (2 / 1) - - t_span / (2 / 1)) / (3 - 1))))
              / (fwhm / R_sqrt.sqrt (2 / 1 * ln (2 / 1))
                 * (fwhm / R_sqrt.sqrt (2 / 1 * ln (2 / 1)))) + 0 / 1)) as Hpos.
  fold g1 in Hpos. lra.
Qed.

Lemma odd_grid_breaks_pair_witness :
  ∃ self self0 : calc num,
    init (Some (50 / 10 ^ 15)) (Some (800 / 10 ^ 9)) (Some (2 / 10 ^ 12))
      catalogue = Ok self
    ∧ generate_pulse (Some (50 / 10 ^ 15)) (Some (800 / 10 ^ 9))
        (Some (2 / 10 ^ 12)) (Some 3%Z) "temporal" self = Ok self0
    ∧ ifft (fftshift (self_E_w_out self0)) ≠ Ok (self_E_t_out self0).
Proof.
  destruct (init_ideal (50 / 10 ^ 15) (800 / 10 ^ 9) (2 / 10 ^ 12) catalogue)
    as (self & Hinit & Hc & _); [lra | lra |].
  destruct (generate_pulse_ideal (50 / 10 ^ 15) (800 / 10 ^ 9) (2 / 10 ^ 12)
              (299792458 / 1) 3 "temporal" self Hc)
    as [self0 Hgen]; [lra | lra | lia | left; reflexivity |].
  exists self, self0. split; [exact Hinit|]. split; [exact Hgen|].
  apply (odd_grid_breaks_pair _ _ _ _ _ Hgen). lra.
Defined.

(** *** Two samples *)

Lemma twiddle_2_0 (sgn : R) : twiddle sgn 0 2 = (Some 1, Some (sgn * 0)).
Proof.
  unfold twiddle. cbn [INR].
  replace (2 * PI * 0 / (1 + 1)) with 0 by field.
  rewrite cos_0, sin_0. reflexivity.
Qed.

Lemma twiddle_2_1 (sgn : R) : twiddle sgn 1 2 = (Some (-1), Some (sgn * 0)).
Proof.
  unfold twiddle. cbn [INR].
  replace (2 * PI * 1 / (1 + 1)) with PI by field.
  rewrite cos_PI, sin_PI. reflexivity.
Qed.

Lemma dft_2 (sgn : R) (x0 x1 : complex num) :
  dft sgn [x0; x1]
  = [csum [cmul x0 (twiddle sgn 0 2); cmul x1 (twiddle sgn 0 2)];
     csum [cmul x0 (twiddle sgn 0 2); cmul x1 (twiddle sgn 1 2)]].
Proof. reflexivity. Qed.

(** Two real samples come back from the transform and its inverse. *)
Lemma idft_dft_2 (a b : R) :
  idft (dft (-1) [of_real (Some a); of_real (Some b)])
  = [of_real (Some a); of_real (Some b)].
Proof.
  rewrite dft_2. unfold idft. rewrite dft_2. cbn [length map].
  rewrite !twiddle_2_0, !twiddle_2_1.
  unfold csum, cmul, cadd, czero, cdiv_real, of_real. ideal_literals.
  cbn [foldr fst snd fadd fsub fmul float64 lift2 INR].
  rewrite !div_some by lra.
  f_equal; [f_equal; f_equal; field|].
  f_equal. f_equal; f_equal; field.
Qed.

(** With two samples the arrays of a generated pulse are a transform
    pair: the reorder undoes itself on an even length. *)
Lemma two_samples_pair (fwhm l_0 t_span : R) (self self0 : calc num) :
  generate_pulse (Some fwhm) (Some l_0) (Some t_span) (Some 2%Z) "temporal" self
  = Ok self0 →
  fwhm ≠ 0 →
  ifft (fftshift (self_E_w_out self0)) = Ok (self_E_t_out self0).
Proof.
  intros Hgen Hfwhm.
  assert (Hshape : ∃ a b : R,
            self_E_t_out self0 = [of_real (Some a); of_real (Some b)]).
  { apply generate_pulse_Ok in Hgen.
    destruct Hgen as (w_0 & dt & t & freq & tau & tau_2 & spectrum
                      & _ & _ & Hgrid & _ & Htau & _ & ->).
    change (default (self_N self) (Some 2%Z)) with 2%Z in Hgrid.
    destruct Htau as [Htau Htau2].
  rewrite pulse_tau_temporal in Htau. injection Htau as <-.
  rewrite tau_sqr_ideal in Htau2. apply Ok_inj in Htau2. subst tau_2.
    ideal_literals in Hgrid. cbn [fneg float64 lift1] in Hgrid.
    rewrite !div_some, linspace_grid in Hgrid by (lra || lia).
    injection Hgrid as <-. cbn [self_E_t_out].
    unfold grid. change (seq 0 (Z.to_nat 2)) with [0; 1]%nat. cbn [map].
    assert (Htau : fwhm / R_sqrt.sqrt (2 / 1 * ln (2 / 1)) ≠ 0).
    { pose proof ln_2_pos as Hln.
      assert (0 < R_sqrt.sqrt (2 / 1 * ln (2 / 1))) by (apply sqrt_lt_R0; nra).
      intros Hzero. apply Hfwhm.
      replace fwhm with (fwhm / R_sqrt.sqrt (2 / 1 * ln (2 / 1))
                         * R_sqrt.sqrt (2 / 1 * ln (2 / 1))) by (field; lra).
      rewrite Hzero. lra. }
    rewrite !gaussian_sample by exact Htau. eexists _, _. reflexivity. }
  destruct Hshape as (a & b & Hshape).
  apply (generate_pulse_pair_even _ _ _ _ _ _ _ Hgen).
  - rewrite Hshape. exists 1%nat. reflexivity.
  - rewrite Hshape. apply idft_dft_2.
Qed.
(** *** The exceptions of [generate_pulse] *)

Lemma py_div_zero (x : num) (y : R) :
  y = 0 → py_div x (Some y) = Raise ZeroDivisionError.
Proof. intros Hy. unfold py_div. rewrite eqb_zero_true by exact Hy. reflexivity. Qed.

Lemma generate_pulse_zero_wavelength (fwhm t_span : num) (n : option Z)
    (domain : string) (self : calc num) :
  generate_pulse fwhm (Some 0) t_span n domain self = Raise ZeroDivisionError.
Proof.
  unfold generate_pulse. rewrite py_div_zero by reflexivity. reflexivity.
Qed.

Lemma ideal_w_0 (c l_0 : R) (self : calc num) :
  self_c self = Some c → l_0 ≠ 0 →
  py_div (f2 *. fpi *. self_c self) (Some l_0) = Ok (Some (2 / 1 * PI * c / l_0)).
Proof.
  intros Hc Hl. rewrite Hc. ideal_literals. cbn [fmul float64 lift2 fpi].
  apply py_div_some. exact Hl.
Qed.

Lemma ideal_dt (t_span : R) (n : Z) :
  n ≠ 0%Z →
  py_div (Some t_span) (of_int n) = Ok (Some (t_span / (IZR n / 1))).
Proof.
  intros Hn. rewrite of_int_some. apply py_div_some.
  assert (IZR n ≠ 0) by (apply not_0_IZR; exact Hn). lra.
Qed.

(** X4.  The exceptions of [generate_pulse] in ideal arithmetic, in the
    order the code meets them: a zero wavelength raises
    [ZeroDivisionError]; then zero samples raise [ZeroDivisionError] and a
    negative number of samples raises [ValueError]; then a zero span
    raises [ZeroDivisionError], in [np.fft.fftfreq]; then, for a width in
    wavelength, a zero width (or speed of light) raises
    [ZeroDivisionError]; every other call returns. *)
Theorem generate_pulse_raises (fwhm l_0 t_span c : R) (n : Z)
    (domain : string) (self : calc num) :
  self_c self = Some c →
  (l_0 = 0 →
   generate_pulse (Some fwhm) (Some l_0) (Some t_span) (Some n) domain self
   = Raise ZeroDivisionError)
  ∧ (l_0 ≠ 0 → n = 0%Z →
     generate_pulse (Some fwhm) (Some l_0) (Some t_span) (Some n) domain self
     = Raise ZeroDivisionError)
  ∧ (l_0 ≠ 0 → (n < 0)%Z →
     generate_pulse (Some fwhm) (Some l_0) (Some t_span) (Some n) domain self
     = Raise ValueError)
  ∧ (l_0 ≠ 0 → (1 ≤ n)%Z → t_span = 0 →
     generate_pulse (Some fwhm) (Some l_0) (Some t_span) (Some n) domain self
     = Raise ZeroDivisionError)
  ∧ (l_0 ≠ 0 → (1 ≤ n)%Z → t_span ≠ 0 →
     domain ≠ "temporal"%string → fwhm * c = 0 →
     generate_pulse (Some fwhm) (Some l_0) (Some t_span) (Some n) domain self
     = Raise ZeroDivisionError)
  ∧ (l_0 ≠ 0 → (1 ≤ n)%Z → t_span ≠ 0 →
     domain = "temporal"%string ∨ fwhm * c ≠ 0 →
     ∃ self0,
       generate_pulse (Some fwhm) (Some l_0) (Some t_span) (Some n) domain self
       = Ok self0).
Proof.
  intros Hc. split; [|split; [|split; [|split; [|split]]]].
  - intros ->. apply generate_pulse_zero_wavelength.
  - intros Hl ->. unfold generate_pulse.
    rewrite (ideal_w_0 c l_0 self Hc Hl). cbn [mbind result_bind].
    change (default (self_N self) (Some 0%Z)) with 0%Z.
    rewrite of_int_some, py_div_zero by lra. reflexivity.
  - intros Hl Hn. unfold generate_pulse.
    rewrite (ideal_w_0 c l_0 self Hc Hl). cbn [mbind result_bind].
    change (default (self_N self) (Some n)) with n.
    rewrite ideal_dt by lia. cbn [mbind result_bind].
    unfold np_linspace. rewrite (proj2 (Z.ltb_lt n 0) Hn). reflexivity.
  - intros Hl Hn ->. unfold generate_pulse.
    rewrite (ideal_w_0 c l_0 self Hc Hl). cbn [mbind result_bind].
    change (default (self_N self) (Some n)) with n.
    rewrite ideal_dt by lia. cbn [mbind result_bind].
    destruct (np_linspace_Ok (fneg (Some 0) /. f2) (Some 0 /. f2) n ltac:(lia))
      as [t ->].
    cbn [mbind result_bind]. unfold np_fftfreq.
    rewrite of_int_some. cbn [fmul float64 lift2].
    rewrite py_div_zero; [reflexivity|].
    assert (IZR n ≠ 0) by (apply not_0_IZR; lia). field. lra.
  - intros Hl Hn Ht Hdom Hzero. unfold generate_pulse.
    rewrite (ideal_w_0 c l_0 self Hc Hl). cbn [mbind result_bind].
    change (default (self_N self) (Some n)) with n.
    rewrite ideal_dt by lia. cbn [mbind result_bind].
    destruct (np_linspace_Ok (fneg (Some t_span) /. f2) (Some t_span /. f2) n
                ltac:(lia)) as [t ->].
    cbn [mbind result_bind].
    assert (Hn' : IZR n ≠ 0) by (apply not_0_IZR; lia).
    destruct (fftfreq_some n (t_span / (IZR n / 1)) Hn') as [freq ->].
    { intros Hz. apply Ht.
      replace t_span with (t_span / (IZR n / 1) * IZR n) by (field; exact Hn').
      rewrite Hz. lra. }
    cbn [mbind result_bind]. unfold pulse_tau.
    rewrite (proj2 (String.eqb_neq domain "temporal") Hdom).
    rewrite py_sqr_ideal. cbn [mbind result_bind].
    rewrite Hc. cbn [fmul float64 lift2].
    rewrite py_div_zero by exact Hzero. reflexivity.
  - intros Hl Hn Ht Hdom.
    apply (generate_pulse_ideal fwhm l_0 t_span c n domain self Hc Hl Ht Hn Hdom).
Qed.

(** *** The frequency grid in ideal arithmetic *)

Lemma py_div_inv (x y : R) (q : num) :
  py_div (Some x) (Some y) = Ok q → y ≠ 0 ∧ q = Some (x / y).
Proof.
  intros Hq. destruct (Req_dec_T y 0) as [Hy|Hy].
  - rewrite py_div_zero in Hq by exact Hy. discriminate.
  - rewrite py_div_some in Hq by exact Hy. injection Hq as <-.
    split; [exact Hy | reflexivity].
Qed.

(** X3.  In ideal arithmetic the frequency grid of a generated pulse has
    [n] samples, sample [i] being [2 * pi * (i - n // 2) / t_span]: it
    ascends in steps of [2 * pi / t_span] and is zero at index
    [n // 2]. *)
Theorem frequency_grid (fwhm l_0 : num) (t_span : R) (n : Z)
    (domain : string) (self self0 : calc num) :
  generate_pulse fwhm l_0 (Some t_span) (Some n) domain self = Ok self0 →
  length (self_w self0) = Z.to_nat n
  ∧ (∀ i : nat, (i < Z.to_nat n)%nat →
       self_w self0 !! i
       = Some (Some (2 * PI * IZR (Z.of_nat i - n `div` 2) / t_span)))
  ∧ self_w self0 !! Z.to_nat (n `div` 2) = Some (Some 0).
Proof.
  intros Hgen.
  destruct (generate_pulse_grid _ _ _ _ _ _ _ Hgen) as (Hgrid & Hdt & HN).
  destruct (generate_pulse_w _ _ _ _ _ _ _ Hgen) as (val & Hval & Hw).
  change (default (self_N self) (Some n)) with n in Hgrid, Hdt, HN.
  rewrite HN in Hval, Hw.
  apply np_linspace_length in Hgrid as [Hn0 Hlen].
  rewrite of_int_some in Hdt. apply py_div_inv in Hdt as [Hn Hdt].
  rewrite Hdt, of_int_some in Hval. cbn [fmul float64 lift2] in Hval.
  ideal_literals in Hval. apply py_div_inv in Hval as [Hprod ->].
  assert (Hn' : IZR n ≠ 0) by lra.
  assert (Ht : t_span ≠ 0).
  { intros ->. apply Hprod. field. exact Hn'. }
  assert (Hpos : (1 ≤ n)%Z).
  { destruct (decide (n = 0)%Z) as [->|]; [exfalso; apply Hn'; reflexivity | lia]. }
  assert (Hlookup : ∀ i : nat, (i < Z.to_nat n)%nat →
            self_w self0 !! i
            = Some (Some (2 * PI * IZR (Z.of_nat i - n `div` 2) / t_span))).
  { intros i Hi. rewrite Hw, list_lookup_fmap.
    rewrite lookup_seqZ_lt by lia. cbn [fmap option_fmap option_map].
    rewrite of_int_some. ideal_literals. cbn [fmul float64 lift2 fpi].
    do 2 f_equal.
    replace (- n `div` 2 + Z.of_nat i)%Z with (Z.of_nat i - n `div` 2)%Z by lia.
    field. split; [exact Ht | exact Hn']. }
  split; [rewrite Hw, length_map, length_seqZ; reflexivity|].
  split; [exact Hlookup|].
  rewrite Hlookup by (Z.to_euclidean_division_equations; lia).
  do 2 f_equal.
  rewrite Z2Nat.id by (Z.to_euclidean_division_equations; lia).
  rewrite Z.sub_diag. field. exact Ht.
Qed.

(** *** Dispersion as a phase filter *)

Lemma magnitude_unit (theta : R) (e : complex num) :
  np_abs (cmul (Some (cos theta), Some (- sin theta)) e) = np_abs e.
Proof.
  destruct e as [[x|] [y|]]; unfold cmul; cbn; try reflexivity.
  do 2 f_equal.
  pose proof (sin2_cos2 theta) as Hunit. unfold Rsqr in Hunit.
  transitivity ((sin theta * sin theta + cos theta * cos theta) * (x * x + y * y));
    [ring | rewrite Hunit; ring].
Qed.

Lemma zip_with_unit_abs (H : list (complex num)) : ∀ E : list (complex num),
  length H = length E →
  Forall (fun h => ∃ theta, h = (Some (cos theta), Some (- sin theta))) H →
  map np_abs (zip_with cmul H E) = map np_abs E.
Proof.
  induction H as [|h H IH]; intros [|e E] Hlen Hunit; try discriminate;
    [reflexivity|].
  apply Forall_cons in Hunit as [[theta ->] Hunit].
  cbn [zip_with map]. rewrite magnitude_unit, IH; [reflexivity | | exact Hunit].
  simpl in Hlen. lia.
Qed.

Lemma intensity_abs (norm : bool) (E1 E2 : list (complex num)) :
  map np_abs E1 = map np_abs E2 → intensity norm E1 = intensity norm E2.
Proof.
  intros Habs.
  assert (Hlen : length E1 = length E2).
  { apply (f_equal length) in Habs. rewrite !length_map in Habs. exact Habs. }
  unfold intensity. rewrite Hlen, Habs.
  destruct (negb (length E2 =? 0)%nat); [|reflexivity].
  destruct (np_argmax (map np_abs E2)) as [ind|e]; [|reflexivity].
  cbn [mbind result_bind].
  assert (Hroll : ∀ s : Z,
            map (fun z : complex num => fsqr (np_abs z)) (np_roll E1 s)
            = map (fun z : complex num => fsqr (np_abs z)) (np_roll E2 s)).
  { intros s.
    rewrite <- !(map_map np_abs (fun x : num => fsqr x)), <- !np_roll_map, Habs.
    reflexivity. }
  rewrite Hroll. reflexivity.
Qed.

(** X9.  In ideal arithmetic a material is a phase filter: where the
    wavenumber is defined at every frequency sample, [propagate_material]
    leaves the magnitude of every spectral component, and so the spectral
    intensity, as it was. *)
Theorem propagation_keeps_spectrum (name : string) (n_ip : num → num) (d : R)
    (norm : bool) (self self' : calc num) :
  self_materials self !! name = Some n_ip →
  length (self_w self) = length (self_E_w_out self) →
  (∀ w : num, w ∈ self_w self → fisnan (wavenumber n_ip self w) = false) →
  propagate_material name (Some d) self = Ok self' →
  map np_abs (self_E_w_out self') = map np_abs (self_E_w_out self)
  ∧ get_spectral_intensity norm self' = get_spectral_intensity norm self.
Proof.
  intros Hname Hlen Hband Hrun.
  rewrite (propagate_known name n_ip) in Hrun by exact Hname.
  rewrite broadcast_same_length in Hrun
    by (rewrite transfer_map, length_map; exact Hlen).
  cbn [mbind result_bind] in Hrun. inv_bind Hrun. injection Hrun as <-.
  cbn [set_output self_E_w_out].
  assert (Habs : map np_abs (zip_with cmul (transfer n_ip (Some d) self)
                               (self_E_w_out self))
                 = map np_abs (self_E_w_out self)).
  { apply zip_with_unit_abs.
    - rewrite transfer_map, length_map. exact Hlen.
    - rewrite transfer_map. apply Forall_fmap, Forall_forall. intros w Hw.
      unfold compose. rewrite transfer_at_ideal.
      specialize (Hband w Hw).
      destruct (wavenumber n_ip self w) as [k|]; [|discriminate].
      exists (k * d). reflexivity. }
  split; [exact Habs|].
  unfold get_spectral_intensity. cbn [set_output self_E_w_out].
  apply intensity_abs. exact Habs.
Qed.

(** *** The order of the materials *)

Lemma cmul_assoc (a b e : complex num) :
  cmul a (cmul b e) = cmul (cmul a b) e.
Proof.
  destruct a as [[a1|] [a2|]], b as [[b1|] [b2|]], e as [[e1|] [e2|]];
    unfold cmul; cbn; try reflexivity.
  f_equal; f_equal; ring.
Qed.

Lemma cmul_comm (a b : complex num) : cmul a b = cmul b a.
Proof.
  destruct a as [[a1|] [a2|]], b as [[b1|] [b2|]];
    unfold cmul; cbn; try reflexivity.
  f_equal; f_equal; ring.
Qed.

(** X10.  In ideal arithmetic the order of two [propagate_material] calls
    does not matter: either order gives the same object or the same
    exception, for known and unknown names alike. *)
Theorem propagation_commutes (name1 name2 : string) (d1 d2 : num)
    (self : calc num) :
  propagate_material name1 d1 self ≫= propagate_material name2 d2
  = propagate_material name2 d2 self ≫= propagate_material name1 d1.
Proof.
  destruct (self_materials self !! name1) as [n1|] eqn:Hname1;
    [|apply propagate_skip_commutes; exact Hname1].
  destruct (self_materials self !! name2) as [n2|] eqn:Hname2;
    [|symmetry; apply propagate_skip_commutes; exact Hname2].
  rewrite (propagate_two name1 name2 n1 n2 d1 d2
             (fun w => cmul (transfer_at n2 d2 self w) (transfer_at n1 d1 self w)))
    by (assumption || (intros w e; apply cmul_assoc)).
  rewrite (propagate_two name2 name1 n2 n1 d2 d1
             (fun w => cmul (transfer_at n2 d2 self w) (transfer_at n1 d1 self w)))
    by (assumption
        || (intros w e; rewrite cmul_assoc, (cmul_comm (transfer_at n1 d1 self w));
            reflexivity)).
  reflexivity.
Qed.

(** *** No undefined number in the field (C3) *)

Lemma defined_parts (z : complex num) :
  cisnan z = false → ∃ x y : R, z = (Some x, Some y).
Proof. destruct z as [[x|] [y|]]; try discriminate. intros _. eauto. Qed.

Lemma cmul_defined (a b : complex num) :
  cisnan a = false → cisnan b = false → cisnan (cmul a b) = false.
Proof.
  intros (x & y & ->)%defined_parts (u & v & ->)%defined_parts. reflexivity.
Qed.

(** 0 times a number that is defined is 0. *)
Lemma cmul_czero_defined (e : complex num) :
  cisnan e = false → cmul czero e = czero.
Proof.
  intros (x & y & ->)%defined_parts. unfold cmul, czero. ideal_literals.
  cbn [fst snd fmul fsub fadd float64 lift2].
  f_equal; f_equal; lra.
Qed.

Lemma csum_defined (l : list (complex num)) :
  Forall (fun z => cisnan z = false) l → cisnan (csum l) = false.
Proof.
  induction 1 as [|z l Hz _ IH]; [reflexivity|].
  cbn [csum foldr]. fold (csum l).
  apply defined_parts in Hz as (x & y & ->).
  apply defined_parts in IH as (u & v & ->). reflexivity.
Qed.

(** The Fourier sums of defined numbers are defined. *)
Lemma dft_defined (sgn : R) (a : list (complex num)) :
  Forall (fun z => cisnan z = false) a →
  Forall (fun z => cisnan z = false) (dft sgn a).
Proof.
  intros Ha. unfold dft. cbv zeta. apply Forall_fmap, Forall_forall.
  intros k _. cbn [compose]. apply csum_defined, Forall_lookup_2.
  intros j z. rewrite list_lookup_imap.
  destruct (a !! j) as [x|] eqn:Hx; [|discriminate].
  intros [= <-]. apply cmul_defined; [|reflexivity].
  exact (Forall_lookup_1 _ _ _ _ Ha Hx).
Qed.

Lemma idft_defined (a : list (complex num)) :
  a ≠ [] →
  Forall (fun z => cisnan z = false) a →
  Forall (fun z => cisnan z = false) (idft a).
Proof.
  intros Hne Ha. unfold idft. apply Forall_fmap.
  eapply Forall_impl; [apply dft_defined, Ha|].
  intros z (x & y & ->)%defined_parts. cbn [compose].
  unfold cdiv_real. cbn [fst snd].
  rewrite !div_some by (apply not_0_INR; destruct a; [congruence | discriminate]).
  reflexivity.
Qed.

Lemma np_roll_Forall {A} (P : A → Prop) (a : list A) (shift : Z) :
  Forall P a → Forall P (np_roll a shift).
Proof.
  intros Ha. unfold np_roll. cbv zeta. apply Forall_app.
  split; [apply Forall_drop | apply Forall_take]; exact Ha.
Qed.

Lemma zip_with_cmul_defined (H : list (complex num)) :
  ∀ E : list (complex num),
  Forall (fun z => cisnan z = false) H →
  Forall (fun z => cisnan z = false) E →
  Forall (fun z => cisnan z = false) (zip_with cmul H E).
Proof.
  induction H as [|h H IH]; intros [|e E] HH HE; cbn [zip_with];
    try constructor.
  - apply cmul_defined; [exact (Forall_inv HH) | exact (Forall_inv HE)].
  - apply IH; [exact (Forall_inv_tail HH) | exact (Forall_inv_tail HE)].
Qed.

(** A call for a known material keeps the field free of undefined
    numbers. *)
Lemma propagate_defined (name : string) (n_ip : num → num) (thickness : num)
    (self : calc num) :
  generated self →
  self_materials self !! name = Some n_ip →
  Forall (fun e => cisnan e = false) (self_E_w_out self) →
  ∃ E_t_out : list (complex num),
    propagate_material name thickness self
    = Ok (set_output E_t_out
            (zip_with cmul (transfer n_ip thickness self) (self_E_w_out self))
            self)
    ∧ Forall (fun e => cisnan e = false)
        (zip_with cmul (transfer n_ip thickness self) (self_E_w_out self))
    ∧ Forall (fun e => cisnan e = false) E_t_out.
Proof.
  intros Hgen Hname HE.
  destruct (propagate_generated name n_ip thickness self Hgen Hname)
    as (E_t_out & Hrun & Hifft).
  exists E_t_out. split; [exact Hrun|].
  pose proof (zip_with_cmul_defined _ _
                (transfer_not_nan n_ip thickness self) HE) as HEw.
  split; [exact HEw|].
  unfold ifft in Hifft.
  destruct (fftshift _) as [|z E'] eqn:Hshift; [discriminate|].
  injection Hifft as <-. cbn [np_ifft numpy].
  apply idft_defined; [discriminate|].
  rewrite <- Hshift. apply np_roll_Forall. exact HEw.
Qed.

(** C3.  In ideal arithmetic, on a generated pulse whose spectrum holds
    no undefined number, and for a known material and any thickness:
    [propagate_material] returns; at every frequency sample where the
    index lookup is undefined (NaN) the transfer function is exactly 0
    and the spectral component written to [E_w_out] is 0; and no
    undefined number is in the transfer function, in the new [E_w_out]
    or in the new [E_t_out].  The object is again a generated pulse
    with such a spectrum. *)
Theorem undefined_index_never_written (name : string) (n_ip : num → num)
    (thickness : num) (self : calc num) :
  generated self →
  self_materials self !! name = Some n_ip →
  Forall (fun e => cisnan e = false) (self_E_w_out self) →
  ∃ self',
    propagate_material name thickness self = Ok self'
    ∧ (∀ (i : nat) (w : num),
         self_w self !! i = Some w →
         fisnan (n_ip (w +. self_w_0 self)%f64) = true →
         transfer n_ip thickness self !! i = Some czero
         ∧ self_E_w_out self' !! i = Some czero)
    ∧ Forall (fun h => cisnan h = false) (transfer n_ip thickness self)
    ∧ Forall (fun e => cisnan e = false) (self_E_w_out self')
    ∧ Forall (fun e => cisnan e = false) (self_E_t_out self')
    ∧ generated self'.
Proof.
  intros Hgen Hname HE.
  destruct (propagate_defined name n_ip thickness self Hgen Hname HE)
    as (E_t_out & Hrun & HEw & HEt).
  eexists. split; [exact Hrun|].
  assert (Hgen' : generated
            (set_output E_t_out
               (zip_with cmul (transfer n_ip thickness self) (self_E_w_out self))
               self)).
  { destruct (propagate_material_total name thickness self Hgen)
      as (self1 & Hrun1 & Hgen1).
    rewrite Hrun in Hrun1. injection Hrun1 as <-. exact Hgen1. }
  cbn [set_output self_E_w_out self_E_t_out].
  split; [|split; [apply transfer_not_nan
                  | split; [exact HEw | split; [exact HEt | exact Hgen']]]].
  intros i w Hw Hnan.
  assert (Hzero : transfer n_ip thickness self !! i = Some czero).
  { rewrite transfer_map, list_lookup_fmap, Hw.
    cbn [fmap option_fmap option_map].
    rewrite transfer_at_nan by exact Hnan. reflexivity. }
  split; [exact Hzero|].
  destruct (lookup_lt_is_Some_2 (self_E_w_out self) i) as [e He].
  { rewrite <- (proj1 Hgen). apply lookup_lt_Some in Hw. exact Hw. }
  rewrite lookup_zip_with, Hzero. cbn [mbind option_bind]. rewrite He.
  cbn [mbind option_bind]. f_equal. apply cmul_czero_defined.
  exact (Forall_lookup_1 _ _ _ _ HE He).
Qed.

(** Whatever the calls, they keep the field of a generated pulse free of
    undefined numbers. *)
Lemma propagate_all_defined (calls : list (call num)) : ∀ self : calc num,
  generated self →
  Forall (fun e => cisnan e = false) (self_E_w_out self) →
  Forall (fun e => cisnan e = false) (self_E_t_out self) →
  ∃ self',
    propagate_all calls self = Ok self'
    ∧ generated self'
    ∧ Forall (fun e => cisnan e = false) (self_E_w_out self')
    ∧ Forall (fun e => cisnan e = false) (self_E_t_out self').
Proof.
  induction calls as [|[name thickness] calls IH]; intros self Hgen HEw HEt.
  - exists self. split; [reflexivity|]. split; [exact Hgen|]. split; assumption.
  - destruct (propagate_material_total name thickness self Hgen)
      as (self1 & Hrun & Hgen1).
    assert (Hdefined :
      Forall (fun e => cisnan e = false) (self_E_w_out self1)
      ∧ Forall (fun e => cisnan e = false) (self_E_t_out self1)).
    { destruct (self_materials self !! name) as [n_ip|] eqn:Hname.
      - destruct (propagate_defined name n_ip thickness self Hgen Hname HEw)
          as (E_t_out & Hrun' & HEw' & HEt').
        rewrite Hrun in Hrun'. apply Ok_inj in Hrun'. subst self1.
        split; assumption.
      - rewrite propagate_material_skips in Hrun by exact Hname.
        apply Ok_inj in Hrun. subst self1. split; assumption. }
    destruct Hdefined as [HEw1 HEt1].
    destruct (IH self1 Hgen1 HEw1 HEt1) as (self2 & Hrest & Hgen2 & HEw2 & HEt2).
    exists self2. split; [|split; [exact Hgen2|]; split; assumption].
    simpl. rewrite Hrun. exact Hrest.
Qed.

(** The time grid holds no undefined number. *)
Lemma linspace_defined (start stop : R) (n : Z) (t : list num) :
  np_linspace (Some start) (Some stop) n = Ok t →
  Forall (fun x : num => fisnan x = false) t.
Proof.
  destruct (Z_lt_le_dec n 2) as [Hsmall|Hbig].
  - unfold np_linspace. destruct (n <? 0)%Z; [discriminate|].
    rewrite (proj2 (Z.ltb_ge 1 n)) by lia.
    intros [= <-].
    apply Forall_fmap, Forall_fmap, Forall_fmap, Forall_forall.
    intros i _. reflexivity.
  - rewrite linspace_grid by exact Hbig. intros [= <-].
    unfold grid. apply Forall_fmap, Forall_forall. intros i _. reflexivity.
Qed.

(** The Gaussian time constant of a pulse that was generated from
    numbers: it is defined, and so is its square, which is not zero
    unless a width in time is. *)
Lemma pulse_tau_defined (fwhm l_0 c : R) (domain : string) (self : calc num)
    (tau tau_2 : num) :
  self_c self = Some c → l_0 ≠ 0 →
  (domain = "temporal"%string → fwhm ≠ 0) →
  pulse_tau self (Some fwhm) (Some l_0) domain = Ok tau →
  tau_sqr domain tau = Ok tau_2 →
  ∃ q : R, tau_2 = Some q ∧ q ≠ 0.
Proof.
  intros Hc Hl Hfwhm Htau Htau2.
  rewrite tau_sqr_ideal in Htau2. apply Ok_inj in Htau2. subst tau_2.
  destruct (String.eqb domain "temporal") eqn:Hdom.
  - apply String.eqb_eq in Hdom. subst domain.
    rewrite pulse_tau_temporal in Htau. apply Ok_inj in Htau. subst tau.
    eexists. split; [reflexivity|].
    pose proof ln_2_pos as Hln.
    assert (Hroot : 0 < R_sqrt.sqrt (2 / 1 * ln (2 / 1)))
      by (apply sqrt_lt_R0; nra).
    assert (Hq : fwhm / R_sqrt.sqrt (2 / 1 * ln (2 / 1)) ≠ 0).
    { unfold Rdiv. apply Rmult_integral_contrapositive_currified;
        [apply Hfwhm; reflexivity | apply Rinv_neq_0_compat; lra]. }
    apply Rmult_integral_contrapositive_currified; exact Hq.
  - unfold pulse_tau in Htau. rewrite Hdom, py_sqr_ideal in Htau.
    cbn [mbind result_bind] in Htau. rewrite Hc in Htau.
    ideal_literals in Htau. cbn [fmul float64 lift2] in Htau.
    apply py_div_inv in Htau as [Hden ->].
    eexists. split; [reflexivity|].
    assert (Hq : 441 / 1000 * (l_0 * l_0) / (fwhm * c) ≠ 0).
    { unfold Rdiv at 1. apply Rmult_integral_contrapositive_currified;
        [|apply Rinv_neq_0_compat; exact Hden].
      apply Rmult_integral_contrapositive_currified; [lra|].
      apply Rmult_integral_contrapositive_currified; exact Hl. }
    apply Rmult_integral_contrapositive_currified; exact Hq.
Qed.

(** A pulse generated from numbers holds no undefined number, where the
    speed of light is a number and a width in time is not zero. *)
Lemma generate_pulse_defined (fwhm l_0 t_span c : R) (n : option Z)
    (domain : string) (self self0 : calc num) :
  self_c self = Some c →
  (domain = "temporal"%string → fwhm ≠ 0) →
  generate_pulse (Some fwhm) (Some l_0) (Some t_span) n domain self = Ok self0 →
  self_w_0 self0 = Some (2 / 1 * PI * c / l_0)
  ∧ Forall (fun e => cisnan e = false) (self_E_t_out self0)
  ∧ Forall (fun e => cisnan e = false) (self_E_w_out self0).
Proof.
  intros Hc Hfwhm Hgen. apply generate_pulse_Ok in Hgen.
  destruct Hgen as (w_0 & dt & t & freq & tau & tau_2 & spectrum
                    & Hw0 & _ & Hgrid & _ & [Htau Htau2] & Hfft & ->).
  rewrite Hc in Hw0. ideal_literals in Hw0.
  cbn [fmul float64 lift2 fpi] in Hw0.
  apply py_div_inv in Hw0 as [Hl ->].
  destruct (pulse_tau_defined fwhm l_0 c domain self tau tau_2
              Hc Hl Hfwhm Htau Htau2) as (q & -> & Hq).
  ideal_literals in Hgrid. cbn [fneg float64 lift1] in Hgrid.
  rewrite !div_some in Hgrid by lra.
  apply linspace_defined in Hgrid.
  apply fft_Ok in Hfft as [_ ->].
  cbn [self_w_0 self_E_t_out self_E_w_out].
  assert (HE : Forall (fun e : complex num => cisnan e = false)
                 (map (fun x : num =>
                         of_real (np_exp (fneg (fsqr x) /. Some q +. f0)%f64))
                    t)).
  { apply Forall_fmap. eapply Forall_impl; [exact Hgrid|].
    intros [x|] Hx; [|discriminate]. cbn [compose].
    unfold fsqr. cbn [fmul fneg float64 lift1 lift2].
    rewrite div_some by exact Hq. reflexivity. }
  split; [reflexivity|]. split; [exact HE|].
  apply np_roll_Forall. cbn [np_fft numpy]. apply dft_defined. exact HE.
Qed.

(** The frequency sample [i] of a generated pulse. *)
Lemma frequency_sample (fwhm l_0 : num) (t_span : R) (n : Z)
    (domain : string) (self self0 : calc num) (i : nat) :
  generate_pulse fwhm l_0 (Some t_span) (Some n) domain self = Ok self0 →
  (i < Z.to_nat n)%nat →
  self_w self0 !! i
  = Some (Some (2 * PI * IZR (Z.of_nat i - n `div` 2) / t_span)).
Proof.
  intros Hgen Hi.
  destruct (generate_pulse_grid _ _ _ _ _ _ _ Hgen) as (Hgrid & Hdt & HN).
  destruct (generate_pulse_w _ _ _ _ _ _ _ Hgen) as (val & Hval & Hw).
  change (default (self_N self) (Some n)) with n in Hgrid, Hdt, HN.
  rewrite HN in Hval, Hw.
  rewrite of_int_some in Hdt. apply py_div_inv in Hdt as [Hn Hdt].
  rewrite Hdt, of_int_some in Hval. cbn [fmul float64 lift2] in Hval.
  ideal_literals in Hval. apply py_div_inv in Hval as [Hprod ->].
  assert (Hn' : IZR n ≠ 0) by lra.
  assert (Ht : t_span ≠ 0).
  { intros ->. apply Hprod. field. exact Hn'. }
  rewrite Hw, list_lookup_fmap.
  rewrite lookup_seqZ_lt by lia. cbn [fmap option_fmap option_map].
  rewrite of_int_some. ideal_literals. cbn [fmul float64 lift2 fpi].
  do 2 f_equal.
  replace (- n `div` 2 + Z.of_nat i)%Z with (Z.of_nat i - n `div` 2)%Z by lia.
  field. split; [exact Ht | exact Hn'].
Qed.

(** The first pulse of an object, with the default 8192 samples. *)
Lemma init_pulse (t_fwhm l_0 t_span : R) (cat : gmap string (num → num)) :
  l_0 ≠ 0 → t_span ≠ 0 →
  ∃ pre self : calc num,
    self_c pre = Some (299792458 / 1)
    ∧ self_materials pre = cat
    ∧ generate_pulse (Some t_fwhm) (Some l_0) (Some t_span) (Some 8192%Z)
        "temporal" pre = Ok self
    ∧ init (Some t_fwhm) (Some l_0) (Some t_span) cat = Ok self.
Proof.
  intros Hl Ht.
  destruct (init_fields_ideal l_0 t_span cat Hl Ht)
    as (pre & Hinit & Hc & HN & Hcat).
  destruct (generate_pulse_ideal t_fwhm l_0 t_span (299792458 / 1) 8192
              "temporal" pre Hc Hl Ht ltac:(lia) ltac:(left; reflexivity))
    as [self Hgen].
  exists pre, self. split; [exact Hc|]. split; [exact Hcat|].
  split; [exact Hgen|].
  unfold init. rewrite Hinit. cbn [mbind result_bind].
  rewrite generate_pulse_default_n, HN. exact Hgen.
Qed.

Lemma undefined_index_never_written_witness :
  ∃ (self self' : calc num) (n_ip : num → num) (w : num),
    init (Some (50 / 10 ^ 15)) (Some (800 / 10 ^ 9)) (Some (2 / 10 ^ 12))
      catalogue = Ok self
    ∧ self_materials self !! "fs"%string = Some n_ip
    ∧ self_w self !! 0%nat = Some w
    ∧ fisnan (n_ip (w +. self_w_0 self)%f64) = true
    ∧ propagate_material "fs" (Some (1 / 1000)) self = Ok self'
    ∧ self_E_w_out self' !! 0%nat = Some czero
    ∧ Forall (fun e => cisnan e = false) (self_E_w_out self')
    ∧ Forall (fun e => cisnan e = false) (self_E_t_out self').
Proof.
  destruct (init_pulse (50 / 10 ^ 15) (800 / 10 ^ 9) (2 / 10 ^ 12) catalogue)
    as (pre & self & Hc & Hcat & Hgen & Hinit); [lra | lra |].
  destruct (generate_pulse_defined (50 / 10 ^ 15) _ _ _ _ _ _ _ Hc
              ltac:(intros _; lra) Hgen) as (Hw0 & _ & HE).
  pose proof (generate_pulse_generated _ _ _ _ _ _ _ Hgen) as Hgenerated.
  destruct (generate_pulse_keeps _ _ _ _ _ _ _ Hgen) as (_ & _ & Hmat).
  assert (Hfs : self_materials self !! "fs"%string
                = Some (band (w_of (2000 / 10 ^ 9)) (w_of (200 / 10 ^ 9))
                          (fun _ => 145 / 100))).
  { rewrite Hmat, Hcat. exact catalogue_fs. }
  pose proof (frequency_sample _ _ _ _ _ _ _ 0%nat Hgen ltac:(lia)) as Hw.
  assert (Hnan : fisnan (band (w_of (2000 / 10 ^ 9)) (w_of (200 / 10 ^ 9))
                           (fun _ => 145 / 100)
                           (Some (2 * PI * IZR (Z.of_nat 0 - 8192 `div` 2)
                                  / (2 / 10 ^ 12))
                            +. self_w_0 self)%f64) = true).
  { rewrite Hw0. cbn [fadd float64 lift2].
    rewrite band_below; [reflexivity|].
    change (IZR (Z.of_nat 0 - 8192 `div` 2)) with (-4096).
    unfold w_of, c_light. pose proof PI_RGT_0 as Hpi. lra. }
  destruct (undefined_index_never_written "fs" _ (Some (1 / 1000)) self
              Hgenerated Hfs HE)
    as (self' & Hrun & Hzero & _ & HEw & HEt & _).
  destruct (Hzero 0%nat _ Hw Hnan) as [_ Hout].
  eexists self, self', _, _.
  repeat (split; [eassumption|]). exact HEt.
Defined.

(** *** Runs of the properties above *)

Import Bench.

Lemma generate_pulse_shapes_witness :
  ∃ self self0 : calc num,
    init (Some (50 / 10 ^ 15)) (Some (800 / 10 ^ 9)) (Some (2 / 10 ^ 12))
      catalogue = Ok self
    ∧ generate_pulse (Some (50 / 10 ^ 15)) (Some (800 / 10 ^ 9))
        (Some (2 / 10 ^ 12)) (Some 5%Z) "temporal" self = Ok self0
    ∧ self_N self0 = 5%Z
    ∧ length (self_t self0) = 5%nat
    ∧ length (self_w self0) = 5%nat
    ∧ length (self_E_t self0) = 5%nat
    ∧ length (self_E_w self0) = 5%nat.
Proof.
  destruct (init_ideal (50 / 10 ^ 15) (800 / 10 ^ 9) (2 / 10 ^ 12) catalogue)
    as (self & Hinit & Hc & _); [lra | lra |].
  destruct (generate_pulse_ideal (50 / 10 ^ 15) (800 / 10 ^ 9) (2 / 10 ^ 12)
              (299792458 / 1) 5 "temporal" self Hc)
    as [self0 Hgen]; [lra | lra | lia | left; reflexivity |].
  exists self, self0. split; [exact Hinit|]. split; [exact Hgen|].
  destruct (generate_pulse_shapes _ _ _ _ _ _ _ Hgen)
    as (_ & HN & Ht & Hw & HT & HE & _ & _).
  repeat split; assumption.
Defined.

Lemma generate_pulse_frequencies_witness :
  ∃ (self self0 : calc num) (val : num),
    init (Some (50 / 10 ^ 15)) (Some (800 / 10 ^ 9)) (Some (2 / 10 ^ 12))
      catalogue = Ok self
    ∧ generate_pulse (Some (50 / 10 ^ 15)) (Some (800 / 10 ^ 9))
        (Some (2 / 10 ^ 12)) (Some 5%Z) "temporal" self = Ok self0
    ∧ self_w self0
      = map (fun k => f2 *. fpi *. (of_int k *. val))%f64
            (seqZ (- (self_N self0 `div` 2)) (self_N self0)).
Proof.
  destruct (init_ideal (50 / 10 ^ 15) (800 / 10 ^ 9) (2 / 10 ^ 12) catalogue)
    as (self & Hinit & Hc & _); [lra | lra |].
  destruct (generate_pulse_ideal (50 / 10 ^ 15) (800 / 10 ^ 9) (2 / 10 ^ 12)
              (299792458 / 1) 5 "temporal" self Hc)
    as [self0 Hgen]; [lra | lra | lia | left; reflexivity |].
  destruct (generate_pulse_frequencies _ _ _ _ _ _ _ Hgen) as (val & _ & Hw & _).
  exists self, self0, val. split; [exact Hinit|]. split; [exact Hgen | exact Hw].
Defined.

Lemma frequency_grid_witness :
  ∃ self self0 : calc num,
    init (Some (50 / 10 ^ 15)) (Some (800 / 10 ^ 9)) (Some (2 / 10 ^ 12))
      catalogue = Ok self
    ∧ generate_pulse (Some (50 / 10 ^ 15)) (Some (800 / 10 ^ 9))
        (Some (2 / 10 ^ 12)) (Some 4%Z) "temporal" self = Ok self0
    ∧ self_w self0 !! 2%nat = Some (Some 0)
    ∧ self_w self0 !! 3%nat = Some (Some (2 * PI * 1 / (2 / 10 ^ 12))).
Proof.
  destruct (init_ideal (50 / 10 ^ 15) (800 / 10 ^ 9) (2 / 10 ^ 12) catalogue)
    as (self & Hinit & Hc & _); [lra | lra |].
  destruct (generate_pulse_ideal (50 / 10 ^ 15) (800 / 10 ^ 9) (2 / 10 ^ 12)
              (299792458 / 1) 4 "temporal" self Hc)
    as [self0 Hgen]; [lra | lra | lia | left; reflexivity |].
  exists self, self0. split; [exact Hinit|]. split; [exact Hgen|].
  destruct (frequency_grid _ _ _ _ _ _ _ Hgen) as (_ & Hlookup & Hcentre).
  split; [exact Hcentre|]. apply (Hlookup 3%nat). cbn. lia.
Defined.

Lemma generate_pulse_raises_witness :
  generate_pulse (Some (50 / 10 ^ 15)) (Some 0) (Some (2 / 10 ^ 12))
    (Some 8%Z) "temporal" bench = Raise ZeroDivisionError
  ∧ generate_pulse (Some (50 / 10 ^ 15)) (Some (800 / 10 ^ 9))
      (Some (2 / 10 ^ 12)) (Some (-8)%Z) "temporal" bench = Raise ValueError.
Proof.
  split.
  - destruct (generate_pulse_raises (50 / 10 ^ 15) 0 (2 / 10 ^ 12) c_light 8
                "temporal" bench eq_refl) as (Hzero & _).
    apply Hzero. reflexivity.
  - destruct (generate_pulse_raises (50 / 10 ^ 15) (800 / 10 ^ 9) (2 / 10 ^ 12)
                c_light (-8) "temporal" bench eq_refl) as (_ & _ & Hneg & _).
    apply Hneg; [lra | lia].
Defined.

Lemma generate_pulse_starts_over_witness :
  ∃ self1 : calc num,
    propagate_all [("glass"%string, Some 1)] bench = Ok self1
    ∧ generate_pulse (Some (50 / 10 ^ 15)) (Some (800 / 10 ^ 9))
        (Some (2 / 10 ^ 12)) (Some 4%Z) "temporal" self1
      = generate_pulse (Some (50 / 10 ^ 15)) (Some (800 / 10 ^ 9))
          (Some (2 / 10 ^ 12)) (Some 4%Z) "temporal" bench.
Proof.
  destruct (propagate_all_total [("glass"%string, Some 1)] bench bench_generated)
    as (self1 & Hcalls & _).
  exists self1. split; [exact Hcalls|].
  apply (generate_pulse_starts_over _ _ _ _ _ _ _ _ Hcalls).
Defined.

Lemma init_generates_witness :
  ∃ self : calc num,
    init (Some (50 / 10 ^ 15)) (Some (800 / 10 ^ 9)) (Some (2 / 10 ^ 12))
      catalogue = Ok self
    ∧ self_N self = 8192%Z
    ∧ length (self_E_t_out self) = Z.to_nat 8192
    ∧ length (self_E_w_out self) = Z.to_nat 8192.
Proof.
  destruct (init_ideal (50 / 10 ^ 15) (800 / 10 ^ 9) (2 / 10 ^ 12) catalogue)
    as (self & Hinit & _); [lra | lra |].
  exists self. split; [exact Hinit|].
  destruct (init_generates _ _ _ _ _ Hinit) as (HN & _ & _ & HT & HE & _).
  repeat split; assumption.
Defined.

Lemma propagate_all_frame_witness :
  ∃ self' : calc num,
    propagate_all [("glass"%string, Some 1); ("bk7"%string, Some 1)] bench
    = Ok self'
    ∧ self' = set_output (self_E_t_out self') (self_E_w_out self') bench.
Proof.
  destruct (propagate_all_total
              [("glass"%string, Some 1); ("bk7"%string, Some 1)] bench
              bench_generated) as (self' & Hcalls & _).
  exists self'. split; [exact Hcalls|].
  apply (propagate_all_frame _ _ _ Hcalls).
Defined.

Lemma propagate_all_returns_witness :
  ∃ self self0 self1 : calc num,
    init (Some (50 / 10 ^ 15)) (Some (800 / 10 ^ 9)) (Some (2 / 10 ^ 12))
      catalogue = Ok self
    ∧ generate_pulse (Some (50 / 10 ^ 15)) (Some (800 / 10 ^ 9))
        (Some (2 / 10 ^ 12)) (Some 5%Z) "temporal" self = Ok self0
    ∧ propagate_all [("fs"%string, Some (1 / 1000)); ("bk7"%string, Some 1)]
        self0 = Ok self1
    ∧ length (self_E_w_out self1) = Z.to_nat (self_N self0).
Proof.
  destruct (init_ideal (50 / 10 ^ 15) (800 / 10 ^ 9) (2 / 10 ^ 12) catalogue)
    as (self & Hinit & Hc & _); [lra | lra |].
  destruct (generate_pulse_ideal (50 / 10 ^ 15) (800 / 10 ^ 9) (2 / 10 ^ 12)
              (299792458 / 1) 5 "temporal" self Hc)
    as [self0 Hgen]; [lra | lra | lia | left; reflexivity |].
  destruct (propagate_all_returns _ _ _ _ _
              [("fs"%string, Some (1 / 1000)); ("bk7"%string, Some 1)] _ _ Hgen)
    as (self1 & Hcalls & HE & _).
  exists self, self0, self1.
  split; [exact Hinit|]. split; [exact Hgen|]. split; [exact Hcalls | exact HE].
Defined.

Lemma wavenumber_window (w : R) :
  0 <= w + 10 <= 20 →
  wavenumber (band 0 20 (fun _ => 3 / 2)) bench_window (Some w)
  = Some ((w + 10) * (3 / 2) / c_light).
Proof.
  intros Hw. unfold wavenumber, bench_window, band.
  cbn [set_material bench self_w_0 self_c fadd fmul float64 lift2].
  destruct (Rle_dec 0 (w + 10)) as [_|Hn]; [|lra].
  destruct (Rle_dec (w + 10) 20) as [_|Hn]; [|lra].
  cbn [fmul float64 lift2]. apply div_some. unfold c_light. lra.
Qed.

Lemma propagation_keeps_spectrum_witness :
  ∃ self' : calc num,
    propagate_material "window" (Some 1) bench_window = Ok self'
    ∧ map np_abs (self_E_w_out self') = map np_abs (self_E_w_out bench_window)
    ∧ get_spectral_intensity true self'
      = get_spectral_intensity true bench_window.
Proof.
  assert (Hgen : generated bench_window) by (split; [reflexivity | discriminate]).
  destruct (propagate_material_total "window" (Some 1) bench_window Hgen)
    as (self' & Hrun & _).
  exists self'. split; [exact Hrun|].
  apply (propagation_keeps_spectrum "window" (band 0 20 (fun _ => 3 / 2)) 1 true
           bench_window self'); try reflexivity; [|exact Hrun].
  intros w Hw. cbn [bench_window set_material bench self_w] in Hw.
  apply elem_of_cons in Hw as [-> | Hw].
  - rewrite wavenumber_window by lra. reflexivity.
  - apply elem_of_cons in Hw as [-> | Hw]; [|apply elem_of_nil in Hw; contradiction].
    rewrite wavenumber_window by lra. reflexivity.
Defined.

(** The magnitude of a real number that is not negative. *)
Lemma magnitude_real (x : R) :
  0 <= x → np_abs ((Some x, Some 0) : complex num) = Some x.
Proof.
  intros Hx. cbn [np_abs numpy]. unfold magnitude. cbn [fst snd lift2].
  f_equal. replace (x * x + 0 * 0) with (x * x) by lra.
  apply sqrt_square, Hx.
Qed.

(** Decides the comparisons of [np.argmax] and [np.max] over real
    numbers. *)
Ltac ideal_compare :=
  repeat (unfold np_argmax, np_max, np_maximum, fleb;
          cbn [fisnan float64 argmax_from foldl fltb feqb ltb eqb orb];
          decide_reals; try lra).

Lemma bench_late_peak :
  np_argmax (map np_abs (self_E_t_out bench_late)) = Ok 2%nat.
Proof.
  cbn [bench_late set_output self_E_t_out map].
  rewrite !magnitude_real by lra.
  ideal_compare. reflexivity.
Qed.

Lemma bench_peak :
  np_argmax (map np_abs (self_E_t_out bench)) = Ok 1%nat.
Proof.
  cbn [bench self_E_t_out map].
  rewrite !magnitude_real by lra.
  ideal_compare. reflexivity.
Qed.

Lemma bench_edge_peak :
  np_argmax (map np_abs (self_E_t_out bench_edge)) = Ok 1%nat.
Proof.
  cbn [bench_edge set_output self_E_t_out map].
  rewrite !magnitude_real by lra.
  ideal_compare. reflexivity.
Qed.

Lemma bench_flat_peak :
  np_argmax (map np_abs (self_E_t_out bench_flat)) = Ok 0%nat.
Proof.
  cbn [bench_flat set_output self_E_t_out map].
  rewrite !magnitude_real by lra.
  ideal_compare. reflexivity.
Qed.

Lemma flat_fit_returns (x y : list num) :
  ∃ p, np_polyfit (PolyFit := flat_fit) x y 1 = Ok p.
Proof. eexists. reflexivity. Qed.

(** The transform of two real samples: their sum and their difference. *)
Lemma dft_pair_real (a b : R) :
  dft (-1) [(Some a, Some 0); (Some b, Some 0)]
  = [(Some (a + b), Some 0); (Some (a - b), Some 0)].
Proof.
  rewrite dft_2, !twiddle_2_0, !twiddle_2_1.
  unfold csum, cmul, cadd, czero, of_real. ideal_literals.
  cbn [foldr fst snd fadd fsub fmul float64 lift2].
  repeat f_equal; lra.
Qed.

(** Division by a positive real number, part by part. *)
Lemma cdiv_positive (x y m : R) :
  0 < m →
  cdiv ((Some x, Some y) : complex num) (of_real (Some m))
  = (Some (x / m), Some (y / m)).
Proof.
  intros Hm. unfold cdiv, of_real, fleb. ideal_literals.
  cbn [fabs float64 lift1 fltb feqb ltb eqb].
  replace (0 / 1) with 0 by lra.
  rewrite Rabs_R0, (Rabs_pos_eq m) by lra.
  decide_reals; try lra. cbn [orb andb].
  cbn [fdiv fmul fadd fsub float64 div lift2].
  decide_reals; try lra.
  cbn [lift2].
  decide_reals; try lra.
  f_equal; f_equal; field; lra.
Qed.

(** The normalised spectrum of two equal samples: 0 and 1. *)
Lemma bench_flat_spectrum :
  normalised_spectrum (self_E_t_out bench_flat)
  = Ok [(Some ((1 - 1) / (1 + 1)), Some (0 / (1 + 1)));
        (Some ((1 + 1) / (1 + 1)), Some (0 / (1 + 1)))].
Proof.
  unfold normalised_spectrum. rewrite bench_flat_peak.
  cbn [mbind result_bind bench_flat set_output self_E_t_out].
  change (np_roll ?l (- Z.of_nat 0)) with l.
  change (fft [?u; ?v]) with (Ok (dft (-1) [u; v])).
  cbn [mbind result_bind]. rewrite dft_pair_real.
  change (fftshift [?u; ?v]) with [v; u].
  cbn [map]. rewrite !magnitude_real by lra.
  ideal_compare. cbn [mbind result_bind map].
  rewrite !cdiv_positive by lra. reflexivity.
Qed.

Lemma intensity_peak_index_witness :
  ∃ trace : list num,
    np_argmax (map np_abs (self_E_t_out bench_late)) = Ok 2%nat
    ∧ intensity false (self_E_t_out bench_late) = Ok (Some trace)
    ∧ trace = map (fun z => fsqr (np_abs z)) (self_E_t_out bench_late)
    ∧ trace !! 2%nat = Some (fsqr (np_abs ((Some 1, Some 0) : complex num)))
    ∧ trace !! 1%nat = Some (fsqr (np_abs ((Some 0, Some 0) : complex num))).
Proof.
  destruct (intensity_peak_index (self_E_t_out bench_late) ltac:(discriminate))
    as (ind & trace & m & Hind & _ & Htrace & Hraw & _ & Hpeak & _).
  rewrite bench_late_peak in Hind. injection Hind as <-.
  exists trace. split; [exact bench_late_peak|]. split; [exact Hraw|].
  split; [exact Htrace|]. split; [exact Hpeak|].
  rewrite Htrace. reflexivity.
Defined.


Lemma get_pulse_duration_without_pulse_witness :
  get_pulse_duration "temporal" bench_empty = Raise TypeError
  ∧ get_pulse_duration "spectral" bench_empty = Raise TypeError.
Proof.
  split; apply get_pulse_duration_without_pulse; reflexivity.
Defined.

Lemma get_pulse_duration_returns_witness :
  ∃ (self self0 self1 : calc num) (width : num),
    init (Some (50 / 10 ^ 15)) (Some (800 / 10 ^ 9)) (Some (2 / 10 ^ 12))
      catalogue = Ok self
    ∧ generate_pulse (Some (50 / 10 ^ 15)) (Some (800 / 10 ^ 9))
        (Some (2 / 10 ^ 12)) (Some 5%Z) "temporal" self = Ok self0
    ∧ propagate_all [("fs"%string, Some (1 / 1000))] self0 = Ok self1
    ∧ get_pulse_duration "temporal" self1 = Ok width.
Proof.
  destruct (init_ideal (50 / 10 ^ 15) (800 / 10 ^ 9) (2 / 10 ^ 12) catalogue)
    as (self & Hinit & Hc & _); [lra | lra |].
  destruct (generate_pulse_ideal (50 / 10 ^ 15) (800 / 10 ^ 9) (2 / 10 ^ 12)
              (299792458 / 1) 5 "temporal" self Hc)
    as [self0 Hgen]; [lra | lra | lia | left; reflexivity |].
  destruct (propagate_all_total [("fs"%string, Some (1 / 1000))] self0
              (generate_pulse_generated _ _ _ _ _ _ _ Hgen))
    as (self1 & Hcalls & _).
  destruct (get_pulse_duration_returns _ _ _ _ _ _ "temporal" _ _ _ Hgen Hcalls)
    as [width Hwidth].
  exists self, self0, self1, width.
  split; [exact Hinit|]. split; [exact Hgen|]. split; [exact Hcalls | exact Hwidth].
Defined.

Lemma get_temporal_phase_needs_centre_witness :
  get_temporal_phase (PolyFit0 := no_fit) false bench_late = Raise TypeError
  ∧ get_temporal_phase (PolyFit0 := flat_fit) true bench_late = Raise TypeError
  ∧ ∃ ph_out : list num,
      get_temporal_phase (PolyFit0 := no_fit) false bench = Ok (Some ph_out)
      ∧ length ph_out = 2%nat.
Proof.
  split; [|split].
  - destruct (get_temporal_phase_needs_centre (PolyFit0 := no_fit) false
                bench_late ltac:(discriminate)) as (ind & _ & _ & Hodd & _).
    apply Hodd. exists 1%nat. reflexivity.
  - destruct (get_temporal_phase_needs_centre (PolyFit0 := flat_fit) true
                bench_late ltac:(discriminate)) as (ind & _ & _ & Hodd & _).
    apply Hodd. exists 1%nat. reflexivity.
  - destruct (get_temporal_phase_needs_centre (PolyFit0 := no_fit) false
                bench ltac:(discriminate)) as (ind & Hind & _ & _ & Hmid).
    rewrite bench_peak in Hind. injection Hind as <-.
    destruct (Hmid eq_refl) as (ph0 & _ & Hrun & Hlen).
    eexists. split; [exact Hrun | exact Hlen].
Defined.

Lemma get_temporal_phase_masks_witness :
  ∃ (ph_out : list num) (p : num),
    get_temporal_phase (PolyFit0 := flat_fit) true bench_edge = Ok (Some ph_out)
    ∧ length ph_out = 2%nat
    ∧ (np_abs ((Some 0, Some 0) : complex num) <.? self_phase_thr bench_edge)%f64
      = true
    ∧ ph_out !! 0%nat = Some p
    ∧ fisnan p = true.
Proof.
  destruct (get_temporal_phase_fits (PolyFit0 := flat_fit) bench_edge 1
              flat_fit_returns bench_edge_peak eq_refl ltac:(discriminate))
    as [ph_out Hrun].
  assert (Hlow : (np_abs ((Some 0, Some 0) : complex num)
                  <.? self_phase_thr bench_edge)%f64 = true).
  { rewrite magnitude_real by lra. cbn. decide_reals; [reflexivity | lra]. }
  assert (Hnan0 : fisnan (fnan : num) = true) by reflexivity.
  destruct (get_temporal_phase_masks (PolyFit0 := flat_fit) true bench_edge
              ph_out Hnan0 Hrun) as (_ & _ & Hlen & Hmask).
  destruct (Hmask 0%nat (Some 0, Some 0) eq_refl Hlow) as (p & Hp & Hnan).
  exists ph_out, p. repeat split; assumption.
Defined.

Lemma get_spectral_phase_returns_witness :
  ∃ ph_out : list num,
    get_spectral_phase (PolyFit0 := no_fit) false bench = Ok (Some ph_out)
    ∧ length ph_out = 2%nat.
Proof.
  destruct (get_spectral_phase_returns (PolyFit0 := no_fit) bench
              ltac:(discriminate))
    as (Ew & ph0_ind & p0 & ph_out & _ & _ & Hrun & Hlen & _).
  exists ph_out. split; [exact Hrun | exact Hlen].
Defined.

Lemma get_spectral_phase_masks_witness :
  ∃ (Ew : list (complex num)) (z : complex num) (ph_out : list num) (p : num),
    normalised_spectrum (self_E_t_out bench_flat) = Ok Ew
    ∧ get_spectral_phase (PolyFit0 := flat_fit) true bench_flat
      = Ok (Some ph_out)
    ∧ length ph_out = 2%nat
    ∧ Ew !! 0%nat = Some z
    ∧ (np_abs z <.? self_phase_thr bench_flat)%f64 = true
    ∧ ph_out !! 0%nat = Some p
    ∧ fisnan p = true.
Proof.
  destruct (get_spectral_phase_fits (PolyFit0 := flat_fit) bench_flat
              flat_fit_returns ltac:(discriminate)) as [ph_out Hrun].
  assert (Hlow : (np_abs ((Some ((1 - 1) / (1 + 1)), Some (0 / (1 + 1)))
                          : complex num)
                  <.? self_phase_thr bench_flat)%f64 = true).
  { replace ((1 - 1) / (1 + 1)) with 0 by lra.
    replace (0 / (1 + 1)) with 0 by lra.
    rewrite magnitude_real by lra. cbn. decide_reals; [reflexivity | lra]. }
  assert (Hnan0 : fisnan (fnan : num) = true) by reflexivity.
  destruct (get_spectral_phase_masks (PolyFit0 := flat_fit) true bench_flat
              _ ph_out Hnan0 bench_flat_spectrum Hrun) as (Hlen & Hmask).
  destruct (Hmask 0%nat _ eq_refl Hlow) as (p & Hp & Hnan).
  eexists _, _, ph_out, p.
  split; [exact bench_flat_spectrum|]. split; [exact Hrun|].
  split; [exact Hlen|]. split; [reflexivity|]. split; [exact Hlow|].
  split; assumption.
Defined.

Lemma add_material_short_witness :
  add_material (Interp1d0 := first_sample) "glass"
    [Some (7 / 10); Some (4 / 10)] [Some (1 / 100)] bench
  = Raise IndexError.
Proof. apply add_material_short. cbn. lia. Defined.

Lemma add_material_first_sample (name : string) (b c : R) (self : calc num) :
  ∃ self', add_material (Interp1d0 := first_sample) name [Some b] [Some c] self
           = Ok self'.
Proof.
  unfold add_material.
  destruct (add_material_grid (F := num)) as [l_mat Hgrid].
  rewrite Hgrid. cbn [mbind result_bind]. cbv zeta.
  apply np_linspace_length in Hgrid as [_ Hlen].
  destruct l_mat as [|l0 l_mat]; [discriminate|].
  cbn [sellmeier_terms getitem lookup list_lookup mbind result_bind
       add_term sellmeier_index map interp1d first_sample].
  eexists. reflexivity.
Qed.

Lemma add_material_stores_witness :
  ∃ (self' : calc num) (n_ip : num → num),
    add_material (Interp1d0 := first_sample) "bk7"
      [Some (7 / 10)] [Some (1 / 100)] bench = Ok self'
    ∧ self_materials self' !! "bk7"%string = Some n_ip
    ∧ self_materials self' !! "glass"%string
      = self_materials bench !! "glass"%string.
Proof.
  destruct (add_material_first_sample "bk7" (7 / 10) (1 / 100) bench)
    as [self' Hadd].
  destruct (add_material_stores (Interp1d0 := first_sample) _ _ _ _ _ Hadd)
    as (_ & n_ip & _ & Hname & Hother & _).
  exists self', n_ip. split; [exact Hadd|]. split; [exact Hname|].
  apply Hother. discriminate.
Defined.

Lemma add_material_surplus_witness :
  add_material (Interp1d0 := first_sample) "bk7"
    [Some (7 / 10)] ([Some (1 / 100)] ++ [Some 5; Some 6]) bench
  = add_material (Interp1d0 := first_sample) "bk7"
      [Some (7 / 10)] [Some (1 / 100)] bench.
Proof. apply add_material_surplus. cbn. lia. Defined.
(** *** A zero thickness *)

Lemma cmul_unit_zero_thickness (k x y : R) :
  cmul (unit_or_zero (Some k) (Some 0)) (Some x, Some y) = (Some x, Some y).
Proof.
  cbn [unit_or_zero]. rewrite Rmult_0_r, cos_0, sin_0. unfold cmul. cbn.
  f_equal; f_equal; ring.
Qed.

Lemma cmul_czero_some (x y : R) :
  cmul czero (Some x, Some y) = (Some 0, Some 0).
Proof. unfold cmul, czero, f0. cbn. f_equal; f_equal; field. Qed.

(** X22.  In ideal arithmetic a zero thickness is no identity: the call
    keeps every spectral component where the wavenumber of the material
    is defined and sets it to zero where it is not. *)
Theorem zero_thickness_filters (name : string) (n_ip : num → num)
    (self self' : calc num) :
  self_materials self !! name = Some n_ip →
  length (self_w self) = length (self_E_w_out self) →
  propagate_material name (Some 0) self = Ok self' →
  ∀ (i : nat) (w : num) (x y : R),
    self_w self !! i = Some w →
    self_E_w_out self !! i = Some ((Some x, Some y) : complex num) →
    self_E_w_out self' !! i
    = Some (if fisnan (wavenumber n_ip self w)
            then (Some 0, Some 0) else (Some x, Some y)).
Proof.
  intros Hname Hlen Hrun i w x y Hw He.
  rewrite (propagate_known name n_ip) in Hrun by exact Hname.
  rewrite broadcast_same_length in Hrun
    by (rewrite transfer_map, length_map; exact Hlen).
  cbn [mbind result_bind] in Hrun. inv_bind Hrun. injection Hrun as <-.
  cbn [set_output self_E_w_out].
  assert (Ht : transfer n_ip (Some 0) self !! i
               = Some (transfer_at n_ip (Some 0) self w)).
  { rewrite transfer_map, list_lookup_fmap, Hw. reflexivity. }
  rewrite lookup_zip_with, Ht. cbn [mbind option_bind].
  rewrite He. cbn [mbind option_bind].
  rewrite transfer_at_ideal. f_equal.
  destruct (wavenumber n_ip self w) as [k|].
  - apply cmul_unit_zero_thickness.
  - apply cmul_czero_some.
Qed.

Lemma zero_thickness_filters_witness :
  ∃ self' : calc num,
    propagate_material "glass" (Some 0) bench = Ok self'
    ∧ self_E_w_out self' !! 0%nat = Some (Some 0, Some 0)
    ∧ self_E_w_out self' !! 1%nat = Some (Some 1, Some 0).
Proof.
  destruct (propagate_material_total "glass" (Some 0) bench bench_generated)
    as (self' & Hrun & _).
  exists self'. split; [exact Hrun|].
  pose proof (zero_thickness_filters "glass" (band 10 12 (fun _ => 3 / 2))
                bench self' eq_refl eq_refl Hrun) as Hfilter.
  split.
  - rewrite (Hfilter 0%nat (Some (- (1))) 3 0 eq_refl eq_refl).
    unfold wavenumber. cbn [bench self_w_0 self_c fadd float64 lift2].
    rewrite band_below by lra. reflexivity.
  - rewrite (Hfilter 1%nat (Some 1) 1 0 eq_refl eq_refl).
    unfold wavenumber. cbn [bench self_w_0 self_c fadd float64 lift2].
    unfold band.
    destruct (Rle_dec 10 (1 + 10)) as [_|Hn]; [|lra].
    destruct (Rle_dec (1 + 10) 12) as [_|Hn]; [|lra].
    cbn [fmul float64 lift2]. rewrite div_some by (unfold c_light; lra).
    reflexivity.
Defined.

(** *** The pulse duration on the time grid *)

Lemma time_grid (fwhm l_0 : num) (t_span : R) (n : Z) (domain : string)
    (self self0 : calc num) :
  generate_pulse fwhm l_0 (Some t_span) (Some n) domain self = Ok self0 →
  (2 ≤ n)%Z →
  self_t self0 = grid (- t_span / 2) (t_span / 2) n.
Proof.
  intros Hrun Hn.
  apply generate_pulse_grid in Hrun as (Hgrid & _ & _).
  change (default (self_N self) (Some n)) with n in Hgrid.
  ideal_literals in Hgrid. cbn [fneg float64 lift1] in Hgrid.
  rewrite !div_some in Hgrid by lra.
  rewrite linspace_grid in Hgrid by exact Hn.
  injection Hgrid as <-. f_equal; field.
Qed.

(** The indices a filter keeps of an ascending list ascend. *)
Lemma filter_seq_ascends (P : nat → Prop) `{!∀ i, Decision (P i)}
    (len : nat) : ∀ (start first : nat) (rest : list nat),
  filter P (seq start len) = first :: rest →
  (start ≤ first)%nat ∧ Forall (fun i => first < i < start + len)%nat rest.
Proof.
  induction len as [|len IH]; intros start first rest; [discriminate|].
  cbn [seq]. rewrite filter_cons. destruct (decide (P start)) as [_|_].
  - intros [= <- <-]. split; [lia|].
    apply Forall_forall. intros i Hi.
    apply list_elem_of_filter in Hi as [_ Hi]. apply elem_of_seq in Hi. lia.
  - intros Hrest. apply IH in Hrest as [Hle Hall]. split; [lia|].
    eapply Forall_impl; [exact Hall|]. intros i Hi. simpl in Hi. lia.
Qed.

Lemma last_in {A} (l : list A) (x : A) : List.last l x ∈ x :: l.
Proof.
  revert x. induction l as [|y l IH]; intros x; [left|].
  rewrite last_cons. right. apply IH.
Qed.

Lemma half_max_width_grid (start stop : R) (n : Z) (trace : list num)
    (width : num) :
  length trace = Z.to_nat n →
  half_max_width (grid start stop n) trace = Ok width →
  width = None
  ∨ ∃ i j : nat,
      (i < j < Z.to_nat n)%nat
      ∧ width = Some (INR (j - i) * ((stop - start) / (IZR n - 1))).
Proof.
  intros Hlen. unfold half_max_width.
  destruct (crossings trace) as [|first [|second more]] eqn:Hcross;
    try (intros [= <-]; left; reflexivity).
  unfold crossings, pair_indices in Hcross.
  apply filter_seq_ascends in Hcross as [_ Hall].
  assert (Hlast : (first < List.last more second < Z.to_nat n)%nat).
  { rewrite Forall_forall in Hall.
    specialize (Hall _ (last_in more second)). lia. }
  unfold getitem.
  rewrite !grid_lookup by lia. cbn [mbind result_bind].
  intros [= <-]. right. exists first, (List.last more second).
  split; [exact Hlast|].
  cbn [fsub float64 lift2]. f_equal.
  rewrite minus_INR by lia. ring.
Qed.

(** X23.  In ideal arithmetic the temporal pulse duration of a generated
    and propagated pulse of two samples or more is NaN or a whole number,
    one at least, of spacings of the time grid: [t_span / (n - 1)]
    each. *)
Theorem pulse_duration_on_grid (fwhm l_0 : num) (t_span : R) (n : Z)
    (domain : string) (calls : list (call num)) (self self0 self1 : calc num)
    (width : num) :
  generate_pulse fwhm l_0 (Some t_span) (Some n) domain self = Ok self0 →
  (2 ≤ n)%Z →
  propagate_all calls self0 = Ok self1 →
  get_pulse_duration "temporal" self1 = Ok width →
  width = None
  ∨ ∃ i j : nat,
      (i < j < Z.to_nat n)%nat
      ∧ width = Some (INR (j - i) * (t_span / (IZR n - 1))).
Proof.
  intros Hgen Hn Hcalls Hwidth.
  assert (Hn' : 2 <= IZR n) by (apply IZR_le in Hn; lra).
  pose proof (time_grid _ _ _ _ _ _ _ Hgen Hn) as Ht.
  destruct (propagate_all_shaped calls self0
              (generate_pulse_shaped _ _ _ _ _ _ _ Hgen))
    as (self1' & Hcalls' & (Hne & Hlen_t & _ & Hlen_T) & _).
  rewrite Hcalls in Hcalls'. injection Hcalls' as <-.
  assert (Ht1 : self_t self1 = grid (- t_span / 2) (t_span / 2) n).
  { rewrite (propagate_all_frame_eq calls self0 self1 Hcalls). exact Ht. }
  unfold get_pulse_duration in Hwidth.
  cbn [String.eqb Ascii.eqb Bool.eqb] in Hwidth.
  unfold get_temporal_intensity, get_t in Hwidth.
  destruct (intensity_length true (self_E_t_out self1)) as (trace & Htrace & Hlen).
  { intros Hnil. rewrite Hnil in Hlen_T.
    destruct (self_E_w_out self1); [congruence | discriminate]. }
  rewrite Htrace in Hwidth. cbn [mbind result_bind] in Hwidth.
  rewrite trace_fwhm_width, Ht1 in Hwidth.
  apply half_max_width_grid in Hwidth.
  - destruct Hwidth as [-> | (i & j & Hij & ->)]; [left; reflexivity|].
    right. exists i, j. split; [exact Hij|]. f_equal. field. lra.
  - rewrite Hlen, Hlen_T, <- Hlen_t, Ht1. apply grid_length.
Qed.

Lemma pulse_duration_on_grid_witness :
  ∃ (self self0 self1 : calc num) (width : num),
    init (Some (50 / 10 ^ 15)) (Some (800 / 10 ^ 9)) (Some (2 / 10 ^ 12))
      catalogue = Ok self
    ∧ generate_pulse (Some (50 / 10 ^ 15)) (Some (800 / 10 ^ 9))
        (Some (2 / 10 ^ 12)) (Some 5%Z) "temporal" self = Ok self0
    ∧ propagate_all [("fs"%string, Some (1 / 1000))] self0 = Ok self1
    ∧ get_pulse_duration "temporal" self1 = Ok width
    ∧ (width = None
       ∨ ∃ i j : nat,
           (i < j < Z.to_nat 5)%nat
           ∧ width = Some (INR (j - i) * (2 / 10 ^ 12 / (IZR 5 - 1)))).
Proof.
  destruct (init_ideal (50 / 10 ^ 15) (800 / 10 ^ 9) (2 / 10 ^ 12) catalogue)
    as (self & Hinit & Hc & _); [lra | lra |].
  destruct (generate_pulse_ideal (50 / 10 ^ 15) (800 / 10 ^ 9) (2 / 10 ^ 12)
              (299792458 / 1) 5 "temporal" self Hc)
    as [self0 Hgen]; [lra | lra | lia | left; reflexivity |].
  destruct (propagate_all_shaped [("fs"%string, Some (1 / 1000))] self0
              (generate_pulse_shaped _ _ _ _ _ _ _ Hgen))
    as (self1 & Hcalls & Hshaped & _).
  destruct (get_pulse_duration_shaped "temporal" self1 Hshaped) as [width Hwidth].
  exists self, self0, self1, width.
  split; [exact Hinit|]. split; [exact Hgen|]. split; [exact Hcalls|].
  split; [exact Hwidth|].
  apply (pulse_duration_on_grid _ _ _ _ _ _ _ _ _ _ Hgen ltac:(lia) Hcalls Hwidth).
Defined.
End IdealFacts.
